(** * Email_Selection: the cleaning pipeline, the record merger and the
      stratified sampler, embedded from the Python sources

    - [src/email_selector_ui/clean_emails.py]     (pattern rewrite engine)
    - [src/email_selector_ui/select_350_emails.py] (stratified sampler)
    - [src/email_selector_ui/prepare_data.py]      (record merger)

    Python [str] values are sequences of Unicode code points and are
    modelled as [list N].  The [re] module is modelled by a backtracking
    matcher over a small regex syntax tree, together with a parser for the
    pattern syntax the sources use, so that every pattern below is quoted
    verbatim from the source. *)

From Stdlib Require Import String Ascii NArith.
From stdpp Require Import base option list gmap sorting.

Local Open Scope N_scope.
Local Open Scope list_scope.

(** ** Python strings *)

Abbreviation pystr := (list N).

(** A raw literal [r'...']: every character stands for itself. *)
Fixpoint raw (s : string) : pystr :=
  match s with
  | EmptyString => []
  | String a s' => N_of_ascii a :: raw s'
  end.

Definition hexval (a : ascii) : option N :=
  let n := N_of_ascii a in
  if (48 <=? n) && (n <=? 57) then Some (n - 48)
  else if (97 <=? n) && (n <=? 102) then Some (n - 87)
  else if (65 <=? n) && (n <=? 70) then Some (n - 55)
  else None.

Definition hex4 (a b c d : ascii) : option N :=
  match hexval a, hexval b, hexval c, hexval d with
  | Some x, Some y, Some z, Some w => Some (((x * 16 + y) * 16 + z) * 16 + w)
  | _, _, _, _ => None
  end.

(** An ordinary literal ['...']: the escapes [\n], [\t], [\r], [\\] and
    [\uXXXX] are decoded as Python's tokenizer does. *)
Fixpoint py (s : string) : pystr :=
  match s with
  | EmptyString => []
  | String "\" (String "n" r) => 10 :: py r
  | String "\" (String "t" r) => 9 :: py r
  | String "\" (String "r" r) => 13 :: py r
  | String "\" (String "\" r) => 92 :: py r
  | String "\" (String "u" (String a (String b (String c (String d r))))) =>
      match hex4 a b c d with
      | Some n => n :: py r
      | None => 92 :: 117 :: N_of_ascii a :: N_of_ascii b :: N_of_ascii c
                  :: N_of_ascii d :: py r
      end
  | String a r => N_of_ascii a :: py r
  end.

Definition is_ascii (c : N) : bool := c <? 128.

(** [str.isspace] of one code point, as CPython's [_PyUnicode_IsWhitespace];
    the same table decides [\s] in a [str] pattern. *)
Definition isspace (c : N) : bool :=
  ((9 <=? c) && (c <=? 13)) || ((28 <=? c) && (c <=? 32))
  || (c =? 133) || (c =? 160) || (c =? 5760)
  || ((8192 <=? c) && (c <=? 8202))
  || (c =? 8232) || (c =? 8233) || (c =? 8239) || (c =? 8287) || (c =? 12288).

Definition ascii_isdigit (c : N) : bool := (48 <=? c) && (c <=? 57).
Definition ascii_isupper (c : N) : bool := (65 <=? c) && (c <=? 90).
Definition ascii_islower (c : N) : bool := (97 <=? c) && (c <=? 122).
Definition ascii_isalnum (c : N) : bool :=
  ascii_isdigit c || ascii_isupper c || ascii_islower c.
Definition ascii_lower (c : N) : N := if ascii_isupper c then c + 32 else c.

(** The part of the interpreter's Unicode database the sources reach
    through [re] and [str.lower], for code points outside ASCII.  Inside
    ASCII everything is fixed by the definitions above. *)
Record unicode_db := {
  uni_isdecimal : N -> bool;   (* \d beyond ASCII: category Nd *)
  uni_isalnum : N -> bool;     (* \w beyond ASCII *)
  uni_tolower : N -> N;        (* simple lower-case mapping used by re.IGNORECASE *)
  uni_strlower : pystr -> pystr (* str.lower of a string that is not pure ASCII *)
}.

(** ** Slicing helpers *)

Fixpoint lstrip (s : pystr) : pystr :=
  match s with
  | [] => []
  | c :: t => if isspace c then lstrip t else s
  end.

Definition rstrip (s : pystr) : pystr := rev (lstrip (rev s)).

(** [str.strip()] *)
Definition strip (s : pystr) : pystr := rstrip (lstrip s).

(** [s.startswith(p)] *)
Fixpoint startswith (p s : pystr) : bool :=
  match p, s with
  | [], _ => true
  | a :: p', b :: s' => (a =? b) && startswith p' s'
  | _ :: _, [] => false
  end.

(** [text[i:j]] for [0 <= i], [0 <= j] *)
Definition slice (text : pystr) (i j : nat) : pystr := take (j - i) (drop i text).

(** [sep.join(parts)] *)
Fixpoint join (sep : pystr) (parts : list pystr) : pystr :=
  match parts with
  | [] => []
  | [p] => p
  | p :: rest => p ++ sep ++ join sep rest
  end.

(** ** Regular expressions: syntax *)

Inductive cls := CDigit | CSpace | CWord.

Inductive citem :=
| IChar (c : N)
| IRange (lo hi : N)
| IClass (k : cls).

Inductive regex :=
| REmpty
| RLit (c : N)
| RAny
| RSet (neg : bool) (items : list citem)
| RSeq (a b : regex)
| RAlt (a b : regex)
| RRep (greedy : bool) (lo : nat) (hi : option nat) (body : regex)
| RGroup (idx : nat) (body : regex)
| RLook (body : regex)
| RBol
| REnd.

Record flags := { IGNORECASE : bool; MULTILINE : bool; DOTALL : bool }.

Definition no_flags : flags :=
  {| IGNORECASE := false; MULTILINE := false; DOTALL := false |}.
Definition re_I : flags :=
  {| IGNORECASE := true; MULTILINE := false; DOTALL := false |}.
Definition re_M : flags :=
  {| IGNORECASE := false; MULTILINE := true; DOTALL := false |}.
Definition re_S : flags :=
  {| IGNORECASE := false; MULTILINE := false; DOTALL := true |}.
Definition re_SI : flags :=
  {| IGNORECASE := true; MULTILINE := false; DOTALL := true |}.

(** ** Regular expressions: the pattern parser

    The subset of [re] syntax that occurs in the sources: literals,
    [.], [^], [\Z], the classes [\d \s \w], escaped punctuation, [\n \t \r],
    [\uXXXX], sets with ranges and negation, groups [(...)], [(?:...)],
    [(?=...)], alternation and the quantifiers [* + ? {n} {n,} {n,m}] with
    their lazy forms.  Anything else is refused ([None]), which stands for
    [re.error]. *)

Definition ch (a : ascii) : N := N_of_ascii a.

Inductive esc := EChar (c : N) | EClass (k : cls) | EEnd.

Definition parse_escape (s : pystr) : option (esc * pystr) :=
  match s with
  | [] => None
  | c :: t =>
      if c =? ch "d" then Some (EClass CDigit, t)
      else if c =? ch "s" then Some (EClass CSpace, t)
      else if c =? ch "w" then Some (EClass CWord, t)
      else if c =? ch "Z" then Some (EEnd, t)
      else if c =? ch "n" then Some (EChar 10, t)
      else if c =? ch "t" then Some (EChar 9, t)
      else if c =? ch "r" then Some (EChar 13, t)
      else if c =? ch "u" then
        match t with
        | a :: b :: c' :: d :: t' =>
            if is_ascii a && is_ascii b && is_ascii c' && is_ascii d then
              match hex4 (ascii_of_N a) (ascii_of_N b) (ascii_of_N c') (ascii_of_N d) with
              | Some n => Some (EChar n, t')
              | None => None
              end
            else None
        | _ => None
        end
      else if ascii_isalnum c then None
      else Some (EChar c, t)
  end.

Fixpoint read_nat (acc : nat) (s : pystr) : nat * pystr :=
  match s with
  | c :: t => if ascii_isdigit c then read_nat (10 * acc + N.to_nat (c - 48)) t
              else (acc, s)
  | [] => (acc, s)
  end.

(** The members of a set, up to and including the closing bracket. *)
Fixpoint parse_set_items (fuel : nat) (s : pystr) : option (list citem * pystr) :=
  match fuel with
  | O => None
  | S f =>
      match s with
      | [] => None
      | c :: t =>
          if c =? ch "]" then Some ([], t)
          else if c =? ch "\" then
            match parse_escape t with
            | Some (EChar x, t') =>
                '(items, rest) ← parse_set_items f t'; Some (IChar x :: items, rest)
            | Some (EClass k, t') =>
                '(items, rest) ← parse_set_items f t'; Some (IClass k :: items, rest)
            | _ => None
            end
          else
            match t with
            | d :: hi :: t' =>
                if (d =? ch "-") && negb (hi =? ch "]") then
                  if (hi =? ch "\") || (hi <? c) then None
                  else '(items, rest) ← parse_set_items f t';
                       Some (IRange c hi :: items, rest)
                else '(items, rest) ← parse_set_items f t; Some (IChar c :: items, rest)
            | _ => '(items, rest) ← parse_set_items f t; Some (IChar c :: items, rest)
            end
      end
  end.

Definition parse_set (s : pystr) : option (regex * pystr) :=
  match s with
  | c :: t =>
      if c =? ch "^" then
        '(items, rest) ← parse_set_items (S (length t)) t;
        match items with [] => None | _ => Some (RSet true items, rest) end
      else
        '(items, rest) ← parse_set_items (S (length s)) s;
        match items with [] => None | _ => Some (RSet false items, rest) end
  | [] => None
  end.

(** A quantifier after an atom, if there is one. *)
Definition parse_quant (a : regex) (s : pystr) : option (regex * pystr) :=
  let lazy (lo : nat) (hi : option nat) (rest : pystr) :=
    match rest with
    | q :: rest' =>
        if q =? ch "?" then Some (RRep false lo hi a, rest')
        else if (q =? ch "+") || (q =? ch "*") || (q =? ch "{") then None
        else Some (RRep true lo hi a, rest)
    | [] => Some (RRep true lo hi a, rest)
    end in
  match s with
  | c :: t =>
      if c =? ch "*" then lazy O None t
      else if c =? ch "+" then lazy 1%nat None t
      else if c =? ch "?" then lazy O (Some 1%nat) t
      else if c =? ch "{" then
        match t with
        | d :: _ =>
            if ascii_isdigit d then
              let '(lo, t1) := read_nat O t in
              match t1 with
              | x :: t2 =>
                  if x =? ch "}" then lazy lo (Some lo) t2
                  else if x =? ch "," then
                    match t2 with
                    | y :: t3 =>
                        if y =? ch "}" then lazy lo None t3
                        else if ascii_isdigit y then
                          let '(hi, t4) := read_nat O t2 in
                          match t4 with
                          | z :: t5 =>
                              if (z =? ch "}") && bool_decide (lo ≤ hi)%nat
                              then lazy lo (Some hi) t5 else None
                          | [] => None
                          end
                        else None
                    | [] => None
                    end
                  else None
              | [] => None
              end
            else None
        | [] => None
        end
      else Some (a, s)
  | [] => Some (a, s)
  end.

Definition expect_close (s : pystr) : option pystr :=
  match s with
  | c :: t => if c =? ch ")" then Some t else None
  | [] => None
  end.

Definition mk_alt (branch : regex) (alts : option regex) : regex :=
  match alts with
  | None => branch
  | Some o => RAlt branch o
  end.

Definition mk_seq (a b : regex) : regex :=
  match b with
  | REmpty => a
  | _ => RSeq a b
  end.

(** [parse_re fuel s ng] reads one alternation up to the end of the pattern
    or an unmatched closing parenthesis.  It returns the first branch, the
    remaining branches, the unread input and the number of capturing groups
    opened so far. *)
Fixpoint parse_re (fuel : nat) (s : pystr) (ng : nat)
  : option (regex * option regex * pystr * nat) :=
  match fuel with
  | O => None
  | S f =>
      match s with
      | [] => Some (REmpty, None, [], ng)
      | c :: t =>
          if c =? ch ")" then Some (REmpty, None, s, ng)
          else if c =? ch "|" then
            '(b, alts, rest, ng') ← parse_re f t ng;
            Some (REmpty, Some (mk_alt b alts), rest, ng')
          else
            '(a, s1, ng1) ←
              (if c =? ch "(" then
                 match t with
                 | q :: k :: t' =>
                     if (q =? ch "?") && (k =? ch ":") then
                       '(b, alts, rest, ng') ← parse_re f t' ng;
                       rest' ← expect_close rest;
                       Some (mk_alt b alts, rest', ng')
                     else if (q =? ch "?") && (k =? ch "=") then
                       '(b, alts, rest, ng') ← parse_re f t' ng;
                       rest' ← expect_close rest;
                       Some (RLook (mk_alt b alts), rest', ng')
                     else if q =? ch "?" then None
                     else
                       '(b, alts, rest, ng') ← parse_re f t (S ng);
                       rest' ← expect_close rest;
                       Some (RGroup (S ng) (mk_alt b alts), rest', ng')
                 | _ =>
                     '(b, alts, rest, ng') ← parse_re f t (S ng);
                     rest' ← expect_close rest;
                     Some (RGroup (S ng) (mk_alt b alts), rest', ng')
                 end
               else if c =? ch "[" then
                 '(r, rest) ← parse_set t; Some (r, rest, ng)
               else if c =? ch "\" then
                 match parse_escape t with
                 | Some (EChar x, rest) => Some (RLit x, rest, ng)
                 | Some (EClass k, rest) => Some (RSet false [IClass k], rest, ng)
                 | Some (EEnd, rest) => Some (REnd, rest, ng)
                 | None => None
                 end
               else if c =? ch "." then Some (RAny, t, ng)
               else if c =? ch "^" then Some (RBol, t, ng)
               else if (c =? ch "*") || (c =? ch "+") || (c =? ch "?")
                       || (c =? ch "{") || (c =? ch "$") then None
               else Some (RLit c, t, ng));
            '(a', s2) ← parse_quant a s1;
            '(b, alts, rest, ng') ← parse_re f s2 ng1;
            Some (mk_seq a' b, alts, rest, ng')
      end
  end.

(** [re.compile(pattern)]: the syntax tree and its number of groups. *)
Definition re_compile (pattern : string) : option (regex * nat) :=
  let s := raw pattern in
  '(b, alts, rest, ng) ← parse_re (S (length s)) s O;
  match rest with
  | [] => Some (mk_alt b alts, ng)
  | _ => None
  end.

(** ** Regular expressions: the backtracking matcher *)

(** A position in the subject: the character before it (for [^]), the text
    that is left, the index, and the spans of the groups closed so far. *)
Record mstate := {
  ms_prev : option N;
  ms_rest : pystr;
  ms_pos : nat;
  ms_caps : list (nat * (nat * nat))
}.

(** A match object: [m.start()], [m.end()] and the group spans. *)
Record mobj := {
  m_start : nat;
  m_end : nat;
  m_caps : list (nat * (nat * nat))
}.

Definition advance (st : mstate) (c : N) (t : pystr) : mstate :=
  {| ms_prev := Some c; ms_rest := t; ms_pos := S (ms_pos st); ms_caps := ms_caps st |}.

Definition set_cap (idx : nat) (b e : nat) (st : mstate) : mstate :=
  {| ms_prev := ms_prev st; ms_rest := ms_rest st; ms_pos := ms_pos st;
     ms_caps := (idx, (b, e)) :: ms_caps st |}.

Definition orelse {A} (x y : option A) : option A :=
  match x with
  | Some a => Some a
  | None => y
  end.

Section Matcher.
Context (U : unicode_db).

Definition isdigit (c : N) : bool :=
  if is_ascii c then ascii_isdigit c else uni_isdecimal U c.

(** [\w]: alphanumeric or underscore *)
Definition isword (c : N) : bool :=
  if is_ascii c then ascii_isalnum c || (c =? 95) else uni_isalnum U c.

Definition tolower (c : N) : N :=
  if is_ascii c then ascii_lower c else uni_tolower U c.

(** [str.lower()] *)
Definition lower (s : pystr) : pystr :=
  if forallb is_ascii s then map ascii_lower s else uni_strlower U s.

Definition in_class (k : cls) (c : N) : bool :=
  match k with
  | CDigit => isdigit c
  | CSpace => isspace c
  | CWord => isword c
  end.

Definition in_item (c : N) (i : citem) : bool :=
  match i with
  | IChar x => c =? x
  | IRange lo hi => (lo <=? c) && (c <=? hi)
  | IClass k => in_class k c
  end.

(** A literal under [re.IGNORECASE]: equal lower-case forms, or one of
    the two extra equivalents the compiler adds for an ASCII letter
    (dotless i for [i], long s for [s]).  Sets are matched as written: the
    sets of the patterns that the sources combine with IGNORECASE hold no
    cased character, and for those [re] compiles a plain set as well. *)
Definition lit_matches (fl : flags) (p c : N) : bool :=
  if IGNORECASE fl then
    (tolower c =? tolower p)
    || ((tolower p =? 105) && (c =? 305))
    || ((tolower p =? 115) && (c =? 383))
  else c =? p.

Definition at_bol (fl : flags) (st : mstate) : bool :=
  match ms_prev st with
  | None => true
  | Some c => MULTILINE fl && (c =? 10)
  end.

(** One character against a one-character pattern node. *)
Definition eat (st : mstate) (ok : N -> bool) (k : mstate -> option mstate)
  : option mstate :=
  match ms_rest st with
  | c :: t => if ok c then k (advance st c t) else None
  | [] => None
  end.

(** [rmatch fl r st k]: match [r] at [st] and hand every way of doing so
    to the continuation [k], in the order a backtracking engine tries
    them; the first success wins.  A repetition runs its mandatory
    iterations first; each further iteration has to consume input, so
    the subject's length bounds their number. *)
Fixpoint rmatch (fl : flags) (r : regex) (st : mstate)
    (k : mstate -> option mstate) {struct r} : option mstate :=
  match r with
  | REmpty => k st
  | RLit p => eat st (lit_matches fl p) k
  | RAny => eat st (fun c => DOTALL fl || negb (c =? 10)) k
  | RSet neg items => eat st (fun c => xorb neg (existsb (in_item c) items)) k
  | RSeq a b => rmatch fl a st (fun st' => rmatch fl b st' k)
  | RAlt a b => orelse (rmatch fl a st k) (rmatch fl b st k)
  | RRep greedy lo hi body =>
      let more :=
        fix more (fuel : nat) (budget : option nat) (st : mstate) : option mstate :=
          match fuel with
          | O => k st
          | S fuel' =>
              let again :=
                match budget with
                | Some O => None
                | _ =>
                    rmatch fl body st (fun st' =>
                      if bool_decide (ms_pos st' = ms_pos st) then None
                      else more fuel' (pred <$> budget) st')
                end in
              if greedy then orelse again (k st) else orelse (k st) again
          end in
      let must :=
        fix must (n : nat) (st : mstate) : option mstate :=
          match n with
          | O => more (S (length (ms_rest st))) ((fun h => h - lo)%nat <$> hi) st
          | S n' => rmatch fl body st (must n')
          end in
      must lo st
  | RGroup idx body =>
      rmatch fl body st (fun st' => k (set_cap idx (ms_pos st) (ms_pos st') st'))
  | RLook body =>
      match rmatch fl body st Some with
      | Some st' =>
          k {| ms_prev := ms_prev st; ms_rest := ms_rest st; ms_pos := ms_pos st;
               ms_caps := ms_caps st' |}
      | None => None
      end
  | RBol => if at_bol fl st then k st else None
  | REnd => match ms_rest st with [] => k st | _ => None end
  end.

(** One match attempt at a position.  With [must_advance] an empty match
    is refused and the engine backtracks for a longer one, as [re] does
    right after an empty match. *)
Definition match_here (fl : flags) (r : regex) (must_advance : bool)
    (prev : option N) (rest : pystr) (pos : nat) : option mobj :=
  let st := {| ms_prev := prev; ms_rest := rest; ms_pos := pos; ms_caps := [] |} in
  match rmatch fl r st (fun st' =>
          if must_advance && bool_decide (ms_pos st' = pos) then None else Some st') with
  | Some st' => Some {| m_start := pos; m_end := ms_pos st'; m_caps := ms_caps st' |}
  | None => None
  end.

(** The successive non-overlapping matches from a position on.  [skip]
    counts the characters still covered by the previous match. *)
Fixpoint scan (fl : flags) (r : regex) (prev : option N) (rest : pystr)
    (pos : nat) (skip : nat) : list mobj :=
  let next (n : nat) : list mobj :=
    match rest with
    | [] => []
    | c :: t => scan fl r (Some c) t (S pos) n
    end in
  match skip with
  | S n => next n
  | O =>
      match match_here fl r false prev rest pos with
      | None => next O
      | Some m =>
          if bool_decide (m_end m = pos) then
            m :: match match_here fl r true prev rest pos with
                 | None => next O
                 | Some m' => m' :: next (m_end m' - pos - 1)%nat
                 end
          else m :: next (m_end m - pos - 1)%nat
      end
  end.

(** [list(pattern.finditer(text))] *)
Definition finditer (fl : flags) (r : regex) (text : pystr) : list mobj :=
  scan fl r None text O O.

(** [pattern.search(text)] *)
Definition search (fl : flags) (r : regex) (text : pystr) : option mobj :=
  head (finditer fl r text).

(** [m.group(idx)]; a group that took no part in the match gives the
    empty string when a template expands it. *)
Definition group_text (text : pystr) (m : mobj) (idx : nat) : pystr :=
  match find (fun p => bool_decide (fst p = idx)) (m_caps m) with
  | Some (_, (b, e)) => slice text b e
  | None => []
  end.

(** The pieces of a replacement template: literal text and group
    references [\1] .. [\9]. *)
Inductive tpiece := TLit (c : N) | TGroup (idx : nat).

Fixpoint parse_template (ngroups : nat) (repl : pystr) : option (list tpiece) :=
  match repl with
  | [] => Some []
  | 92 :: d :: rest =>
      if ascii_isdigit d && negb (d =? 48) then
        let idx := N.to_nat (d - 48) in
        match rest with
        | d' :: _ => if ascii_isdigit d' then None else
            if bool_decide (idx ≤ ngroups)%nat
            then cons (TGroup idx) <$> parse_template ngroups rest else None
        | [] => if bool_decide (idx ≤ ngroups)%nat then Some [TGroup idx] else None
        end
      else None
  | 92 :: [] => None
  | c :: rest => cons (TLit c) <$> parse_template ngroups rest
  end.

Definition expand (text : pystr) (tpl : list tpiece) (m : mobj) : pystr :=
  flat_map (fun p => match p with
                     | TLit c => [c]
                     | TGroup idx => group_text text m idx
                     end) tpl.

(** The loop of [pattern.sub]: copy the text between the matches and put
    the expansion in place of each. *)
Fixpoint splice (text : pystr) (tpl : list tpiece) (i : nat) (ms : list mobj) : pystr :=
  match ms with
  | [] => drop i text
  | m :: rest => slice text i (m_start m) ++ expand text tpl m ++ splice text tpl (m_end m) rest
  end.

(** [re.sub(pattern, repl, text, flags=fl)] *)
Definition re_sub (pattern : string) (fl : flags) (repl text : pystr) : option pystr :=
  '(r, ng) ← re_compile pattern;
  tpl ← parse_template ng repl;
  Some (splice text tpl O (finditer fl r text)).

(** [re.split(pattern, text)] for a pattern without groups *)
Fixpoint split_at (text : pystr) (i : nat) (ms : list mobj) : list pystr :=
  match ms with
  | [] => [drop i text]
  | m :: rest => slice text i (m_start m) :: split_at text (m_end m) rest
  end.

Definition re_split (pattern : string) (text : pystr) : option (list pystr) :=
  '(r, ng) ← re_compile pattern;
  match ng with
  | O => Some (split_at text O (finditer no_flags r text))
  | S _ => None
  end.

(** [re.search(pattern, text, fl)] as a truth value *)
Definition re_search (pattern : string) (fl : flags) (text : pystr) : option bool :=
  '(r, _) ← re_compile pattern;
  Some (bool_decide (is_Some (search fl r text))).

(** [len(re.findall(pattern, text, fl))] *)
Definition re_count (pattern : string) (fl : flags) (text : pystr) : option nat :=
  '(r, _) ← re_compile pattern;
  Some (length (finditer fl r text)).

End Matcher.

(** ** clean_emails.py: rewrite rules

    Every stage of the cleaner is a straight line of [text = re.sub(...)]
    and [text = text.replace(...)] statements.  A stage is modelled as the
    list of its statements, in source order, run from left to right. *)

Inductive rule :=
| Sub (pattern : string) (fl : flags) (repl : pystr)
    (* text = re.sub(pattern, repl, text, flags=fl) *)
| Replace (old new : pystr)
    (* text = text.replace(old, new) *)
| KeepFirst (pattern : string) (fl : flags) (repl : pystr)
    (* ms = list(re.finditer(pattern, text, fl));
       if len(ms) > 1: for m in reversed(ms[1:]):
           text = text[:m.start()] + repl + text[m.end():] *)
| Strip.
    (* text = text.strip() *)

(** [text.replace(old, new)] for a non-empty [old]: the occurrences are
    found from the left and do not overlap. *)
Fixpoint replace_go (old new : pystr) (text : pystr) (skip : nat) : pystr :=
  match text with
  | [] => []
  | c :: t =>
      match skip with
      | S n => replace_go old new t n
      | O => if startswith old text
             then new ++ replace_go old new t (length old - 1)
             else c :: replace_go old new t O
      end
  end.

Definition str_replace (old new text : pystr) : pystr :=
  match old with
  | [] => text  (* not used by the sources with an empty needle *)
  | _ => replace_go old new text O
  end.

(** [needle in text] *)
Fixpoint contains (needle text : pystr) : bool :=
  startswith needle text ||
  match text with
  | [] => false
  | _ :: t => contains needle t
  end.

Section Cleaning.
Context (U : unicode_db).

Definition keep_first (fl : flags) (r : regex) (repl text : pystr) : pystr :=
  let matches := finditer U fl r text in
  if bool_decide (1 < length matches)%nat then
    foldl (fun t m => take (m_start m) t ++ repl ++ drop (m_end m) t)
          text (rev (tail matches))
  else text.

Definition run_rule (r : rule) (text : pystr) : option pystr :=
  match r with
  | Sub pattern fl repl => re_sub U pattern fl repl text
  | Replace old new => Some (str_replace old new text)
  | KeepFirst pattern fl repl =>
      '(re, _) ← re_compile pattern; Some (keep_first fl re repl text)
  | Strip => Some (strip text)
  end.

Fixpoint run_rules (rules : list rule) (text : pystr) : option pystr :=
  match rules with
  | [] => Some text
  | r :: rest => text' ← run_rule r text; run_rules rest text'
  end.

Definition clean_tracking_urls_rules : list rule := [
  Sub "https://urldefense\.com/v3/__([^_]+)__[^)}\s]*" no_flags (raw "\1");
  Sub "https://[a-zA-Z0-9-]+\.(?:na\d*|eu\d*)\.hubspotlinks\.com/[^\s)\]]+" no_flags [];
  Sub "https?://track\.editorialmanager\.com/[^\s)\]]+" no_flags [];
  Sub "!\[.*?\]\(https://[^)]*hubspot[^)]*\)" no_flags [];
  Sub "!\[\]\(http[^)]+\)" no_flags [];
  Sub "https://hs-\d+\.s\.hubspotemail\.net/[^\s)\]]+" no_flags [];
  Sub "https://hs-\d+\.f\.hubspotemail\.net/[^\s)\]]+" no_flags [];
  Sub "https://click\.enews\.united\.com/[^\s)\]]+" no_flags [];
  Sub "https://click\.o\.delta\.com/[^\s)\]]+" no_flags [];
  Sub "https://view\.o\.delta\.com/[^\s)\]]+" no_flags [];
  Sub "https://click\.[a-zA-Z0-9.-]+/[^\s)\]]*\?qs=[a-f0-9]{40,}[^\s)\]]*" no_flags [];
  Sub "https://view\.[a-zA-Z0-9.-]+/[^\s)\]]*\?qs=[a-f0-9]{40,}[^\s)\]]*" no_flags [];
  Sub "https?://[^\s]+[a-f0-9]{50,}[^\s]*" no_flags [];
  Sub "https?://[a-zA-Z0-9.-]*sendgrid[^\s)\]]+" no_flags [];
  Sub "https?://[a-zA-Z0-9.-]*mailchimp[^\s)\]]+" no_flags [];
  Sub "https?://[a-zA-Z0-9.-]*campaign-archive[^\s)\]]+" no_flags [];
  Sub "https?://links\.loyalty\.email\.ikea\.com/[^\s)\]]+" no_flags [];
  Sub "https?://[a-zA-Z0-9.-]*\.email\.[a-zA-Z0-9.-]+/[^\s)\]]*[a-zA-Z0-9_-]{30,}[^\s)\]]*" no_flags [];
  Sub "https?://[^\s]+/[a-zA-Z0-9_-]{40,}[~][^\s]*" no_flags [];
  Sub "https?://track\.wordsmarts\.com/[^\s)\]]+" no_flags [];
  Sub "https?://track\.recommendedreads\.com/[^\s)\]]+" no_flags [];
  Sub "https?://click\.mlsend\.com/[^\s)\]]+" no_flags [];
  Sub "https?://click\.hyatt\.com/[^\s)\]]+" no_flags [];
  Sub "https?://mailchi\.mp/[^\s)\]]+" no_flags [];
  Sub "https?://[a-zA-Z0-9.-]+\.list-manage\.com/[^\s)\]]+" no_flags [];
  Sub "https?://click\.[a-zA-Z0-9.-]+\.com/[^\s)\]]+" no_flags [];
  Sub "https?://track\.[a-zA-Z0-9.-]+\.com/[^\s)\]]+" no_flags [];
  Sub "https?://ctrk\.[a-zA-Z0-9.-]+\.com/[^\s)\]]+" no_flags [];
  Sub "(https://www\.linkedin\.com/comm/messaging/thread/[^?\s]+)\?[^\s)\]]+" no_flags (raw "\1");
  Sub "(https://www\.linkedin\.com/[^?\s]{1,50})\?[^\s)\]]{80,}" no_flags (raw "\1");
  Sub "https://nam\d+\.safelinks\.protection\.outlook\.com/[^\s)\]]+" no_flags (py "[link]")
].

Definition clean_tracking_urls (text : pystr) : option pystr :=
  run_rules clean_tracking_urls_rules text.

Definition clean_markdown_artifacts_rules : list rule := [
  Sub "!\[.*?\]\([^)]+\)" no_flags [];
  Sub "\[([^\]]+)\]\([^)]{80,}\)" no_flags (raw "\1");
  Sub "\[link\]" no_flags [];
  Sub "\[\s*\]\([^)]+\)" no_flags [];
  Sub "\(\s*\)" no_flags [];
  Replace (py "\\--") (py "--");
  Replace (py "\\[") (py "[");
  Replace (py "\\]") (py "]");
  Sub "^##\s+" re_M [];
  Sub "\[image: [^\]]+\]" no_flags (py "[Image]");
  Sub "!\[[^\]]*\]\(cid:[^)]+\)" no_flags (py "[Image]");
  Sub "\[cid:[^\]]+\]" no_flags (py "[Image]")
].

Definition clean_markdown_artifacts (text : pystr) : option pystr :=
  run_rules clean_markdown_artifacts_rules text.

Definition remove_attachment_metadata_rules : list rule := [
  Sub "Content-Type:\s*[^\n]+\nContent-Disposition:\s*[^\n]+\n(?:Content-Transfer-Encoding:\s*[^\n]+\n)?(?:Content-ID:\s*[^\n]+\n)?(?:X-Attachment-Id:\s*[^\n]+\n)?"
      no_flags (py "[Attachment]\n");
  Sub "X-Attachment-Id:\s*[^\n]+\n?" no_flags [];
  Sub "Content-ID:\s*<[^>]+>\n?" no_flags []
].

Definition remove_attachment_metadata (text : pystr) : option pystr :=
  run_rules remove_attachment_metadata_rules text.

Definition clean_html_tags_rules : list rule := [
  Sub "<a\s+[^>]*>([^<]*)</a>" re_I (raw "\1");
  Sub "<img\s+[^>]*/?>" re_I [];
  Sub "</?(?:div|span|p|br|table|tr|td|th|tbody|thead|b|i|strong|em|u|font|center|style|script)[^>]*/?>" re_I [];
  Sub "<[^>]+>" no_flags [];
  Sub "&#8209;" no_flags (py "-");
  Sub "&#8211;" no_flags (py "\u2013");
  Sub "&#8212;" no_flags (py "\u2014");
  Sub "&#8217;" no_flags (py "'");
  Sub "&#8220;" no_flags (py "\u0022");
  Sub "&#8221;" no_flags (py "\u0022");
  Sub "&#8230;" no_flags (py "...");
  Sub "&#\d+;" no_flags []
].

Definition clean_html_tags (text : pystr) : option pystr :=
  run_rules clean_html_tags_rules text.

Definition clean_signatures_rules : list rule := [
  KeepFirst "Gabriel Kreiman\s*\n(?:Professor\s*\n)?(?:Children\'s Hospital,?\s*)?(?:Harvard Medical School\s*\n)?(?:http://klab\.tch\.harvard\.edu/?\s*\n)?(?:https?://twitter\.com/gkreiman\s*\n)?(?:.*?Check out our new book.*?\n)?(?:.*?cambridge\.org.*?\n)?"
      re_I (py "\n-- Gabriel Kreiman\n")
].

Definition clean_signatures (text : pystr) : option pystr :=
  run_rules clean_signatures_rules text.

(** [re.search(r'^Message \d+', part.strip(), re.MULTILINE)] *)
Definition has_message_header (part : pystr) : option bool :=
  re_search U "^Message \d+" re_M (strip part).

Fixpoint filter_opt {A} (f : A -> option bool) (l : list A) : option (list A) :=
  match l with
  | [] => Some []
  | x :: rest =>
      b ← f x; rest' ← filter_opt f rest;
      Some (if b : bool then x :: rest' else rest')
  end.

Definition remove_duplicate_content (text : pystr) : option pystr :=
  parts ← re_split U "\n---\n" text;
  if bool_decide (length parts ≤ 1)%nat then Some text
  else
    message_parts ← filter_opt has_message_header parts;
    match message_parts with
    | _ :: _ => Some (join (py "\n\n") message_parts)
    | [] => Some (strip (hd [] parts))
    end.

Definition clean_boilerplate_rules : list rule := [
  KeepFirst "The information contained in this electronic message may be legally privileged.*?(?=\n\n|\n\*{3,}|\Z)" re_SI [];
  Sub "\n\*{3,}\n" no_flags (py "\n");
  KeepFirst "Please consider the environment before printing this e-mail" re_I [];
  Sub "_?Notice of confidentiality:.*?(?=\n\n|\Z)" re_SI [];
  Sub "In compliance with data protection regulations.*?(?=\n\n|\Z)" re_SI [];
  Sub ".*Unsubscribe.*\n?" re_I [];
  Sub ".*Manage preferences.*\n?" re_I [];
  Sub ".*Email preferences.*\n?" re_I [];
  Sub ".*Privacy policy.*\n?" re_I [];
  Sub ".*Contact us.*\|.*\n?" re_I [];
  Sub ".*View as a web page.*\n?" re_I [];
  Sub ".*Download the latest.*app.*\n?" re_I [];
  Sub "Forbes Councils,\s*\d+[^\n]+\n?" no_flags [];
  Sub "\(c\)\s*\d{4}\s+United Airlines.*?(?=\n\n|\Z)" re_S [];
  Sub "United Airlines,?\s+Inc\..*?(?=\n\n|\Z)" re_S [];
  Sub "We do not monitor electronic replies.*?\n" no_flags [];
  Sub "\(mailto:[^)]+\)" no_flags [];
  Sub "\(\[link\]\s*\)" no_flags [];
  Sub "\[link\]\s*\(\[link\]\s*\)" no_flags [];
  Sub "\[link\]\s*\n" no_flags (py "\n");
  Sub "\[link\]" no_flags [];
  Sub "\[image\]" no_flags [];
  Sub "\[Image\]" no_flags [];
  Sub "\n\s*[-*]{3,}\s*\n" no_flags (py "\n\n");
  Sub "\n\s*\* \* \*\s*\n" no_flags (py "\n\n");
  Replace (py "&reg;") (py "\u00ae");
  Replace (py "&nbsp;") (py " ");
  Replace (py "&rsaquo;") (py "\u203a");
  Replace (py "&lsaquo;") (py "\u2039");
  Replace (py "&rsquo;") (py "'");
  Replace (py "&lsquo;") (py "'");
  Replace (py "&rdquo;") (py "\u0022");
  Replace (py "&ldquo;") (py "\u0022");
  Replace (py "&amp;") (py "&");
  Replace (py "&lt;") (py "<");
  Replace (py "&gt;") (py ">");
  Replace (py "<sup>") [];
  Replace (py "</sup>") [];
  Replace (py "&trade;") (py "\u2122");
  Replace (py "&copy;") (py "\u00a9");
  Replace (py "&mdash;") (py "\u2014");
  Replace (py "&ndash;") (py "\u2013");
  Replace (py "&hellip;") (py "...");
  Replace (py "&bull;") (py "\u2022");
  Replace (py "&dagger;") (py "\u2020");
  Replace (py "&quot;") (py "\u0022");
  Replace (py "&apos;") (py "'");
  Replace (py "&game;") [];
  Replace (py "&lan;") [];
  Replace (py "&logout;") []
].

Definition clean_boilerplate (text : pystr) : option pystr :=
  run_rules clean_boilerplate_rules text.

(** In the two patterns after the invisible-character replacements the
    source has the character U+200C itself; it is written [\u200c]
    here, which [re] reads as the same character. *)
Definition clean_whitespace_rules : list rule := [
  Sub "\n{3,}" no_flags (py "\n\n");
  Sub "[ \t]+\n" no_flags (py "\n");
  Strip;
  Sub "\n\s*\[\.\.\.\]\s*\n" no_flags (py "\n");
  Sub "\n\s*\|?\s*\n" no_flags (py "\n");
  Sub "\n\|[^|a-zA-Z0-9]*\|?\n" no_flags (py "\n");
  Sub "\[\s*\]" no_flags [];
  Sub "\(\s*\)" no_flags [];
  Sub "[A-Za-z0-9+/=]{100,}" no_flags (py "[encoded content removed]");
  Sub "_{10,}" no_flags [];
  Sub "\]\(tel:[^)]+\)" no_flags [];
  Sub "\]\(\n[^)]*\)" no_flags [];
  Replace (py "\u200b") [];
  Replace (py "\u200c") [];
  Replace (py "\u200d") [];
  Replace (py "\u202f") (py " ");
  Replace (py "\u00ad") [];
  Replace (py "\ufeff") [];
  Sub "\n[\s\u200c\u200b\u200c]+\n" no_flags (py "\n");
  Sub "(\u200c\s*)+" no_flags [];
  Replace (py "\r\n") (py "\n");
  Replace (py "\r") (py "\n")
].

Definition clean_whitespace (text : pystr) : option pystr :=
  run_rules clean_whitespace_rules text.

(** [text.split(sep)] for a one-character separator *)
Fixpoint split_on (sep : N) (s : pystr) : list pystr :=
  match s with
  | [] => [[]]
  | c :: t =>
      if c =? sep then [] :: split_on sep t
      else match split_on sep t with
           | l :: ls => (c :: l) :: ls
           | [] => [[c]]
           end
  end.

(** The depth loop of [simplify_quoted_replies]: strip leading
    whitespace, and while the line starts with [>] count it, drop it and
    strip again. *)
Fixpoint quote_depth (line : pystr) : nat :=
  match line with
  | [] => O
  | c :: t =>
      if isspace c then quote_depth t
      else if c =? ch ">" then S (quote_depth t)
      else O
  end.

Fixpoint quoted_lines (lines : list pystr) (in_deep_quote : bool) : list pystr :=
  match lines with
  | [] => []
  | line :: rest =>
      if bool_decide (quote_depth line ≤ 1)%nat then line :: quoted_lines rest false
      else if negb in_deep_quote
           then py "[Previous messages truncated]" :: quoted_lines rest true
           else quoted_lines rest in_deep_quote
  end.

Definition simplify_quoted_replies (text : pystr) : pystr :=
  join (py "\n") (quoted_lines (split_on 10 text) false).

(** The pipeline, in the order of the source. *)
Definition clean_email_content (content : pystr) : option pystr :=
  text ← clean_tracking_urls content;
  text ← clean_html_tags text;
  text ← remove_attachment_metadata text;
  text ← clean_markdown_artifacts text;
  text ← remove_duplicate_content text;
  text ← clean_boilerplate text;
  text ← clean_signatures text;
  text ← Some (simplify_quoted_replies text);
  clean_whitespace text.

End Cleaning.

(** ** Records *)

(** One merged thread, the dict built by [prepare_data.py] and consumed by
    [select_350_emails.py]. *)
Record email := {
  thread_id : pystr;
  num_memories : Z;
  num_headlines : nat;
  headlines : pystr;
  topics : pystr;
  people : pystr;
  anchors : pystr;
  full_content : pystr;
  email_preview : pystr;
  personal_or_work : pystr;
  from : pystr;
  to : pystr;
  subject : pystr;
  time : pystr
}.

#[export] Instance email_eq_dec : EqDecision email.
Proof. solve_decision. Defined.

(** ** prepare_data.py: the record merger *)

(** A cell of a frame that [pandas.read_csv] returns: text, or NaN (a
    float) where the file has nothing between two commas. *)
Inductive cell := CText (s : pystr) | CNaN.

#[export] Instance cell_eq_dec : EqDecision cell.
Proof. solve_decision. Defined.

(** A cell of the numeric column [num_memories]: a finite number with its
    integer part (what [int] returns for it), NaN or an infinity. *)
Inductive num_cell := NumFinite (z : Z) | NumNaN | NumInf.

#[export] Instance num_cell_eq_dec : EqDecision num_cell.
Proof. solve_decision. Defined.

(** The exceptions that the loop over the rows can raise. *)
Inductive exn := AttributeError | ValueError | OverflowError | TypeError.

(** What a piece of the script does: it returns a value or raises. *)
Inductive outcome (A : Type) := Returns (a : A) | Raises (e : exn).
Arguments Returns {A} a.
Arguments Raises {A} e.

Definition returned {A} (o : outcome A) : option A :=
  match o with
  | Returns a => Some a
  | Raises _ => None
  end.

(** What [json.loads] makes of a text, as far as the loop looks at it:
    it raises, or it returns a value that has a length (a list, a string,
    an object), or one that has none (a number, [true], [false],
    [null]). *)
Inductive json_shape := JsonError | JsonSized (n : nat) | JsonUnsized.

(** A row of [threads_with_metadata.csv].  A column that the file lacks and
    that the loop reads through [row.get] behaves like a cell with the
    empty text. *)
Record meta_row := {
  row_thread_id : pystr;
  row_num_memories : num_cell;
  row_headlines : cell;
  row_topics : cell;
  row_people : cell;
  row_anchors : cell;
  row_personal_or_work : cell;
  row_email_preview : cell
}.

(** The dict that the loop builds for a row.  The cells it copies can be
    NaN. *)
Record merged := {
  out_thread_id : pystr;
  out_num_memories : Z;
  out_num_headlines : nat;
  out_headlines : cell;
  out_topics : cell;
  out_people : cell;
  out_anchors : cell;
  out_full_content : cell;
  out_email_preview : cell;
  out_personal_or_work : cell;
  out_from : pystr;
  out_to : pystr;
  out_subject : pystr;
  out_time : pystr
}.

Record header_lines := {
  from_line : pystr;
  to_line : pystr;
  subject_line : pystr;
  time_line : pystr
}.

Definition is_empty (s : pystr) : bool :=
  match s with
  | [] => true
  | _ :: _ => false
  end.

(** [line.replace(prefix, "").strip()] *)
Definition header_value (prefix line : pystr) : pystr :=
  strip (str_replace prefix [] line).

(** The body of the [for line in ...] loop: one [if]/[elif] chain. *)
Definition scan_line (h : header_lines) (line : pystr) : header_lines :=
  let line := strip line in
  if startswith (py "From:") line && is_empty (from_line h) then
    {| from_line := header_value (py "From:") line; to_line := to_line h;
       subject_line := subject_line h; time_line := time_line h |}
  else if startswith (py "To:") line && is_empty (to_line h) then
    {| from_line := from_line h; to_line := header_value (py "To:") line;
       subject_line := subject_line h; time_line := time_line h |}
  else if startswith (py "Subject:") line && is_empty (subject_line h) then
    {| from_line := from_line h; to_line := to_line h;
       subject_line := header_value (py "Subject:") line; time_line := time_line h |}
  else if startswith (py "Time:") line && is_empty (time_line h) then
    {| from_line := from_line h; to_line := to_line h;
       subject_line := subject_line h; time_line := header_value (py "Time:") line |}
  else h.

Definition no_headers : header_lines :=
  {| from_line := []; to_line := []; subject_line := []; time_line := [] |}.

(** [for line in content_for_parsing.split("\n")[:20]: ...] *)
Definition parse_headers (content_for_parsing : pystr) : header_lines :=
  foldl scan_line no_headers (take 20 (split_on 10 content_for_parsing)).

(** [bool(x)]: the empty text is false; NaN is a float other than zero,
    so it is true. *)
Definition truthy (x : cell) : bool :=
  match x with
  | CText s => negb (is_empty s)
  | CNaN => true
  end.

(** [x or d] *)
Definition cell_or (x : cell) (d : pystr) : cell :=
  if truthy x then x else CText d.

(** [int(x)] for a cell of a numeric column. *)
Definition int_of_cell (x : num_cell) : outcome Z :=
  match x with
  | NumFinite z => Returns z
  | NumNaN => Raises ValueError
  | NumInf => Raises OverflowError
  end.

(** [headlines_list] after the [try]/[except]: a NaN cell and a text that
    [json.loads] rejects both give the empty list. *)
Definition headlines_list (json_loads : pystr → json_shape) (x : cell) : json_shape :=
  match x with
  | CNaN => JsonSized O
  | CText s =>
      match json_loads s with
      | JsonError => JsonSized O
      | v => v
      end
  end.

(** [len(headlines_list)] *)
Definition len_of (v : json_shape) : outcome nat :=
  match v with
  | JsonSized n => Returns n
  | JsonError => Returns O
  | JsonUnsized => Raises TypeError
  end.

(** [content_for_parsing] *)
Definition content_for_parsing (full_content preview : cell) : cell :=
  if truthy full_content then full_content else cell_or preview [].

(** The body of the loop over the metadata rows, in the order in which
    Python evaluates it: [content_for_parsing.split] comes first and
    raises AttributeError on NaN; the dict is built after the header
    loop, [int(row["num_memories"])] before [len(headlines_list)].
    [json_loads] stands for [json.loads] of the standard library. *)
Definition merge_row (json_loads : pystr → json_shape)
    (content_map : gmap pystr cell) (row : meta_row) : outcome merged :=
  let thread_id := row_thread_id row in
  let full_content := default (CText []) (content_map !! thread_id) in
  let headlines_list := headlines_list json_loads (row_headlines row) in
  match content_for_parsing full_content (row_email_preview row) with
  | CNaN => Raises AttributeError
  | CText text =>
      let h := parse_headers text in
      match int_of_cell (row_num_memories row) with
      | Raises e => Raises e
      | Returns num_memories =>
          match len_of headlines_list with
          | Raises e => Raises e
          | Returns num_headlines =>
              Returns
                {| out_thread_id := thread_id;
                   out_num_memories := num_memories;
                   out_num_headlines := num_headlines;
                   out_headlines := row_headlines row;
                   out_topics := cell_or (row_topics row) [];
                   out_people := cell_or (row_people row) [];
                   out_anchors := cell_or (row_anchors row) [];
                   out_full_content := full_content;
                   out_email_preview := cell_or (row_email_preview row) [];
                   out_personal_or_work :=
                     cell_or (row_personal_or_work row) (py "unknown");
                   out_from := from_line h;
                   out_to := to_line h;
                   out_subject := subject_line h;
                   out_time := time_line h |}
          end
      end
  end.

(** [emails], as the loop leaves it (before the final sort): the first
    row that raises ends the script. *)
Fixpoint merge (json_loads : pystr → json_shape)
    (content_map : gmap pystr cell) (rows : list meta_row) : outcome (list merged) :=
  match rows with
  | [] => Returns []
  | row :: rest =>
      match merge_row json_loads content_map row with
      | Raises e => Raises e
      | Returns r =>
          match merge json_loads content_map rest with
          | Raises e => Raises e
          | Returns rs => Returns (r :: rs)
          end
      end
  end.

(** ** select_350_emails.py: the stratified sampler *)

Definition WORK_TARGETS : list (pystr * nat) :=
  [(py "1-msg", 100%nat); (py "2-msg", 60%nat); (py "3+msg", 40%nat)].

Definition PERSONAL_TARGETS : list (pystr * nat) :=
  [(py "1-msg", 75%nat); (py "2-msg", 45%nat); (py "3+msg", 30%nat)].

Definition MAX_PER_SENDER : nat := 10.

(** The compiled pattern [r'^Message \d+']. *)
Definition message_re : regex :=
  Eval vm_compute in default REmpty (fst <$> re_compile "^Message \d+").

(** The compiled pattern [r'[\w\.-]+@[\w\.-]+']. *)
Definition sender_re : regex :=
  Eval vm_compute in default REmpty (fst <$> re_compile "[\w\.-]+@[\w\.-]+").

(** [x[i], x[j] = x[j], x[i]].  An index out of range raises IndexError in
    Python; [random.shuffle] never produces one (see [shuffle_strict_ok]
    below), and [swap] leaves the list alone there. *)
Definition swap {A} (x : list A) (i j : nat) : list A :=
  match x !! i, x !! j with
  | Some a, Some b => <[j:=a]> (<[i:=b]> x)
  | _, _ => x
  end.

(** The same assignment with the IndexError made explicit. *)
Definition swap_strict {A} (x : list A) (i j : nat) : option (list A) :=
  match x !! i, x !! j with
  | Some a, Some b => Some (<[j:=a]> (<[i:=b]> x))
  | _, _ => None
  end.

Section Sampler.
Context (U : unicode_db).

(** The generator behind the [random] module: its state, [random.seed]
    and the [_randbelow] primitive that [random.shuffle] draws from. *)
Context {rng : Type} (seed : Z -> rng) (randbelow : rng -> nat -> nat * rng).

Definition count_messages (e : email) : nat :=
  length (finditer U re_M message_re (full_content e)).

Definition get_message_bucket (e : email) : pystr :=
  let msg_count := count_messages e in
  if bool_decide (msg_count = 1)%nat then py "1-msg"
  else if bool_decide (msg_count = 2)%nat then py "2-msg"
  else if bool_decide (3 ≤ msg_count)%nat then py "3+msg"
  else py "1-msg".

Definition extract_sender (e : email) : pystr :=
  let from_field := lower U (from e) in
  match search U no_flags sender_re from_field with
  | Some m => slice from_field (m_start m) (m_end m)
  | None => if is_empty from_field then py "unknown" else take 50 from_field
  end.

(** [random.shuffle]: [for i in reversed(range(1, len(x))):
    j = randbelow(i + 1); x[i], x[j] = x[j], x[i]] *)
Fixpoint shuffle_loop {A} (i : nat) (x : list A) (g : rng) : list A * rng :=
  match i with
  | O => (x, g)
  | S i' => let '(j, g') := randbelow g (S i) in
            shuffle_loop i' (swap x i j) g'
  end.

Definition shuffle {A} (x : list A) (g : rng) : list A * rng :=
  shuffle_loop (length x - 1) x g.

(** The loop of [random.shuffle] with [swap_strict]. *)
Fixpoint shuffle_loop_strict {A} (i : nat) (x : list A) (g : rng)
  : option (list A * rng) :=
  match i with
  | O => Some (x, g)
  | S i' => let '(j, g') := randbelow g (S i) in
            x' ← swap_strict x i j; shuffle_loop_strict i' x' g'
  end.

(** The [for email in shuffled] loop.  [global_sender_counts] is a
    [defaultdict(int)]: a sender that is absent counts as 0. *)
Fixpoint accept_loop (shuffled : list email) (target_count max_per_sender : nat)
    (selected : list email) (global_sender_counts : gmap pystr nat)
  : list email * gmap pystr nat :=
  match shuffled with
  | [] => (selected, global_sender_counts)
  | e :: rest =>
      if bool_decide (target_count ≤ length selected)%nat
      then (selected, global_sender_counts)
      else
        let sender := extract_sender e in
        if bool_decide (global_sender_counts !!! sender < max_per_sender)%nat then
          accept_loop rest target_count max_per_sender (selected ++ [e])
            (<[sender := (global_sender_counts !!! sender + 1)%nat]> global_sender_counts)
        else
          accept_loop rest target_count max_per_sender selected global_sender_counts
  end.

Definition sample_with_global_sender_cap (emails : list email)
    (target_count max_per_sender : nat) (global_sender_counts : gmap pystr nat)
    (g : rng) : list email * gmap pystr nat * rng :=
  let '(shuffled, g') := shuffle emails g in
  let '(selected, counts') :=
    accept_loop shuffled target_count max_per_sender [] global_sender_counts in
  (selected, counts', g').

(** The [for bucket, target in targets.items()] loop; the state is
    [selected], [shortfall], the sender counts and the generator. *)
Fixpoint bucket_loop (emails : list email) (targets : list (pystr * nat))
    (selected : list email) (shortfall : nat)
    (global_sender_counts : gmap pystr nat) (g : rng)
  : list email * nat * gmap pystr nat * rng :=
  match targets with
  | [] => (selected, shortfall, global_sender_counts, g)
  | (bucket, target) :: rest =>
      let bucket_emails :=
        filter (fun e => get_message_bucket e = bucket) emails in
      let '(sampled, counts', g') :=
        sample_with_global_sender_cap bucket_emails target MAX_PER_SENDER
          global_sender_counts g in
      let bucket_shortfall := (target - length sampled)%nat in
      bucket_loop emails rest (selected ++ sampled) (shortfall + bucket_shortfall)
        counts' g'
  end.

(** The 1-msg emails that are not selected yet. *)
Definition remaining_1msg (emails selected : list email) : list email :=
  filter (fun e => get_message_bucket e = py "1-msg"
                   ∧ thread_id e ∉ thread_id <$> selected) emails.

Definition select_emails_with_global_cap (emails : list email)
    (targets : list (pystr * nat)) (global_sender_counts : gmap pystr nat)
    (total_target : nat) (g : rng)
  : list email * gmap pystr nat * rng :=
  let '(selected, shortfall, counts, g1) :=
    bucket_loop emails targets [] O global_sender_counts g in
  if bool_decide (0 < shortfall)%nat then
    let '(additional, counts', g2) :=
      sample_with_global_sender_cap (remaining_1msg emails selected) shortfall
        MAX_PER_SENDER counts g1 in
    (selected ++ additional, counts', g2)
  else (selected, counts, g1).

(** The selection part of [main], from the pool that passed the ignore
    list, year and size filters.  [g0] is the state of the generator
    before [random.seed(42)]. *)
Definition main (g0 : rng) (filtered_2025 : list email) : list email :=
  let g := seed 42 in
  let work_emails :=
    filter (fun e => personal_or_work e = py "work") filtered_2025 in
  let personal_emails :=
    filter (fun e => personal_or_work e = py "personal") filtered_2025 in
  let global_sender_counts : gmap pystr nat := ∅ in
  let '(selected_work, counts, g1) :=
    select_emails_with_global_cap work_emails WORK_TARGETS
      global_sender_counts 200 g in
  let '(selected_personal, _, _) :=
    select_emails_with_global_cap personal_emails PERSONAL_TARGETS
      counts 150 g1 in
  selected_work ++ selected_personal.

(** How many records of [l] have the sender key [s]. *)
Definition sender_count (s : pystr) (l : list email) : nat :=
length (filter (fun e => extract_sender e = s) l).

End Sampler.

(** ** Predicates used by the statements *)

(** A rule's pattern compiles and its template refers to groups that
    exist: [re.sub] raises for no text. *)
Definition rule_ok (r : rule) : bool :=
  match r with
  | Sub pattern _ repl =>
      match re_compile pattern with
      | Some (_, ng) => bool_decide (is_Some (parse_template ng repl))
      | None => false
      end
  | KeepFirst pattern _ _ => bool_decide (is_Some (re_compile pattern))
  | Replace old _ => negb (is_empty old)
  | Strip => true
  end.

(** No white space at either end. *)
Definition no_outer_space (text : pystr) : bool :=
  match text with
  | [] => true
  | c :: _ => negb (isspace c)
  end
  && match rev text with
     | [] => true
     | c :: _ => negb (isspace c)
     end.

Section Shapes.
Context (U : unicode_db).

(** The shape a rule looks for is absent from [text]: its pattern
    matches nowhere (for the keep-first rules: at most once), its needle
    does not occur, there is nothing to strip. *)
Definition rule_inert (r : rule) (text : pystr) : bool :=
  match r with
  | Sub pattern fl _ =>
      match re_compile pattern with
      | Some (re, _) => bool_decide (finditer U fl re text = [])
      | None => false
      end
  | KeepFirst pattern fl _ =>
      match re_compile pattern with
      | Some (re, _) => bool_decide (length (finditer U fl re text) ≤ 1)%nat
      | None => false
      end
  | Replace old _ => negb (contains old text)
  | Strip => no_outer_space text
  end.

Definition stage_inert (rules : list rule) (text : pystr) : bool :=
  forallb (fun r => rule_inert r text) rules.

(** No thread separator: [re.split] returns the text as its only part. *)
Definition no_separator (text : pystr) : bool :=
  bool_decide (re_split U "\n---\n" text = Some [text]).

(** No line is quoted two levels deep or more. *)
Definition no_deep_quote (text : pystr) : bool :=
  forallb (fun line => bool_decide (quote_depth line ≤ 1)%nat) (split_on 10 text).


End Shapes.



(** A segment that begins with a [Message N] header. *)
Definition begins_with_header (part : pystr) : Prop :=
  ∃ d rest, part = py "Message " ++ d :: rest ∧ ascii_isdigit d = true.

(** The value of the first line that starts with [prefix] and whose value
    is not empty; the empty string when there is none. *)
Definition first_value (prefix : pystr) (lines : list pystr) : pystr :=
  match find (fun l => startswith prefix l && negb (is_empty (header_value prefix l))) lines with
  | Some l => header_value prefix l
  | None => []
  end.

(** Follows the specification's words, "first matching line per field
    wins": the value of the first line that starts with [prefix]. *)
Definition first_matching_line_value (prefix : pystr) (lines : list pystr) : pystr :=
  match find (startswith prefix) lines with
  | Some l => header_value prefix l
  | None => []
  end.

(** The lines the merger scans: the first 20, each stripped. *)
Definition scanned_lines (content_for_parsing : pystr) : list pystr :=
  strip <$> take 20 (split_on 10 content_for_parsing).

Definition sum_targets (targets : list (pystr * nat)) : nat :=
  foldr (fun bt acc => (bt.2 + acc)%nat) O targets.

(** ** Concrete instances, for evaluating the model *)

(** A database that knows nothing beyond ASCII. *)
Definition plain_db : unicode_db :=
  {| uni_isdecimal := fun _ => false;
     uni_isalnum := fun _ => false;
     uni_tolower := fun c => c;
     uni_strlower := fun s => s |}.

(** A small linear congruential generator. *)
Definition lcg_seed (n : Z) : nat := Z.to_nat n.
Definition lcg_randbelow (g n : nat) : nat * nat :=
  ((g `mod` n)%nat, ((g * 13 + 7) `mod` 256)%nat).

(** A second generator that draws the same numbers as [lcg_randbelow] and
    also counts its draws. *)
Definition lcg_counting_seed (n : Z) : nat * nat := (Z.to_nat n, O).
Definition lcg_counting_randbelow (g : nat * nat) (n : nat) : nat * (nat * nat) :=
  ((g.1 `mod` n)%nat, (((g.1 * 13 + 7) `mod` 256)%nat, S g.2)).

Definition mk_email (id sender content category : string) : email :=
  {| thread_id := py id; num_memories := 1; num_headlines := O; headlines := [];
     topics := [];
     people := []; anchors := []; full_content := py content;
     email_preview := []; personal_or_work := py category; from := py sender;
     to := []; subject := []; time := py "2025-01-01" |}.

Definition sample_pool : list email :=
  [mk_email "t1" "Alice <Alice@X.org>" "Message 1\nhello" "work";
   mk_email "t2" "" "Message 1\nhi\n---\nMessage 2\nyo" "work";
   mk_email "t3" "Bob" "no header" "personal";
   mk_email "t4" "alice@x.org" "Message 1\nagain" "work";
   mk_email "t5" "" "Message 1\na\nMessage 2\nb\nMessage 3\nc" "personal"].

(** A target table under which the work records of [sample_pool] need the
    backfill. *)
Definition backfill_targets : list (pystr * nat) :=
  [(py "1-msg", 1%nat); (py "2-msg", 2%nat)].

Definition thread_parts : list pystr :=
  [py "A"; py "Message 1\nfoo"; py "Message 2\nbar"].

Definition thread_text : pystr := join (py "\n---\n") thread_parts.

(** A row without content whose preview has two 'From:' lines, the first
    with an empty value. *)
Definition two_from_row : meta_row :=
  {| row_thread_id := py "t9"; row_num_memories := NumFinite 1;
     row_headlines := CNaN; row_topics := CNaN; row_people := CNaN;
     row_anchors := CNaN; row_personal_or_work := CText (py "work");
     row_email_preview := CText (py "From:\nFrom: bob@example.org") |}.

(** The same row with nothing in its preview cell. *)
Definition no_preview_row : meta_row :=
  {| row_thread_id := py "t9"; row_num_memories := NumFinite 1;
     row_headlines := CNaN; row_topics := CNaN; row_people := CNaN;
     row_anchors := CNaN; row_personal_or_work := CText (py "work");
     row_email_preview := CNaN |}.

(** Rows with 2, 5 and 2 memories; only the second has content. *)
Definition three_rows : list meta_row :=
  [{| row_thread_id := py "a"; row_num_memories := NumFinite 2;
      row_headlines := CText (py "[]"); row_topics := CNaN; row_people := CNaN;
      row_anchors := CNaN; row_personal_or_work := CNaN;
      row_email_preview := CText (py "From: x@y.org\nhello") |};
   {| row_thread_id := py "b"; row_num_memories := NumFinite 5;
      row_headlines := CNaN; row_topics := CText (py "t"); row_people := CNaN;
      row_anchors := CNaN; row_personal_or_work := CText (py "work");
      row_email_preview := CNaN |};
   {| row_thread_id := py "c"; row_num_memories := NumFinite 2;
      row_headlines := CText (py "[1]"); row_topics := CNaN; row_people := CNaN;
      row_anchors := CNaN; row_personal_or_work := CText (py "personal");
      row_email_preview := CText (py "Subject:  hi ") |}].

Definition three_rows_content : gmap pystr cell :=
  {[ py "b" := CText (py "From: b@z.org\nTo: c@z.org\nbody") ]}.

(** ** The rest of the three scripts

    The parts of [select_350_emails.py], [prepare_data.py] and
    [clean_emails.py] around the functions above: the ignore list, the
    year and size filters of [main], the final sort of the merger and the
    loop that cleans every record. *)

Definition MAX_CHARS : N := 20000.

(** The C library's [isspace] on ASCII, which [int] uses around a number. *)
Definition c_isspace (c : N) : bool := ((9 <=? c) && (c <=? 13)) || (c =? 32).

Fixpoint skip_spaces (s : pystr) : pystr :=
  match s with
  | [] => []
  | c :: t => if c_isspace c then skip_spaces t else s
  end.

(** The digits of a decimal literal: single underscores may separate
    digits; the scan stops at the first other character. *)
Fixpoint int_digits (s : pystr) (prev_underscore : bool) (acc : Z) : option (Z * pystr) :=
  match s with
  | [] => if prev_underscore then None else Some (acc, [])
  | c :: t =>
      if ascii_isdigit c then int_digits t false (acc * 10 + Z.of_N (c - 48))
      else if c =? 95 then
        if prev_underscore then None else int_digits t true acc
      else if prev_underscore then None else Some (acc, s)
  end.

(** The sort key of the merger: [lambda x: -x["num_memories"]]. *)
Definition sort_key (e : merged) : Z := - out_num_memories e.

(** [list.sort(key=...)] is stable, so its result is the one that stable
    insertion gives. *)
Fixpoint insert_by_key (x : merged) (l : list merged) : list merged :=
  match l with
  | [] => [x]
  | y :: l' => if (sort_key x <=? sort_key y)%Z then x :: l
               else y :: insert_by_key x l'
  end.

Fixpoint sort_by_key (l : list merged) : list merged :=
  match l with
  | [] => []
  | x :: l' => insert_by_key x (sort_by_key l')
  end.

(** [emails], as [prepare_data.py] writes it to [emails.json]. *)
Definition emails_json (json_loads : pystr → json_shape)
    (content_map : gmap pystr cell) (rows : list meta_row) : outcome (list merged) :=
  match merge json_loads content_map rows with
  | Returns emails => Returns (sort_by_key emails)
  | Raises e => Raises e
  end.

(** The [matched] counter of the merge loop. *)
Definition matched (content_map : gmap pystr cell) (rows : list meta_row) : nat :=
  length (filter (λ row, truthy (default (CText []) (content_map !! row_thread_id row))
                         = true) rows).

(** [email['full_content'] = c] *)
Definition set_full_content (e : email) (c : pystr) : email :=
  {| thread_id := thread_id e; num_memories := num_memories e;
     num_headlines := num_headlines e; headlines := headlines e;
     topics := topics e; people := people e; anchors := anchors e;
     full_content := c; email_preview := email_preview e;
     personal_or_work := personal_or_work e; from := from e; to := to e;
     subject := subject e; time := time e |}.

(** The parsed [ignore_list.json]: each of the three keys may be absent. *)
Record ignore_json := {
  json_ignored_senders : option (list pystr);
  json_ignored_domains : option (list pystr);
  json_ignored_subject_patterns : option (list pystr)
}.

Section Scripts.
Context (U : unicode_db).

(** The decimal value of a digit outside ASCII, from the interpreter's
    Unicode database ([int] accepts such digits). *)
Context (uni_todecimal : N → option N).

Context {rng : Type} (seed : Z → rng) (randbelow : rng → nat → nat * rng).

(** How many records of [l] are in the bucket [b]. *)
Definition bucket_count (b : pystr) (l : list email) : nat :=
  length (filter (λ e, get_message_bucket U e = b) l).

(** What [int] does to a [str] before it reads the number: white space
    and digits outside ASCII become a blank and the ASCII digit; any other
    character outside ASCII ends the text with a question mark. *)
Fixpoint int_transform (s : pystr) : pystr :=
  match s with
  | [] => []
  | c :: t =>
      if c <? 127 then c :: int_transform t
      else if isspace c then 32 :: int_transform t
      else match (if is_ascii c then None else uni_todecimal c) with
           | Some d => (48 + d) :: int_transform t
           | None => [63]
           end
  end.

(** [int(s)] for a [str]; [None] stands for ValueError. *)
Definition py_int (s : pystr) : option Z :=
  let s := skip_spaces (int_transform s) in
  let '(negative, s) :=
    match s with
    | 45 :: t => (true, t)
    | 43 :: t => (false, t)
    | _ => (false, s)
    end in
  match s with
  | c :: _ =>
      if ascii_isdigit c then
        '(v, rest) ← int_digits s false 0;
        match skip_spaces rest with
        | [] => Some (if negative : bool then (- v)%Z else v)
        | _ :: _ => None
        end
      else None
  | [] => None
  end.

Definition get_year (e : email) : option Z :=
  let time_str := time e in
  if negb (is_empty time_str) then py_int (take 4 time_str) else None.

Definition load_ignore_list (ignore_list : ignore_json)
  : gset pystr * gset pystr * list pystr :=
  let ignored_senders : gset pystr :=
    list_to_set (lower U <$> default [] (json_ignored_senders ignore_list)) in
  let ignored_domains : gset pystr :=
    list_to_set (lower U <$> default [] (json_ignored_domains ignore_list)) in
  let ignored_patterns :=
    lower U <$> default [] (json_ignored_subject_patterns ignore_list) in
  (ignored_senders, ignored_domains, ignored_patterns).

(** The three loops return [True] at the first hit, so the result is
    whether some entry hits; the order in which a set is walked does not
    matter. *)
Definition is_ignored (e : email) (ignored_senders ignored_domains : gset pystr)
    (ignored_patterns : list pystr) : bool :=
  let from_line := lower U (from e) in
  let to_line := lower U (to e) in
  let subject := lower U (subject e) in
  let headlines := lower U (headlines e) in
  let full_content := lower U (full_content e) in
  existsb (λ sender, contains sender from_line || contains sender to_line)
    (elements ignored_senders)
  || existsb (λ domain, contains domain from_line || contains domain to_line)
       (elements ignored_domains)
  || existsb (λ pattern, contains pattern subject || contains pattern headlines
                         || contains pattern full_content)
       ignored_patterns.

(** The three list comprehensions of [main] that come before the split
    into categories. *)
Definition filter_pool (emails : list email)
    (ignored_senders ignored_domains : gset pystr) (ignored_patterns : list pystr)
  : list email :=
  let filtered :=
    filter (λ e, is_ignored e ignored_senders ignored_domains ignored_patterns = false)
      emails in
  let filtered_2025 := filter (λ e, get_year e = Some 2025%Z) filtered in
  filter (λ e, (N.of_nat (length (full_content e)) ≤ MAX_CHARS)%N) filtered_2025.

(** [main] from the loaded records and ignore list to [all_selected]. *)
Definition main_with_filters (g0 : rng) (emails : list email)
    (ignore_list : ignore_json) : list email :=
  let '(ignored_senders, ignored_domains, ignored_patterns) :=
    load_ignore_list ignore_list in
  main U seed randbelow g0
    (filter_pool emails ignored_senders ignored_domains ignored_patterns).

(** The loop of [clean_emails.py]'s [main]: every record has the key
    'full_content'. *)
Definition clean_all (emails : list email) : option (list email) :=
  mapM (λ e, c ← clean_email_content U (full_content e);
             Some (set_full_content e c)) emails.

End Scripts.

(** An ignore list without the key 'ignored_domains' and with an empty
    string among its subject patterns. *)
Definition sample_ignore_json : ignore_json :=
  {| json_ignored_senders := Some [py "spam@x.org"];
     json_ignored_domains := None;
     json_ignored_subject_patterns := Some [py "sale"; []] |}.

(** Twenty lines, the first of them a header. *)
Definition header_lines_20 : list pystr :=
  py "From: a@x.org" :: replicate 19 (py "filler").

(** ** Auxiliary definitions for the facts about the two patterns of the
    sampler and about [int] *)

(** The two loops of the matcher's repetition, for a body that is a
    one-character test [ok]. *)
Definition set_more (greedy : bool) (ok : N → bool) (k : mstate → option mstate)
  : nat → option nat → mstate → option mstate :=
  fix more (fuel : nat) (budget : option nat) (st : mstate) : option mstate :=
    match fuel with
    | O => k st
    | S fuel' =>
        let again :=
          match budget with
          | Some O => None
          | _ => eat st ok (λ st', if bool_decide (ms_pos st' = ms_pos st) then None
                                    else more fuel' (pred <$> budget) st')
          end in
        if greedy then orelse again (k st) else orelse (k st) again
    end.

Definition set_must (greedy : bool) (ok : N → bool) (k : mstate → option mstate)
    (lo : nat) (hi : option nat) : nat → mstate → option mstate :=
  fix must (n : nat) (st : mstate) : option mstate :=
    match n with
    | O => set_more greedy ok k (S (length (ms_rest st))) ((λ h, h - lo)%nat <$> hi) st
    | S n' => eat st ok (must n')
    end.

(** A state reached from [st] by consuming [consumed]. *)
Definition consumes (st : mstate) (consumed : pystr) (st' : mstate) : Prop :=
  ms_rest st = consumed ++ ms_rest st'
  ∧ ms_pos st' = (ms_pos st + length consumed)%nat.

(** [^] under MULTILINE, from the character before the position. *)
Definition bol (prev : option N) : bool :=
  match prev with
  | None => true
  | Some c => c =? 10
  end.

(** A line that begins with [Message ] and a digit. *)
Definition is_message_line (U : unicode_db) (line : pystr) : bool :=
  startswith (py "Message ") line
  && match drop 8 line with
     | d :: _ => isdigit U d
     | [] => false
     end.

(** The header lines of a text, counted from a position: [b] tells
    whether the position is at the beginning of a line. *)
Fixpoint count_from (U : unicode_db) (b : bool) (rest : pystr) : nat :=
  ((if b && is_message_line U rest then 1 else 0)
   + match rest with
     | [] => 0
     | c :: t => count_from U (c =? 10)%N t
     end)%nat.

(** The characters of the set [[\w\.-]]. *)
Definition sender_char (U : unicode_db) (c : N) : bool :=
  isword U c || (c =? 46) || (c =? 45).

(** How many ASCII digits a text holds. *)
Definition digit_count (s : pystr) : nat :=
  length (filter (λ c, ascii_isdigit c = true) s).

(** ** Static facts about a pattern, for subjects in ASCII *)






























(** * Properties *)

(** ** The sampler *)

Ltac open_main := unfold main.
Ltac open_select := unfold select_emails_with_global_cap.
Ltac open_sample := unfold sample_with_global_sender_cap.
Ltac open_bucket_loop := cbn [bucket_loop].
Ltac open_remaining := unfold remaining_1msg.
Ltac open_extract_sender := unfold extract_sender.

Section SamplerFacts.
Context (U : unicode_db).
Context {rng : Type} (seed : Z -> rng) (randbelow : rng -> nat -> nat * rng).

Local Abbreviation extract_sender := (extract_sender U).
Local Abbreviation sender_count := (sender_count U).
Local Abbreviation get_message_bucket := (get_message_bucket U).
Local Abbreviation shuffle := (shuffle randbelow).
Local Abbreviation accept_loop := (accept_loop U).
Local Abbreviation sample_with_global_sender_cap := (sample_with_global_sender_cap U randbelow).
Local Abbreviation bucket_loop := (bucket_loop U randbelow).
Local Abbreviation remaining_1msg := (remaining_1msg U).
Local Abbreviation select_emails_with_global_cap := (select_emails_with_global_cap U randbelow).
Local Abbreviation main := (main U seed randbelow).

Lemma swap_perm {A} (x : list A) (i j : nat) : swap x i j ≡ₚ x.
Proof.
  unfold swap.
  destruct (x !! i) as [a|] eqn:Hi; [|done].
  destruct (x !! j) as [b|] eqn:Hj; [|done].
  by apply Permutation_insert_swap.
Qed.

Lemma shuffle_loop_perm {A} (i : nat) (x : list A) (g : rng) :
  (shuffle_loop randbelow i x g).1 ≡ₚ x.
Proof.
  revert x g. induction i as [|i IH]; intros x g; simpl; [done|].
  destruct (randbelow g (S (S i))) as [j g'].
  rewrite IH. apply swap_perm.
Qed.

Lemma shuffle_perm {A} (x : list A) (g : rng) : (shuffle x g).1 ≡ₚ x.
Proof. apply shuffle_loop_perm. Qed.

Lemma swap_length {A} (x : list A) (i j : nat) : length (swap x i j) = length x.
Proof.
  unfold swap. destruct (x !! i); [|done]. destruct (x !! j); [|done].
  by rewrite !length_insert.
Qed.

(** With a generator that keeps its contract, [randbelow(n) < n], no swap
    of the shuffle is out of range: the strict loop raises nothing and
    agrees with [shuffle_loop]. *)
Lemma shuffle_strict_ok {A} (i : nat) (x : list A) (g : rng) :
  (∀ g n, (0 < n)%nat → ((randbelow g n).1 < n)%nat) →
  (i < length x)%nat →
  shuffle_loop_strict randbelow i x g = Some (shuffle_loop randbelow i x g).
Proof.
  intros Hrb. revert x g. induction i as [|i IH]; intros x g Hi; simpl; [done|].
  pose proof (Hrb g (S (S i)) ltac:(lia)) as Hj.
  destruct (randbelow g (S (S i))) as [j g']. simpl in Hj.
  destruct (lookup_lt_is_Some_2 x (S i) Hi) as [a Ha].
  destruct (lookup_lt_is_Some_2 x j ltac:(lia)) as [b Hb].
  unfold swap_strict. rewrite Ha, Hb. cbn [mbind option_bind].
  replace (<[j:=a]> (<[S i:=b]> x)) with (swap x (S i) j)
    by (unfold swap; by rewrite Ha, Hb).
  apply IH. rewrite swap_length. lia.
Qed.

Lemma sender_count_nil (s : pystr) : sender_count s [] = 0%nat.
Proof. done. Qed.

Lemma sender_count_cons (s : pystr) (e : email) (l : list email) :
  sender_count s (e :: l)
  = ((if decide (extract_sender e = s) then 1 else 0) + sender_count s l)%nat.
Proof.
  unfold sender_count. rewrite filter_cons.
  destruct (decide (extract_sender e = s)); done.
Qed.

Lemma sender_count_app (s : pystr) (l k : list email) :
  sender_count s (l ++ k) = (sender_count s l + sender_count s k)%nat.
Proof. unfold sender_count. by rewrite filter_app, length_app. Qed.

Lemma sender_count_le_length (s : pystr) (l : list email) :
  (sender_count s l ≤ length l)%nat.
Proof. unfold sender_count. apply length_filter. Qed.

(** What one run of the acceptance loop does to its state. *)
Lemma accept_loop_spec (shuffled : list email) (t m : nat) (sel0 : list email)
    (c0 : gmap pystr nat) :
  ∃ acc,
    (accept_loop shuffled t m sel0 c0).1 = sel0 ++ acc
    ∧ acc `sublist_of` shuffled
    ∧ (length sel0 ≤ t → length (sel0 ++ acc) ≤ t)%nat
    ∧ (∀ s, (accept_loop shuffled t m sel0 c0).2 !!! s
            = (c0 !!! s + sender_count s acc)%nat)
    ∧ (∀ s, (c0 !!! s ≤ m)%nat → ((accept_loop shuffled t m sel0 c0).2 !!! s ≤ m)%nat).
Proof.
  revert sel0 c0. induction shuffled as [|e rest IH]; intros sel0 c0; simpl.
  { exists []. rewrite app_nil_r. split_and!; [done|done|done| |done].
    intros s. rewrite sender_count_nil. lia. }
  case_bool_decide as Hfull.
  { exists []. rewrite app_nil_r. split_and!; [done|apply sublist_nil_l|done| |done].
    intros s. rewrite sender_count_nil. simpl. lia. }
  case_bool_decide as Hcap.
  - destruct (IH (sel0 ++ [e])
               (<[extract_sender e := (c0 !!! extract_sender e + 1)%nat]> c0))
      as (acc & Hsel & Hsub & Hlen & Hcnt & Hmax).
    exists (e :: acc). split_and!.
    + by rewrite Hsel, <- app_assoc.
    + by apply sublist_skip.
    + intros _.
      replace (sel0 ++ e :: acc) with ((sel0 ++ [e]) ++ acc) by (by rewrite <- app_assoc).
      apply Hlen. rewrite length_app. simpl. lia.
    + intros s. rewrite Hcnt, sender_count_cons.
      destruct (decide (extract_sender e = s)) as [->|Hne].
      * rewrite lookup_total_insert_eq. lia.
      * rewrite lookup_total_insert_ne by done. lia.
    + intros s Hs. apply Hmax.
      destruct (decide (extract_sender e = s)) as [Heq|Hne].
      * rewrite <- Heq, lookup_total_insert_eq. lia.
      * by rewrite lookup_total_insert_ne.
  - destruct (IH sel0 c0) as (acc & Hsel & Hsub & Hlen & Hcnt & Hmax).
    exists acc. split_and!; [done|by apply sublist_cons|done|done|done].
Qed.

(** One sampling call: at most [t] records, all drawn from [emails]
    without repetition of positions, each accepted record counted once. *)
Lemma sample_spec (emails : list email) (t m : nat) (c0 : gmap pystr nat) (g : rng) :
  (length (sample_with_global_sender_cap emails t m c0 g).1.1 ≤ t)%nat
  ∧ (sample_with_global_sender_cap emails t m c0 g).1.1 ⊆+ emails
  ∧ (∀ s, (sample_with_global_sender_cap emails t m c0 g).1.2 !!! s
          = (c0 !!! s + sender_count s (sample_with_global_sender_cap emails t m c0 g).1.1)%nat)
  ∧ (∀ s, (c0 !!! s ≤ m)%nat →
          ((sample_with_global_sender_cap emails t m c0 g).1.2 !!! s ≤ m)%nat).
Proof.
  open_sample.
  pose proof (shuffle_perm emails g) as Hperm.
  destruct (shuffle emails g) as [shuffled g']. simpl in Hperm.
  destruct (accept_loop_spec shuffled t m [] c0) as (acc & Hsel & Hsub & Hlen & Hcnt & Hmax).
  destruct (accept_loop shuffled t m [] c0) as [selected counts']. simpl in *.
  subst selected. split_and!; [|by rewrite <- Hperm; apply sublist_submseteq|done|done].
  apply Hlen. lia.
Qed.

Lemma submseteq_NoDup {A} (l k : list A) : l ⊆+ k → NoDup k → NoDup l.
Proof.
  intros Hsub Hk. apply submseteq_Permutation in Hsub as [k' Hk'].
  rewrite Hk' in Hk. by apply NoDup_app in Hk as (? & _ & _).
Qed.

Lemma sum_targets_cons (bucket : pystr) (target : nat) (rest : list (pystr * nat)) :
  sum_targets ((bucket, target) :: rest) = (target + sum_targets rest)%nat.
Proof. done. Qed.

(** The per-bucket passes: what they add to [selected], to [shortfall] and
    to the sender counts. *)
Lemma bucket_loop_spec (emails : list email) (targets : list (pystr * nat))
    (sel : list email) (sf : nat) (c : gmap pystr nat) (g : rng) :
  ∃ added,
    (bucket_loop emails targets sel sf c g).1.1.1 = sel ++ added
    ∧ ((bucket_loop emails targets sel sf c g).1.1.2 + length added
       = sf + sum_targets targets)%nat
    ∧ (∀ e, e ∈ added → e ∈ emails ∧ get_message_bucket e ∈ targets.*1)
    ∧ (NoDup emails → NoDup targets.*1 → NoDup added)
    ∧ (∀ s, (bucket_loop emails targets sel sf c g).1.2 !!! s
            = (c !!! s + sender_count s added)%nat)
    ∧ (∀ s, (c !!! s ≤ MAX_PER_SENDER)%nat →
            ((bucket_loop emails targets sel sf c g).1.2 !!! s ≤ MAX_PER_SENDER)%nat).
Proof.
  revert sel sf c g.
  induction targets as [|[bucket target] rest IH]; intros sel sf c g.
  { exists []. simpl. rewrite app_nil_r.
    split_and!; [done|unfold sum_targets; simpl; lia| | | |done].
    - intros e He. by apply elem_of_nil in He.
    - intros _ _. constructor.
    - intros s. rewrite sender_count_nil. lia. }
  open_bucket_loop.
  pose proof (sample_spec (filter (λ e, get_message_bucket e = bucket) emails)
                target MAX_PER_SENDER c g) as (Hlen & Hsub & Hcnt & Hmax).
  destruct (sample_with_global_sender_cap _ target MAX_PER_SENDER c g)
    as [[sampled c'] g']. simpl in Hlen, Hsub, Hcnt, Hmax.
  destruct (IH (sel ++ sampled) (sf + (target - length sampled))%nat c' g')
    as (added & Hsel & Hsf & Hin & Hnd & Hcnt' & Hmax').
  exists (sampled ++ added). split_and!.
  - by rewrite Hsel, <- app_assoc.
  - rewrite sum_targets_cons, length_app. lia.
  - intros e [He|He]%elem_of_app.
    + apply (elem_of_submseteq _ _ _ He) in Hsub.
      apply list_elem_of_filter in Hsub as [Hb Hin']. split; [done|].
      rewrite fmap_cons. simpl. rewrite Hb. apply list_elem_of_here.
    + destruct (Hin e He) as [? ?]. split; [done|].
      rewrite fmap_cons. by apply list_elem_of_further.
  - intros Hemails Hkeys. rewrite fmap_cons in Hkeys. simpl in Hkeys.
    apply NoDup_cons in Hkeys as [Hfresh Hkeys].
    apply NoDup_app. split_and!.
    + eapply submseteq_NoDup; [exact Hsub|]. by apply NoDup_filter.
    + intros e He He'.
      apply (elem_of_submseteq _ _ _ He) in Hsub.
      apply list_elem_of_filter in Hsub as [Hb _].
      destruct (Hin e He') as [_ Hb']. by rewrite Hb in Hb'.
    + by apply Hnd.
  - intros s. rewrite Hcnt', Hcnt, sender_count_app. lia.
  - intros s Hs. apply Hmax', Hmax, Hs.
Qed.

Lemma remaining_1msg_spec (emails selected : list email) (e : email) :
  e ∈ remaining_1msg emails selected ↔
  e ∈ emails ∧ get_message_bucket e = py "1-msg"
  ∧ thread_id e ∉ thread_id <$> selected.
Proof. open_remaining. rewrite list_elem_of_filter. tauto. Qed.

(** A whole category selection: the passes, then the backfill. *)
Lemma select_spec (emails : list email) (targets : list (pystr * nat))
    (c : gmap pystr nat) (total_target : nat) (g : rng) :
  ∃ additional,
    (select_emails_with_global_cap emails targets c total_target g).1.1
    = (bucket_loop emails targets [] O c g).1.1.1 ++ additional
    ∧ (length additional ≤ (bucket_loop emails targets [] O c g).1.1.2)%nat
    ∧ additional ⊆+ remaining_1msg emails (bucket_loop emails targets [] O c g).1.1.1
    ∧ (∀ s, (select_emails_with_global_cap emails targets c total_target g).1.2 !!! s
            = (c !!! s + sender_count s
                 (select_emails_with_global_cap emails targets c total_target g).1.1)%nat)
    ∧ (∀ s, (c !!! s ≤ MAX_PER_SENDER)%nat →
            ((select_emails_with_global_cap emails targets c total_target g).1.2 !!! s
             ≤ MAX_PER_SENDER)%nat).
Proof.
  open_select.
  destruct (bucket_loop_spec emails targets [] O c g)
    as (added & Hsel & _ & _ & _ & Hcnt & Hmax).
  destruct (bucket_loop emails targets [] O c g) as [[[selected shortfall] c1] g1].
  simpl in Hsel, Hcnt, Hmax. subst selected.
  case_bool_decide as Hshort.
  - pose proof (sample_spec (remaining_1msg emails added) shortfall MAX_PER_SENDER c1 g1)
      as (Hlen & Hsub & Hcnt' & Hmax').
    destruct (sample_with_global_sender_cap _ shortfall MAX_PER_SENDER c1 g1)
      as [[additional c2] g2]. simpl in *.
    exists additional. split_and!; [done|done|done| |].
    + intros s. rewrite Hcnt', Hcnt, sender_count_app. lia.
    + intros s Hs. apply Hmax', Hmax, Hs.
  - exists []. simpl. rewrite app_nil_r. split_and!; [done|lia|apply submseteq_nil_l|done|done].
Qed.

Lemma select_subset (emails : list email) (targets : list (pystr * nat))
    (c : gmap pystr nat) (total_target : nat) (g : rng) (e : email) :
  e ∈ (select_emails_with_global_cap emails targets c total_target g).1.1 → e ∈ emails.
Proof.
  destruct (select_spec emails targets c total_target g) as (additional & -> & _ & Hsub & _).
  destruct (bucket_loop_spec emails targets [] O c g) as (added & -> & _ & Hin & _).
  simpl. intros [He|He]%elem_of_app.
  - by apply Hin.
  - apply (elem_of_submseteq _ _ _ He) in Hsub.
    by apply remaining_1msg_spec in Hsub as (? & _).
Qed.

Lemma select_length (emails : list email) (targets : list (pystr * nat))
    (c : gmap pystr nat) (total_target : nat) (g : rng) :
  (length (select_emails_with_global_cap emails targets c total_target g).1.1
   ≤ sum_targets targets)%nat.
Proof.
  destruct (select_spec emails targets c total_target g) as (additional & -> & Hlen & _).
  destruct (bucket_loop_spec emails targets [] O c g) as (added & Hsel & Hsf & _).
  rewrite Hsel in *. simpl in *. rewrite length_app. lia.
Qed.

Lemma select_NoDup (emails : list email) (targets : list (pystr * nat))
    (c : gmap pystr nat) (total_target : nat) (g : rng) :
  NoDup emails → NoDup targets.*1 →
  NoDup (select_emails_with_global_cap emails targets c total_target g).1.1.
Proof.
  intros Hemails Hkeys.
  destruct (select_spec emails targets c total_target g) as (additional & -> & _ & Hsub & _).
  destruct (bucket_loop_spec emails targets [] O c g) as (added & Hsel & _ & _ & Hnd & _).
  rewrite Hsel in *. simpl in *.
  apply NoDup_app. split_and!.
  - by apply Hnd.
  - intros e He He'. apply (elem_of_submseteq _ _ _ He') in Hsub.
    apply remaining_1msg_spec in Hsub as (_ & _ & Hid).
    apply Hid. by apply list_elem_of_fmap_2.
  - eapply submseteq_NoDup; [exact Hsub|]. by apply NoDup_filter.
Qed.

Lemma counts_empty (s : pystr) : (∅ : gmap pystr nat) !!! s = 0%nat.
Proof. by rewrite lookup_total_empty. Qed.

(** Two category selections in a row that share one sender-count map,
    empty at the start: no sender key is selected more often than the cap,
    counted over both results. *)
Lemma two_selections_cap (work personal : list email)
    (work_targets personal_targets : list (pystr * nat))
    (work_total personal_total : nat) (g : rng) (s : pystr) :
  let first := select_emails_with_global_cap work work_targets ∅ work_total g in
  let second :=
    select_emails_with_global_cap personal personal_targets first.1.2
      personal_total first.2 in
  (sender_count s (first.1.1 ++ second.1.1) ≤ MAX_PER_SENDER)%nat.
Proof.
  intros first second. subst second.
  destruct (select_spec work work_targets ∅ work_total g)
    as (_ & _ & _ & _ & Hcnt & Hmax).
  fold first in Hcnt, Hmax.
  destruct first as [[selected_work counts] g1]. cbn [fst snd] in *.
  destruct (select_spec personal personal_targets counts personal_total g1)
    as (_ & _ & _ & _ & Hcnt' & Hmax').
  destruct (select_emails_with_global_cap personal personal_targets counts
              personal_total g1) as [[selected_personal counts'] g2].
  cbn [fst snd] in *.
  rewrite sender_count_app.
  specialize (Hcnt s). specialize (Hcnt' s).
  specialize (Hmax s). specialize (Hmax' s).
  rewrite counts_empty in Hcnt, Hmax.
  rewrite Hcnt', Hcnt in Hmax'.
  assert (0 ≤ MAX_PER_SENDER)%nat as H0 by lia.
  specialize (Hmax H0). rewrite Hcnt in Hmax.
  specialize (Hmax' Hmax). lia.
Qed.

(** [main] is two such selections. *)
Lemma main_eq (g0 : rng) (pool : list email) :
  main g0 pool
  = let first :=
      select_emails_with_global_cap
        (filter (λ e, personal_or_work e = py "work") pool) WORK_TARGETS ∅ 200 (seed 42) in
    let second :=
      select_emails_with_global_cap
        (filter (λ e, personal_or_work e = py "personal") pool) PERSONAL_TARGETS
        first.1.2 150 first.2 in
    first.1.1 ++ second.1.1.
Proof.
  open_main. cbv zeta.
  destruct (select_emails_with_global_cap _ WORK_TARGETS ∅ 200 (seed 42))
    as [[selected_work counts] g1]. cbn [fst snd].
  by destruct (select_emails_with_global_cap _ PERSONAL_TARGETS counts 150 g1)
    as [[selected_personal counts'] g2].
Qed.

Lemma main_sender_counts (g0 : rng) (pool : list email) (s : pystr) :
  (sender_count s (main g0 pool) ≤ MAX_PER_SENDER)%nat.
Proof. rewrite main_eq. apply two_selections_cap. Qed.

Lemma main_subset (g0 : rng) (pool : list email) (e : email) :
  e ∈ main g0 pool → e ∈ pool.
Proof.
  open_main.
  set (work := filter (λ e, personal_or_work e = py "work") pool).
  set (personal := filter (λ e, personal_or_work e = py "personal") pool).
  pose proof (select_subset work WORK_TARGETS ∅ 200 (seed 42) e) as Hw.
  destruct (select_emails_with_global_cap work WORK_TARGETS ∅ 200 (seed 42))
    as [[selected_work counts] g1]. simpl in Hw.
  pose proof (select_subset personal PERSONAL_TARGETS counts 150 g1 e) as Hp.
  destruct (select_emails_with_global_cap personal PERSONAL_TARGETS counts 150 g1)
    as [[selected_personal counts'] g2]. simpl in Hp.
  intros [He|He]%elem_of_app.
  - apply Hw in He. unfold work in He. by apply list_elem_of_filter in He as [_ ?].
  - apply Hp in He. unfold personal in He. by apply list_elem_of_filter in He as [_ ?].
Qed.

Lemma targets_keys_NoDup :
  NoDup WORK_TARGETS.*1 ∧ NoDup PERSONAL_TARGETS.*1.
Proof. split; compute_done. Qed.

Lemma main_NoDup (g0 : rng) (pool : list email) :
  NoDup pool → NoDup (main g0 pool).
Proof.
  intros Hpool. open_main.
  set (work := filter (λ e, personal_or_work e = py "work") pool).
  set (personal := filter (λ e, personal_or_work e = py "personal") pool).
  destruct targets_keys_NoDup as [Hkw Hkp].
  pose proof (select_NoDup work WORK_TARGETS ∅ 200 (seed 42)
                (NoDup_filter _ _ Hpool) Hkw) as Hw.
  pose proof (λ e, select_subset work WORK_TARGETS ∅ 200 (seed 42) e) as Hws.
  destruct (select_emails_with_global_cap work WORK_TARGETS ∅ 200 (seed 42))
    as [[selected_work counts] g1]. simpl in Hw, Hws.
  pose proof (select_NoDup personal PERSONAL_TARGETS counts 150 g1
                (NoDup_filter _ _ Hpool) Hkp) as Hp.
  pose proof (λ e, select_subset personal PERSONAL_TARGETS counts 150 g1 e) as Hps.
  destruct (select_emails_with_global_cap personal PERSONAL_TARGETS counts 150 g1)
    as [[selected_personal counts'] g2]. simpl in Hp, Hps.
  apply NoDup_app. split_and!; [done| |done].
  intros e He He'.
  apply Hws in He. unfold work in He. apply list_elem_of_filter in He as [Hcw _].
  apply Hps in He'. unfold personal in He'. apply list_elem_of_filter in He' as [Hcp _].
  rewrite Hcw in Hcp. by vm_compute in Hcp.
Qed.

Lemma filter_length_mono {A} (P Q : A → Prop) `{∀ x, Decision (P x)}
    `{∀ x, Decision (Q x)} (l : list A) :
  (∀ x, P x → Q x) → (length (filter P l) ≤ length (filter Q l))%nat.
Proof.
  intros HPQ. induction l as [|x l IH]; [done|].
  rewrite !filter_cons.
  destruct (decide (P x)) as [HP|HP]; destruct (decide (Q x)) as [HQ|HQ]; simpl; try lia.
  by destruct HQ; apply HPQ.
Qed.

Lemma search_sender_nil : search U no_flags sender_re [] = None.
Proof. reflexivity. Qed.

Lemma extract_sender_empty (e : email) : from e = [] → extract_sender e = py "unknown".
Proof.
  intros Hfrom. open_extract_sender. rewrite Hfrom.
  change (lower U []) with (@nil N). by rewrite search_sender_nil.
Qed.

(** C2. Sender cap invariant: in the final selection of a run (work pool
    first, then the personal pool, one shared sender-count map that starts
    empty) no sender key, as [extract_sender] computes it, belongs to more
    than [MAX_PER_SENDER] = 10 records, counted over both categories.
    This holds for [main] and for any two pools and target tables handled
    in that way. *)
Theorem sender_cap_invariant (g0 : rng) (pool : list email) (s : pystr) :
  (sender_count s (main g0 pool) ≤ MAX_PER_SENDER)%nat
  ∧ MAX_PER_SENDER = 10%nat
  ∧ ∀ work personal work_targets personal_targets work_total personal_total g,
      let first := select_emails_with_global_cap work work_targets ∅ work_total g in
      let second :=
        select_emails_with_global_cap personal personal_targets first.1.2
          personal_total first.2 in
      (sender_count s (first.1.1 ++ second.1.1) ≤ MAX_PER_SENDER)%nat.
Proof.
  split_and!; [apply main_sender_counts | reflexivity |].
  intros. apply two_selections_cap.
Qed.

(** C6. No duplicate ids: over a pool whose records have pairwise distinct
    [thread_id]s the final selection (work plus personal) repeats no
    [thread_id]; and in every category selection the records added by the
    1-msg backfill have ids that no bucket pass selected. *)
Theorem no_duplicate_thread_ids (g0 : rng) (pool : list email) :
  NoDup (thread_id <$> pool) →
  NoDup (thread_id <$> main g0 pool)
  ∧ ∀ emails targets c total_target g,
      ∃ additional,
        (select_emails_with_global_cap emails targets c total_target g).1.1
        = (bucket_loop emails targets [] O c g).1.1.1 ++ additional
        ∧ ∀ e, e ∈ additional →
               thread_id e ∉ thread_id <$> (bucket_loop emails targets [] O c g).1.1.1.
Proof.
  intros Hids. split.
  - pose proof (NoDup_fmap_1 _ _ Hids) as Hpool.
    eapply submseteq_NoDup; [|exact Hids].
    apply fmap_submseteq, NoDup_submseteq; [by apply main_NoDup|].
    intros e. apply main_subset.
  - intros emails targets c total_target g.
    destruct (select_spec emails targets c total_target g) as (additional & Hsel & _ & Hsub & _).
    exists additional. split; [done|].
    intros e He. apply (elem_of_submseteq _ _ _ He) in Hsub.
    by apply remaining_1msg_spec in Hsub as (_ & _ & ?).
Qed.

(** C9. Bounds: a sampling call returns at most [target_count] records,
    each an element of its input list, for every input list, target count
    and sender-count map; hence a category selection never has more
    records than the sum of its bucket targets (200 for work, 150 for
    personal). *)
Theorem sample_within_target (emails : list email) (target_count max_per_sender : nat)
    (global_sender_counts : gmap pystr nat) (g : rng) :
  (length (sample_with_global_sender_cap emails target_count max_per_sender
             global_sender_counts g).1.1 ≤ target_count)%nat
  ∧ (∀ e, e ∈ (sample_with_global_sender_cap emails target_count max_per_sender
                 global_sender_counts g).1.1 → e ∈ emails)
  ∧ (∀ targets total_target,
       (length (select_emails_with_global_cap emails targets global_sender_counts
                  total_target g).1.1 ≤ sum_targets targets)%nat)
  ∧ sum_targets WORK_TARGETS = 200%nat ∧ sum_targets PERSONAL_TARGETS = 150%nat.
Proof.
  destruct (sample_spec emails target_count max_per_sender global_sender_counts g)
    as (Hlen & Hsub & _).
  split_and!; [done| |by intros; apply select_length|done|done].
  intros e He. by apply (elem_of_submseteq _ _ _ He).
Qed.

(** C10. Sender key fallback: when the lower-cased 'from' field holds no
    address-shaped token, [extract_sender] returns its first 50 characters
    if it is not empty, and the literal 'unknown' if the field is empty;
    so all records with an empty 'from' share the key 'unknown', and at
    most [MAX_PER_SENDER] of them are in a final selection. *)
Theorem extract_sender_fallback :
  (∀ e, search U no_flags sender_re (lower U (from e)) = None →
        lower U (from e) ≠ [] →
        extract_sender e = take 50 (lower U (from e)))
  ∧ (∀ e, from e = [] → extract_sender e = py "unknown")
  ∧ (∀ g0 pool,
       (length (filter (λ e, from e = []) (main g0 pool)) ≤ MAX_PER_SENDER)%nat).
Proof.
  split_and!.
  - intros e Hnone Hne. open_extract_sender. rewrite Hnone.
    by destruct (lower U (from e)).
  - apply extract_sender_empty.
  - intros g0 pool.
    etrans; [|apply (main_sender_counts g0 pool (py "unknown"))].
    apply filter_length_mono. intros e. apply extract_sender_empty.
Qed.

End SamplerFacts.

(** ** Reproducibility *)

Section Reproducibility.
Context (U : unicode_db).
Context {rng1 rng2 : Type} (seed1 : Z → rng1) (seed2 : Z → rng2).
Context (randbelow1 : rng1 → nat → nat * rng1) (randbelow2 : rng2 → nat → nat * rng2).

(** Two generators, related by [R], that return the same number at every
    draw and stay related. *)
Context (R : rng1 → rng2 → Prop).
Context (same_draws : ∀ g1 g2 n, R g1 g2 →
           (randbelow1 g1 n).1 = (randbelow2 g2 n).1
           ∧ R (randbelow1 g1 n).2 (randbelow2 g2 n).2).

Lemma shuffle_loop_sim {A} (i : nat) (x : list A) (g1 : rng1) (g2 : rng2) :
  R g1 g2 →
  (shuffle_loop randbelow1 i x g1).1 = (shuffle_loop randbelow2 i x g2).1
  ∧ R (shuffle_loop randbelow1 i x g1).2 (shuffle_loop randbelow2 i x g2).2.
Proof.
  revert x g1 g2. induction i as [|i IH]; intros x g1 g2 HR; cbn [shuffle_loop]; [done|].
  destruct (same_draws g1 g2 (S (S i)) HR) as [Hj HR'].
  destruct (randbelow1 g1 (S (S i))) as [j1 g1'].
  destruct (randbelow2 g2 (S (S i))) as [j2 g2']. simpl in Hj, HR'. subst j2.
  by apply IH.
Qed.

Lemma sample_sim (emails : list email) (t m : nat) (c : gmap pystr nat)
    (g1 : rng1) (g2 : rng2) :
  R g1 g2 →
  (sample_with_global_sender_cap U randbelow1 emails t m c g1).1
  = (sample_with_global_sender_cap U randbelow2 emails t m c g2).1
  ∧ R (sample_with_global_sender_cap U randbelow1 emails t m c g1).2
      (sample_with_global_sender_cap U randbelow2 emails t m c g2).2.
Proof.
  intros HR. unfold sample_with_global_sender_cap, shuffle.
  destruct (shuffle_loop_sim (length emails - 1) emails g1 g2 HR) as [Hx HR'].
  destruct (shuffle_loop randbelow1 (length emails - 1) emails g1) as [x1 g1'].
  destruct (shuffle_loop randbelow2 (length emails - 1) emails g2) as [x2 g2'].
  simpl in Hx, HR'. subst x2.
  by destruct (accept_loop U x1 t m [] c) as [sel c'].
Qed.

Lemma bucket_loop_sim (emails : list email) (targets : list (pystr * nat))
    (sel : list email) (shortfall : nat) (c : gmap pystr nat) (g1 : rng1) (g2 : rng2) :
  R g1 g2 →
  (bucket_loop U randbelow1 emails targets sel shortfall c g1).1
  = (bucket_loop U randbelow2 emails targets sel shortfall c g2).1
  ∧ R (bucket_loop U randbelow1 emails targets sel shortfall c g1).2
      (bucket_loop U randbelow2 emails targets sel shortfall c g2).2.
Proof.
  revert sel shortfall c g1 g2.
  induction targets as [|[b t] targets IH]; intros sel shortfall c g1 g2 HR;
    cbn [bucket_loop]; [done|].
  destruct (sample_sim (filter (λ e, get_message_bucket U e = b) emails) t
              MAX_PER_SENDER c g1 g2 HR) as [Hs HR'].
  destruct (sample_with_global_sender_cap U randbelow1 _ t MAX_PER_SENDER c g1)
    as [[s1 c1] g1'].
  destruct (sample_with_global_sender_cap U randbelow2 _ t MAX_PER_SENDER c g2)
    as [[s2 c2] g2'].
  simpl in Hs, HR'. injection Hs as -> ->. by apply IH.
Qed.

Lemma select_sim (emails : list email) (targets : list (pystr * nat))
    (c : gmap pystr nat) (total total' : nat) (g1 : rng1) (g2 : rng2) :
  R g1 g2 →
  (select_emails_with_global_cap U randbelow1 emails targets c total g1).1
  = (select_emails_with_global_cap U randbelow2 emails targets c total' g2).1
  ∧ R (select_emails_with_global_cap U randbelow1 emails targets c total g1).2
      (select_emails_with_global_cap U randbelow2 emails targets c total' g2).2.
Proof.
  intros HR. unfold select_emails_with_global_cap.
  destruct (bucket_loop_sim emails targets [] O c g1 g2 HR) as [Hb HR'].
  destruct (bucket_loop U randbelow1 emails targets [] O c g1) as [[[sel1 sh1] c1] g1'].
  destruct (bucket_loop U randbelow2 emails targets [] O c g2) as [[[sel2 sh2] c2] g2'].
  simpl in Hb, HR'. injection Hb as -> -> ->.
  case_bool_decide; [|done].
  destruct (sample_sim (remaining_1msg U emails sel2) sh2 MAX_PER_SENDER c2 g1' g2' HR')
    as [Hs HR''].
  destruct (sample_with_global_sender_cap U randbelow1 _ sh2 MAX_PER_SENDER c2 g1')
    as [[a1 d1] h1].
  destruct (sample_with_global_sender_cap U randbelow2 _ sh2 MAX_PER_SENDER c2 g2')
    as [[a2 d2] h2].
  simpl in Hs, HR''. by injection Hs as -> ->.
Qed.

(** C4. Reproducibility: a selection is determined by the pool, the
    targets, the cap, the sender counts and the numbers the generator
    returns, and by nothing else.  Two runs whose generators return the
    same numbers, as two generators started from the same seed do, select
    the same records in the same order, leave the same sender counts and
    end in related generator states; this holds for a category selection
    with any targets and counts (the parameter [total_target] is only
    printed), for a single sampling call with any cap, and for the whole
    selection of [main], whatever the generators' states before
    [random.seed(42)]. *)
Theorem selection_reproducible (emails : list email) (targets : list (pystr * nat))
    (max_per_sender target_count total total' : nat) (c : gmap pystr nat)
    (g1 : rng1) (g2 : rng2) :
  R g1 g2 →
  (select_emails_with_global_cap U randbelow1 emails targets c total g1).1
  = (select_emails_with_global_cap U randbelow2 emails targets c total' g2).1
  ∧ R (select_emails_with_global_cap U randbelow1 emails targets c total g1).2
      (select_emails_with_global_cap U randbelow2 emails targets c total' g2).2
  ∧ (sample_with_global_sender_cap U randbelow1 emails target_count max_per_sender c g1).1
    = (sample_with_global_sender_cap U randbelow2 emails target_count max_per_sender c g2).1
  ∧ ((∀ s, R (seed1 s) (seed2 s)) →
     ∀ g0 g0', main U seed1 randbelow1 g0 emails = main U seed2 randbelow2 g0' emails).
Proof.
  intros HR. split_and!.
  - by apply select_sim.
  - by apply select_sim.
  - by apply sample_sim.
  - intros Hseed g0 g0'. unfold main. cbv zeta.
    destruct (select_sim (filter (λ e, personal_or_work e = py "work") emails)
                WORK_TARGETS ∅ 200 200 (seed1 42) (seed2 42) (Hseed 42%Z)) as [Hw HRw].
    destruct (select_emails_with_global_cap U randbelow1 _ WORK_TARGETS ∅ 200 (seed1 42))
      as [[w1 c1] h1].
    destruct (select_emails_with_global_cap U randbelow2 _ WORK_TARGETS ∅ 200 (seed2 42))
      as [[w2 c2] h2].
    simpl in Hw, HRw. injection Hw as -> ->.
    destruct (select_sim (filter (λ e, personal_or_work e = py "personal") emails)
                PERSONAL_TARGETS c2 150 150 h1 h2 HRw) as [Hp _].
    destruct (select_emails_with_global_cap U randbelow1 _ PERSONAL_TARGETS c2 150 h1)
      as [[p1 d1] k1].
    destruct (select_emails_with_global_cap U randbelow2 _ PERSONAL_TARGETS c2 150 h2)
      as [[p2 d2] k2].
    simpl in Hp. by injection Hp as -> _.
Qed.

End Reproducibility.

(** ** The record merger *)

Section MergerFacts.

Lemma startswith_compat (p q l : pystr) :
  startswith p l = true → startswith q l = true →
  startswith p q || startswith q p = true.
Proof.
  revert p q. induction l as [|c l IH]; intros [|a p] [|b q]; simpl; try done.
  intros [Ha Hp]%andb_prop [Hb Hq]%andb_prop.
  apply N.eqb_eq in Ha, Hb. subst a b.
  rewrite N.eqb_refl. simpl. by apply IH.
Qed.

Lemma startswith_exclusive (p q l : pystr) :
  startswith p q || startswith q p = false →
  startswith p l = true → startswith q l = false.
Proof.
  intros Hpq Hp. destruct (startswith q l) eqn:Hq; [|done].
  by rewrite (startswith_compat p q l Hp Hq) in Hpq.
Qed.

(** What one pass of the [if]/[elif] chain does to each field: a field
    changes only on a line that starts with its own prefix, and only while
    the field is still empty. *)
Lemma scan_line_from (h : header_lines) (line : pystr) :
  from_line (scan_line h line)
  = if startswith (py "From:") (strip line) && is_empty (from_line h)
    then header_value (py "From:") (strip line) else from_line h.
Proof.
  unfold scan_line.
  repeat (match goal with |- context [if ?b then _ else _] => destruct b end; try done).
Qed.

Ltac chain_split p :=
  unfold scan_line; cbv zeta;
  match goal with
  | |- context [startswith (py p) ?l] => destruct (startswith (py p) l) eqn:Hp
  end.

Ltac chain_other q :=
  match goal with
  | Hp : startswith (py ?p) ?l = true |- _ =>
      rewrite (startswith_exclusive (py p) (py q) l eq_refl Hp)
  end.

Ltac chain_cases :=
  cbn [andb];
  repeat (match goal with |- context [if ?b then _ else _] => destruct b end; try done).

Lemma scan_line_to (h : header_lines) (line : pystr) :
  to_line (scan_line h line)
  = if startswith (py "To:") (strip line) && is_empty (to_line h)
    then header_value (py "To:") (strip line) else to_line h.
Proof.
  chain_split "To:"%string;
    [chain_other "From:"%string; chain_other "Subject:"%string;
     chain_other "Time:"%string|]; chain_cases.
Qed.

Lemma scan_line_subject (h : header_lines) (line : pystr) :
  subject_line (scan_line h line)
  = if startswith (py "Subject:") (strip line) && is_empty (subject_line h)
    then header_value (py "Subject:") (strip line) else subject_line h.
Proof.
  chain_split "Subject:"%string;
    [chain_other "From:"%string; chain_other "To:"%string;
     chain_other "Time:"%string|]; chain_cases.
Qed.

Lemma scan_line_time (h : header_lines) (line : pystr) :
  time_line (scan_line h line)
  = if startswith (py "Time:") (strip line) && is_empty (time_line h)
    then header_value (py "Time:") (strip line) else time_line h.
Proof.
  chain_split "Time:"%string;
    [chain_other "From:"%string; chain_other "To:"%string;
     chain_other "Subject:"%string|]; chain_cases.
Qed.

(** The loop invariant, for any field that [scan_line] updates in this way. *)
Lemma scan_fold (get : header_lines → pystr) (prefix : pystr) :
  (∀ h line,
     get (scan_line h line)
     = if startswith prefix (strip line) && is_empty (get h)
       then header_value prefix (strip line) else get h) →
  ∀ lines h,
    get (foldl scan_line h lines)
    = if is_empty (get h) then first_value prefix (strip <$> lines) else get h.
Proof.
  intros Hstep lines. induction lines as [|line lines IH]; intros h; simpl.
  { unfold first_value. simpl. by destruct (get h). }
  rewrite IH, Hstep. unfold first_value. simpl.
  destruct (startswith prefix (strip line)); simpl;
    destruct (is_empty (get h)) eqn:Hh; simpl; rewrite ?Hh; try done.
  by destruct (is_empty (header_value prefix (strip line))) eqn:Hv; simpl; rewrite ?Hv.
Qed.

Lemma parse_headers_fields (content : pystr) :
  from_line (parse_headers content) = first_value (py "From:") (scanned_lines content)
  ∧ to_line (parse_headers content) = first_value (py "To:") (scanned_lines content)
  ∧ subject_line (parse_headers content) = first_value (py "Subject:") (scanned_lines content)
  ∧ time_line (parse_headers content) = first_value (py "Time:") (scanned_lines content).
Proof.
  unfold parse_headers, scanned_lines. split_and!.
  - by rewrite (scan_fold from_line _ scan_line_from).
  - by rewrite (scan_fold to_line _ scan_line_to).
  - by rewrite (scan_fold subject_line _ scan_line_subject).
  - by rewrite (scan_fold time_line _ scan_line_time).
Qed.

(** What a row that comes back has in its record. *)
Lemma merge_row_returns (json_loads : pystr → json_shape)
    (content_map : gmap pystr cell) (row : meta_row) (rec : merged) :
  merge_row json_loads content_map row = Returns rec →
  out_thread_id rec = row_thread_id row
  ∧ row_num_memories row = NumFinite (out_num_memories rec)
  ∧ out_full_content rec = default (CText []) (content_map !! row_thread_id row)
  ∧ (out_full_content rec ≠ CText [] ↔ truthy (out_full_content rec) = true)
  ∧ ∃ text,
      content_for_parsing (out_full_content rec) (row_email_preview row) = CText text
      ∧ out_from rec = from_line (parse_headers text)
      ∧ out_to rec = to_line (parse_headers text)
      ∧ out_subject rec = subject_line (parse_headers text)
      ∧ out_time rec = time_line (parse_headers text).
Proof.
  unfold merge_row. cbv zeta.
  destruct (content_for_parsing _ (row_email_preview row)) as [text|] eqn:Hc; [|done].
  destruct (row_num_memories row) as [z| |]; cbn [int_of_cell]; [|done..].
  destruct (len_of _) as [n|e]; [|done].
  intros [= <-]. cbn [out_thread_id out_num_memories out_full_content out_from out_to
                      out_subject out_time].
  split_and!; [done|done|done| |by exists text].
  unfold content_for_parsing in Hc.
  by destruct (default (CText []) (content_map !! row_thread_id row)) as [[|c t]|].
Qed.

(** The slip next to it: with no content and nothing in the preview cell
    the header loop is handed NaN, and [split] raises. *)
Lemma merge_row_nan_raises (json_loads : pystr → json_shape)
    (content_map : gmap pystr cell) (row : meta_row) :
  content_for_parsing (default (CText []) (content_map !! row_thread_id row))
    (row_email_preview row) = CNaN →
  merge_row json_loads content_map row = Raises AttributeError.
Proof. unfold merge_row. cbv zeta. by intros ->. Qed.

(** C8 (amended). For every metadata row whose record the loop builds:
    the body is the content map's entry for the thread id, and the empty
    text when the map has none; the headers are read from the body when it
    is not empty and from the preview otherwise; and each of 'from', 'to',
    'subject' and 'time' is the value of the first line, among the first
    20 lines of that text, that starts with the field's header and has a
    non-empty value: a header line whose value is empty leaves the field
    open to a later one.  The loop does build the record whenever the
    text to read the headers from is text, [num_memories] is a finite
    number and the headlines decode to nothing without a length: a
    missing body with a preview that holds text raises nothing. *)
Theorem merge_row_fields (json_loads : pystr → json_shape)
    (content_map : gmap pystr cell) (row : meta_row) :
  let full_content := default (CText []) (content_map !! row_thread_id row) in
  let parsed := content_for_parsing full_content (row_email_preview row) in
  (∀ rec, merge_row json_loads content_map row = Returns rec →
     out_full_content rec = full_content
     ∧ (content_map !! row_thread_id row = None → out_full_content rec = CText [])
     ∧ ∃ text,
         parsed = CText text
         ∧ out_from rec = first_value (py "From:") (scanned_lines text)
         ∧ out_to rec = first_value (py "To:") (scanned_lines text)
         ∧ out_subject rec = first_value (py "Subject:") (scanned_lines text)
         ∧ out_time rec = first_value (py "Time:") (scanned_lines text))
  ∧ (∀ text z, parsed = CText text →
       row_num_memories row = NumFinite z →
       headlines_list json_loads (row_headlines row) ≠ JsonUnsized →
       ∃ rec, merge_row json_loads content_map row = Returns rec)
  ∧ (∀ preview, content_map !! row_thread_id row = None →
       row_email_preview row = CText preview → parsed = CText preview)
  ∧ (∀ body, content_map !! row_thread_id row = Some (CText body) →
       body ≠ [] → parsed = CText body).
Proof.
  intros full_content parsed. split_and!.
  - intros rec Hrec.
    destruct (merge_row_returns _ _ _ _ Hrec)
      as (_ & _ & Hfull & _ & text & Htext & Hf & Ht & Hs & Hm).
    split; [done|]. split; [by intros Hnone; rewrite Hfull, Hnone|].
    exists text. rewrite Hfull in Htext. split; [done|].
    destruct (parse_headers_fields text) as (Hf' & Ht' & Hs' & Hm').
    by rewrite Hf, Ht, Hs, Hm, Hf', Ht', Hs', Hm'.
  - intros text z Hparsed Hnum Hlen. unfold merge_row. cbv zeta.
    fold full_content. fold parsed. rewrite Hparsed, Hnum. cbn [int_of_cell].
    destruct (headlines_list json_loads (row_headlines row)); cbn [len_of]; [eauto..|done].
  - intros preview Hnone Hpreview. unfold parsed, full_content.
    rewrite Hnone, Hpreview. cbn. unfold cell_or. by destruct preview.
  - intros body Hsome Hbody. unfold parsed, full_content. rewrite Hsome. cbn.
    by destruct body.
Qed.

End MergerFacts.

(** ** The cleaning pipeline *)

Section CleaningFacts.
Context (U : unicode_db).

Lemma replace_go_absent (old new text : pystr) :
  contains old text = false → replace_go old new text O = text.
Proof.
  induction text as [|c t IH]; [done|].
  cbn [contains replace_go]. intros [Hhere Hrest]%orb_false_elim.
  rewrite Hhere. by rewrite IH.
Qed.

Lemma str_replace_absent (old new text : pystr) :
  contains old text = false → str_replace old new text = text.
Proof. intros H. unfold str_replace. destruct old; [done|]. by apply replace_go_absent. Qed.

Lemma strip_inert (text : pystr) : no_outer_space text = true → strip text = text.
Proof.
  unfold no_outer_space, strip, rstrip. intros [Hhd Hlast]%andb_prop.
  assert (lstrip text = text) as ->.
  { destruct text as [|c t]; [done|]. simpl. by destruct (isspace c). }
  assert (lstrip (rev text) = rev text) as ->.
  { destruct (rev text) as [|c t]; [done|]. simpl. by destruct (isspace c). }
  apply rev_involutive.
Qed.

Lemma run_rule_inert (r : rule) (text : pystr) :
  rule_ok r = true → rule_inert U r text = true → run_rule U r text = Some text.
Proof.
  destruct r as [pattern fl repl|old new|pattern fl repl|]; simpl.
  - unfold re_sub. destruct (re_compile pattern) as [[re ng]|]; [|done]. simpl.
    intros [tpl ->]%bool_decide_eq_true Hnone%bool_decide_eq_true.
    simpl. by rewrite Hnone.
  - intros _ Habs%negb_true_iff. by rewrite str_replace_absent.
  - destruct (re_compile pattern) as [[re ng]|]; [|done]. simpl.
    intros _ Hone%bool_decide_eq_true. unfold keep_first.
    rewrite bool_decide_eq_false_2; [done|lia].
  - intros _ Hsp. by rewrite strip_inert.
Qed.

Lemma run_rules_inert (rules : list rule) (text : pystr) :
  forallb rule_ok rules = true → stage_inert U rules text = true →
  run_rules U rules text = Some text.
Proof.
  unfold stage_inert. induction rules as [|r rules IH]; [done|]. simpl.
  intros [Hok Hoks]%andb_prop [Hin Hins]%andb_prop.
  rewrite run_rule_inert by done. simpl. by apply IH.
Qed.

Lemma run_rule_total (r : rule) (text : pystr) :
  rule_ok r = true → is_Some (run_rule U r text).
Proof.
  destruct r as [pattern fl repl|old new|pattern fl repl|]; simpl; [| |
    |]; try by eauto.
  - unfold re_sub. destruct (re_compile pattern) as [[re ng]|]; [|done]. simpl.
    intros [tpl ->]%bool_decide_eq_true. simpl. eauto.
  - destruct (re_compile pattern) as [[re ng]|]; simpl; [eauto|].
    intros Hnone. discriminate Hnone.
Qed.

Lemma run_rules_total (rules : list rule) (text : pystr) :
  forallb rule_ok rules = true → is_Some (run_rules U rules text).
Proof.
  revert text. induction rules as [|r rules IH]; intros text; simpl; [eauto|].
  intros [Hok Hoks]%andb_prop.
  destruct (run_rule_total r text Hok) as [text' ->]. simpl. by apply IH.
Qed.

(** Every pattern and template of the seven rule lists is well formed. *)
Lemma stages_ok :
  forallb rule_ok clean_tracking_urls_rules = true
  ∧ forallb rule_ok clean_html_tags_rules = true
  ∧ forallb rule_ok remove_attachment_metadata_rules = true
  ∧ forallb rule_ok clean_markdown_artifacts_rules = true
  ∧ forallb rule_ok clean_boilerplate_rules = true
  ∧ forallb rule_ok clean_signatures_rules = true
  ∧ forallb rule_ok clean_whitespace_rules = true.
Proof. split_and!; vm_compute; reflexivity. Qed.

Lemma message_re_compiled : re_compile "^Message \d+" = Some (message_re, O).
Proof. vm_compute. reflexivity. Qed.

Lemma separator_compiled : ∃ r, re_compile "\n---\n" = Some (r, O).
Proof. eexists. vm_compute. reflexivity. Qed.

Lemma has_message_header_eq (part : pystr) :
  has_message_header U part
  = Some (bool_decide (is_Some (search U re_M message_re (strip part)))).
Proof. unfold has_message_header, re_search. by rewrite message_re_compiled. Qed.

Lemma filter_opt_total {A} (f : A → option bool) (l : list A) :
  (∀ x, is_Some (f x)) →
  filter_opt f l = Some (filter (λ x, f x = Some true) l).
Proof.
  intros Hf. induction l as [|x l IH]; [done|]. simpl.
  rewrite filter_cons, IH. destruct (Hf x) as [b Hb]. rewrite Hb. simpl.
  destruct b; destruct (decide _) as [?|?]; simpl; congruence.
Qed.

(** What [remove_duplicate_content] returns, in terms of the parts. *)
Lemma remove_duplicate_content_eq (text : pystr) (parts : list pystr) :
  re_split U "\n---\n" text = Some parts →
  remove_duplicate_content U text
  = Some (if bool_decide (length parts ≤ 1)%nat then text
          else match filter (λ p, has_message_header U p = Some true) parts with
               | (_ :: _) as message_parts => join (py "\n\n") message_parts
               | [] => strip (hd [] parts)
               end).
Proof.
  intros Hsplit. unfold remove_duplicate_content. rewrite Hsplit. simpl.
  case_bool_decide; [done|].
  rewrite filter_opt_total by (intros p; rewrite has_message_header_eq; eauto).
  simpl. by destruct (filter _ parts).
Qed.

Lemma re_split_total (text : pystr) : is_Some (re_split U "\n---\n" text).
Proof.
  unfold re_split. destruct separator_compiled as [r ->]. simpl. eauto.
Qed.

Lemma remove_duplicate_content_total (text : pystr) :
  is_Some (remove_duplicate_content U text).
Proof.
  destruct (re_split_total text) as [parts Hparts].
  rewrite (remove_duplicate_content_eq text parts Hparts). eauto.
Qed.

Lemma remove_duplicate_content_inert (text : pystr) :
  no_separator U text = true → remove_duplicate_content U text = Some text.
Proof.
  intros Hsep%bool_decide_eq_true.
  by rewrite (remove_duplicate_content_eq text [text] Hsep).
Qed.

Lemma split_on_nonempty (sep : N) (s : pystr) : split_on sep s ≠ [].
Proof.
  destruct s as [|c t]; simpl; [done|].
  destruct (c =? sep); [done|]. by destruct (split_on sep t).
Qed.

(** [sep.join(text.split(sep)) == text] *)
Lemma join_split_on (sep : N) (text : pystr) : join [sep] (split_on sep text) = text.
Proof.
  induction text as [|c t IH]; [done|]. simpl.
  pose proof (split_on_nonempty sep t) as Hne.
  destruct (N.eqb_spec c sep) as [->|Hc].
  - destruct (split_on sep t) as [|l ls]; [done|]. simpl in *. by rewrite IH.
  - destruct (split_on sep t) as [|l ls]; [done|].
    destruct ls as [|l' ls]; simpl in *; by rewrite <- IH.
Qed.

Lemma quoted_lines_inert (lines : list pystr) (in_deep_quote : bool) :
  forallb (λ line, bool_decide (quote_depth line ≤ 1)%nat) lines = true →
  quoted_lines lines in_deep_quote = lines.
Proof.
  revert in_deep_quote. induction lines as [|line lines IH]; intros b; [done|].
  simpl. intros [Hline Hrest]%andb_prop. rewrite Hline. by rewrite IH.
Qed.

Lemma simplify_quoted_replies_inert (text : pystr) :
  no_deep_quote text = true → simplify_quoted_replies text = text.
Proof.
  intros H. unfold simplify_quoted_replies.
  rewrite quoted_lines_inert by done. apply (join_split_on 10).
Qed.


Lemma chain_total (f1 f2 f3 f4 f5 f6 f7 f9 : pystr → option pystr)
    (f8 : pystr → pystr) (x : pystr) :
  (∀ t, is_Some (f1 t)) → (∀ t, is_Some (f2 t)) → (∀ t, is_Some (f3 t)) →
  (∀ t, is_Some (f4 t)) → (∀ t, is_Some (f5 t)) → (∀ t, is_Some (f6 t)) →
  (∀ t, is_Some (f7 t)) → (∀ t, is_Some (f9 t)) →
  is_Some (t ← f1 x; t ← f2 t; t ← f3 t; t ← f4 t; t ← f5 t; t ← f6 t; t ← f7 t;
           t ← Some (f8 t); f9 t).
Proof.
  intros H1 H2 H3 H4 H5 H6 H7 H9.
  destruct (H1 x) as [t1 ->]; cbn [mbind option_bind].
  destruct (H2 t1) as [t2 ->]; cbn [mbind option_bind].
  destruct (H3 t2) as [t3 ->]; cbn [mbind option_bind].
  destruct (H4 t3) as [t4 ->]; cbn [mbind option_bind].
  destruct (H5 t4) as [t5 ->]; cbn [mbind option_bind].
  destruct (H6 t5) as [t6 ->]; cbn [mbind option_bind].
  destruct (H7 t6) as [t7 ->]; cbn [mbind option_bind].
  apply H9.
Qed.


Lemma clean_email_content_total (content : pystr) :
  is_Some (clean_email_content U content).
Proof.
  destruct stages_ok as (H1 & H2 & H3 & H4 & H5 & H6 & H7).
  exact (chain_total (clean_tracking_urls U) (clean_html_tags U)
           (remove_attachment_metadata U) (clean_markdown_artifacts U)
           (remove_duplicate_content U) (clean_boilerplate U) (clean_signatures U)
           (clean_whitespace U) simplify_quoted_replies content
           (λ t, run_rules_total _ t H1) (λ t, run_rules_total _ t H2)
           (λ t, run_rules_total _ t H3) (λ t, run_rules_total _ t H4)
           remove_duplicate_content_total
           (λ t, run_rules_total _ t H5) (λ t, run_rules_total _ t H6)
           (λ t, run_rules_total _ t H7)).
Qed.

(** *** Segments that begin with a message header *)

Lemma orelse_some {A} (x : option A) (y : A) : is_Some (orelse x (Some y)).
Proof. destruct x; simpl; eauto. Qed.

Lemma ascii_digit_cases (d : N) :
  ascii_isdigit d = true →
  d = 48 ∨ d = 49 ∨ d = 50 ∨ d = 51 ∨ d = 52 ∨ d = 53 ∨ d = 54 ∨ d = 55
  ∨ d = 56 ∨ d = 57.
Proof.
  unfold ascii_isdigit. intros [H1 H2]%andb_prop.
  apply N.leb_le in H1, H2. lia.
Qed.

Lemma digit_isdigit (d : N) : ascii_isdigit d = true → isdigit U d = true.
Proof. intros H. pose proof (ascii_digit_cases d H) as Hc; destruct_or! Hc; subst d; reflexivity. Qed.

Lemma digit_not_space (d : N) : ascii_isdigit d = true → isspace d = false.
Proof.
  intros H. pose proof (ascii_digit_cases d H) as Hc.
  destruct_or! Hc; subst d; reflexivity.
Qed.

Lemma lstrip_keeps (x y : pystr) (d : N) :
  isspace d = false → lstrip (x ++ d :: y) = lstrip x ++ d :: y.
Proof.
  intros Hd. induction x as [|c x IH]; simpl; [by rewrite Hd|].
  by destruct (isspace c).
Qed.

Lemma rstrip_keeps (a rest : pystr) (d : N) :
  isspace d = false → rstrip (a ++ d :: rest) = a ++ d :: rstrip rest.
Proof.
  intros Hd. unfold rstrip.
  rewrite rev_app_distr. simpl. rewrite <- app_assoc. simpl.
  rewrite lstrip_keeps by done.
  rewrite rev_app_distr. simpl. rewrite rev_involutive.
  by rewrite <- app_assoc.
Qed.

Lemma strip_header (d : N) (rest : pystr) :
  ascii_isdigit d = true →
  strip (py "Message " ++ d :: rest) = py "Message " ++ d :: rstrip rest.
Proof.
  intros Hd. unfold strip.
  change (lstrip (py "Message " ++ d :: rest)) with (py "Message " ++ d :: rest).
  apply rstrip_keeps. by apply digit_not_space.
Qed.

Lemma scan_first (fl : flags) (r : regex) (prev : option N) (rest : pystr)
    (pos : nat) (m : mobj) :
  match_here U fl r false prev rest pos = Some m →
  head (scan U fl r prev rest pos O) = Some m.
Proof.
  intros Hm. destruct rest as [|c t]; simpl; rewrite Hm; by case_bool_decide.
Qed.

Lemma split_at_length (text : pystr) (i : nat) (ms : list mobj) :
  length (split_at text i ms) = S (length ms).
Proof. revert i. induction ms as [|m ms IH]; intros i; simpl; [done|]. by rewrite IH. Qed.

Lemma message_header_found (d : N) (rest : pystr) :
  ascii_isdigit d = true →
  is_Some (search U re_M message_re (py "Message " ++ d :: rest)).
Proof.
  intros Hd. apply digit_isdigit in Hd.
  unfold search, finditer.
  change (py "Message ") with [77; 101; 115; 115; 97; 103; 101; 32].
  cbn [app].
  assert (is_Some (match_here U re_M message_re false None
                     (77 :: 101 :: 115 :: 115 :: 97 :: 103 :: 101 :: 32 :: d :: rest) O))
    as [m Hm]; [|by rewrite (scan_first _ _ _ _ _ m Hm)].
  unfold match_here. cbn -[isdigit length]. rewrite Hd. cbn -[isdigit length].
  match goal with
  | |- context [orelse ?x (Some ?y)] => destruct (orelse_some x y) as [st' ->]
  end.
  eauto.
Qed.

Lemma begins_with_header_found (part : pystr) :
  begins_with_header part → has_message_header U part = Some true.
Proof.
  intros (d & rest & -> & Hd).
  rewrite has_message_header_eq, strip_header by done.
  by rewrite bool_decide_eq_true_2 by (by apply message_header_found).
Qed.

(** C3. Segmentation: with [parts] the result of splitting the text on the
    separator line; if some part has a [Message N] header (in particular if
    some part begins with one), the result is the parts that have such a
    header, joined by a blank line, the others being dropped; if no part
    has one, only the first part is kept (stripped of outer white space
    when there are several parts, as it is when there is one).  For the
    segments "A", "Message 1..", "Message 2.." the result is the two
    message segments joined, without "A"; the whole pipeline then
    leaves them separated by a single line break. *)
Theorem segmentation (text : pystr) (parts : list pystr) :
  re_split U "\n---\n" text = Some parts →
  (∀ p, begins_with_header p → has_message_header U p = Some true)
  ∧ ((∃ p, p ∈ parts ∧ has_message_header U p = Some true) →
     remove_duplicate_content U text
     = Some (join (py "\n\n")
               (filter (λ p, has_message_header U p = Some true) parts)))
  ∧ ((∀ p, p ∈ parts → has_message_header U p = Some false) →
     remove_duplicate_content U text
     = Some (if bool_decide (length parts ≤ 1)%nat then text
             else strip (hd [] parts)))
  ∧ remove_duplicate_content U
      (join (py "\n---\n") [py "A"; py "Message 1\nfoo"; py "Message 2\nbar"])
    = Some (join (py "\n\n") [py "Message 1\nfoo"; py "Message 2\nbar"])
  ∧ clean_email_content U
      (join (py "\n---\n") [py "A"; py "Message 1\nfoo"; py "Message 2\nbar"])
    = Some (py "Message 1\nfoo\nMessage 2\nbar").
Proof.
  intros Hsplit. split; [apply begins_with_header_found|].
  rewrite (remove_duplicate_content_eq text parts Hsplit).
  split_and!.
  - intros (p & Hp & Hhdr).
    assert (p ∈ filter (λ p, has_message_header U p = Some true) parts) as Hin
      by (by apply list_elem_of_filter).
    case_bool_decide as Hlen.
    + unfold re_split in Hsplit. destruct separator_compiled as [r Hr].
      rewrite Hr in Hsplit. simpl in Hsplit. injection Hsplit as <-.
      destruct (finditer U no_flags r text) as [|m ms];
        [|rewrite split_at_length in Hlen; simpl in Hlen; lia].
      simpl in *. apply list_elem_of_filter in Hin as [Hh _].
      rewrite filter_cons. destruct (decide _) as [_|Hn]; [done|].
      apply list_elem_of_singleton in Hp. by subst p.
    + by destruct (filter _ parts); [apply elem_of_nil in Hin|].
  - intros Hnone. case_bool_decide; [done|].
    destruct (filter (λ p, has_message_header U p = Some true) parts)
      as [|p ps] eqn:Hf; [done|].
    assert (p ∈ filter (λ p, has_message_header U p = Some true) parts) as Hin
      by (rewrite Hf; apply list_elem_of_here).
    apply list_elem_of_filter in Hin as [Hh Hp].
    rewrite (Hnone p Hp) in Hh. discriminate Hh.
  - vm_compute. reflexivity.
  - vm_compute. reflexivity.
Qed.

(** C5. Totality: for every text, the empty string and pure white space
    included, the cleaner returns a text (no pattern fails to compile, no
    template names a missing group, no index is out of range); and each of
    the nine stages returns its input unchanged when the shape it looks
    for is absent from it. *)
Theorem clean_total_and_stages_degrade (x : pystr) :
  is_Some (clean_email_content U x)
  ∧ clean_email_content U [] = Some []
  ∧ clean_email_content U (py "  \n \t ") = Some []
  ∧ (stage_inert U clean_tracking_urls_rules x = true → clean_tracking_urls U x = Some x)
  ∧ (stage_inert U clean_html_tags_rules x = true → clean_html_tags U x = Some x)
  ∧ (stage_inert U remove_attachment_metadata_rules x = true →
     remove_attachment_metadata U x = Some x)
  ∧ (stage_inert U clean_markdown_artifacts_rules x = true →
     clean_markdown_artifacts U x = Some x)
  ∧ (no_separator U x = true → remove_duplicate_content U x = Some x)
  ∧ (stage_inert U clean_boilerplate_rules x = true → clean_boilerplate U x = Some x)
  ∧ (stage_inert U clean_signatures_rules x = true → clean_signatures U x = Some x)
  ∧ (no_deep_quote x = true → simplify_quoted_replies x = x)
  ∧ (stage_inert U clean_whitespace_rules x = true → clean_whitespace U x = Some x).
Proof.
  destruct stages_ok as (H1 & H2 & H3 & H4 & H5 & H6 & H7).
  split_and!.
  - apply clean_email_content_total.
  - vm_compute. reflexivity.
  - vm_compute. reflexivity.
  - by apply run_rules_inert.
  - by apply run_rules_inert.
  - by apply run_rules_inert.
  - by apply run_rules_inert.
  - apply remove_duplicate_content_inert.
  - by apply run_rules_inert.
  - by apply run_rules_inert.
  - apply simplify_quoted_replies_inert.
  - by apply run_rules_inert.
Qed.

End CleaningFacts.

(** ** More on the sampler *)

Ltac open_get_message_bucket := unfold get_message_bucket.
Ltac open_accept_loop := cbn [accept_loop].
Ltac open_sender_count := unfold sender_count.
Ltac open_bucket_count := unfold bucket_count.

Section SamplerMore.
Context (U : unicode_db).
Context {rng : Type} (seed : Z → rng) (randbelow : rng → nat → nat * rng).

Local Abbreviation extract_sender := (extract_sender U).
Local Abbreviation sender_count := (sender_count U).
Local Abbreviation get_message_bucket := (get_message_bucket U).
Local Abbreviation accept_loop := (accept_loop U).
Local Abbreviation sample_with_global_sender_cap := (sample_with_global_sender_cap U randbelow).
Local Abbreviation bucket_loop := (bucket_loop U randbelow).
Local Abbreviation remaining_1msg := (remaining_1msg U).
Local Abbreviation select_emails_with_global_cap := (select_emails_with_global_cap U randbelow).
Local Abbreviation bucket_count := (bucket_count U).

Lemma get_message_bucket_cases (e : email) :
  (get_message_bucket e = py "1-msg" ∧ (count_messages U e = 1 ∨ count_messages U e = 0)%nat)
  ∨ (get_message_bucket e = py "2-msg" ∧ count_messages U e = 2%nat)
  ∨ (get_message_bucket e = py "3+msg" ∧ (3 ≤ count_messages U e)%nat).
Proof.
  open_get_message_bucket. cbv zeta.
  repeat case_bool_decide; [left|right; left|right; right|left];
    (split; [reflexivity|lia]).
Qed.

(** X1. Every record falls into exactly one of the three buckets, by its
    number of [Message N] headers: one header or none gives 1-msg, two give
    2-msg, three or more give 3+msg; so the three bucket lists that a
    category selection draws from split the pool between them. *)
Theorem buckets_partition (emails : list email) :
  Forall (λ e,
    (get_message_bucket e = py "1-msg" ∧ (count_messages U e = 1 ∨ count_messages U e = 0)%nat)
    ∨ (get_message_bucket e = py "2-msg" ∧ count_messages U e = 2%nat)
    ∨ (get_message_bucket e = py "3+msg" ∧ (3 ≤ count_messages U e)%nat)) emails
  ∧ filter (λ e, get_message_bucket e = py "1-msg") emails
    ++ filter (λ e, get_message_bucket e = py "2-msg") emails
    ++ filter (λ e, get_message_bucket e = py "3+msg") emails ≡ₚ emails.
Proof.
  split; [apply Forall_forall; intros e _; apply get_message_bucket_cases|].
  induction emails as [|e emails IH]; [done|].
  rewrite !filter_cons.
  destruct (get_message_bucket_cases e) as [[-> _]|[[-> _]|[-> _]]];
    repeat (destruct (decide _) as [Heq|Hne];
            [try (by vm_compute in Heq)|try (by destruct Hne)]).
  - simpl. by rewrite IH.
  - etrans; [symmetry; apply Permutation_middle|]. by rewrite IH.
  - rewrite app_assoc. etrans; [symmetry; apply Permutation_middle|].
    by rewrite <- app_assoc, IH.
Qed.

Lemma sender_count_zero (s : pystr) (l : list email) :
  (∀ e, e ∈ l → extract_sender e ≠ s) → sender_count s l = 0%nat.
Proof.
  intros Hl. induction l as [|e l IH]; [done|].
  rewrite (sender_count_cons U), IH; [|intros e' He'; apply Hl; by right].
  destruct (decide (extract_sender e = s)) as [Heq|]; [|done].
  destruct (Hl e ltac:(by left) Heq).
Qed.

Lemma sender_count_perm (s : pystr) (l k : list email) :
  l ≡ₚ k → sender_count s l = sender_count s k.
Proof. intros H. open_sender_count. by rewrite H. Qed.

Lemma sender_count_elem (s : pystr) (l : list email) (e : email) :
  e ∈ l → extract_sender e = s → (1 ≤ sender_count s l)%nat.
Proof.
  intros He Hs. induction l as [|e' l IH]; [by apply elem_of_nil in He|].
  rewrite (sender_count_cons U). apply elem_of_cons in He as [->|He].
  - rewrite decide_True by done. lia.
  - specialize (IH He). lia.
Qed.

(** X2. Accounting of the shared counter: after a category selection every
    sender's count is its count before plus the number of selected records
    with that sender key; so no count ever goes down, and the count of a
    sender with no record in the pool is left as it was. *)
Theorem sender_counts_accounting (emails : list email) (targets : list (pystr * nat))
    (c : gmap pystr nat) (total_target : nat) (g : rng) (s : pystr) :
  (select_emails_with_global_cap emails targets c total_target g).1.2 !!! s
  = (c !!! s
     + sender_count s (select_emails_with_global_cap emails targets c total_target g).1.1)%nat
  ∧ (c !!! s ≤ (select_emails_with_global_cap emails targets c total_target g).1.2 !!! s)%nat
  ∧ (sender_count s emails = 0%nat →
     (select_emails_with_global_cap emails targets c total_target g).1.2 !!! s = c !!! s).
Proof.
  destruct (select_spec U randbelow emails targets c total_target g)
    as (_ & _ & _ & _ & Hcnt & _).
  specialize (Hcnt s). split_and!; [done|lia|].
  intros Hzero. rewrite Hcnt.
  rewrite sender_count_zero; [lia|].
  intros e He Hs. apply (select_subset U randbelow) in He.
  pose proof (sender_count_elem s emails e He Hs). lia.
Qed.

(** The acceptance loop takes every candidate while the cap cannot bind. *)
Lemma accept_loop_fills (shuffled : list email) (t m : nat) (sel0 : list email)
    (c0 : gmap pystr nat) :
  (∀ s, (c0 !!! s + sender_count s shuffled ≤ m)%nat) →
  (length sel0 ≤ t)%nat →
  length (accept_loop shuffled t m sel0 c0).1 = (t `min` (length sel0 + length shuffled))%nat.
Proof.
  revert sel0 c0. induction shuffled as [|e rest IH]; intros sel0 c0 Hslack Hlen.
  { simpl. lia. }
  open_accept_loop. case_bool_decide as Hfull; [simpl; lia|].
  pose proof (Hslack (extract_sender e)) as He.
  rewrite (sender_count_cons U), decide_True in He by done.
  rewrite bool_decide_eq_true_2 by lia.
  rewrite IH.
  - rewrite length_app. simpl. lia.
  - intros s. specialize (Hslack s). rewrite (sender_count_cons U) in Hslack.
    destruct (decide (extract_sender e = s)) as [Heq|Hne].
    + rewrite <- Heq, lookup_total_insert_eq. rewrite <- Heq in Hslack. lia.
    + rewrite lookup_total_insert_ne by done. lia.
  - rewrite length_app. simpl. lia.
Qed.

(** X3. When the cap cannot bind (for every sender, the count so far plus
    the number of its records among the candidates stays within the cap),
    a sampling call returns exactly [target_count] records, or all the
    candidates when there are fewer. *)
Theorem sample_fills_when_cap_is_slack (emails : list email)
    (target_count max_per_sender : nat) (global_sender_counts : gmap pystr nat) (g : rng) :
  (∀ s, (global_sender_counts !!! s + sender_count s emails ≤ max_per_sender)%nat) →
  length (sample_with_global_sender_cap emails target_count max_per_sender
            global_sender_counts g).1.1
  = (target_count `min` length emails)%nat.
Proof.
  intros Hslack. open_sample.
  pose proof (shuffle_perm randbelow emails g) as Hperm.
  destruct (shuffle randbelow emails g) as [shuffled g']. simpl in Hperm.
  pose proof (accept_loop_fills shuffled target_count max_per_sender []
                global_sender_counts) as Hfill.
  destruct (accept_loop shuffled target_count max_per_sender [] global_sender_counts)
    as [selected counts']. simpl in *.
  rewrite Hfill, Hperm; [done| |lia].
  intros s. rewrite (sender_count_perm s shuffled emails Hperm). apply Hslack.
Qed.

(** Why the acceptance loop can come back short. *)
Lemma accept_loop_short (shuffled : list email) (t m : nat) (sel0 : list email)
    (c0 : gmap pystr nat) :
  (length (accept_loop shuffled t m sel0 c0).1 < t)%nat →
  ∀ e, e ∈ shuffled →
       e ∈ (accept_loop shuffled t m sel0 c0).1
       ∨ (m ≤ (accept_loop shuffled t m sel0 c0).2 !!! extract_sender e)%nat.
Proof.
  revert sel0 c0. induction shuffled as [|e rest IH]; intros sel0 c0 Hshort e' He'.
  { by apply elem_of_nil in He'. }
  revert Hshort. open_accept_loop. case_bool_decide as Hfull; [simpl; lia|].
  case_bool_decide as Hcap; intros Hshort.
  - apply elem_of_cons in He' as [->|He']; [|by apply IH].
    left.
    destruct (accept_loop_spec U rest t m (sel0 ++ [e])
                (<[extract_sender e := (c0 !!! extract_sender e + 1)%nat]> c0))
      as (acc & -> & _).
    apply elem_of_app. left. apply elem_of_app. right. by left.
  - apply elem_of_cons in He' as [->|He']; [|by apply IH].
    right.
    destruct (accept_loop_spec U rest t m sel0 c0) as (acc & _ & _ & _ & Hcnt & _).
    rewrite Hcnt. lia.
Qed.

(** X4. When a sampling call returns fewer records than asked for, every
    candidate it left out belongs to a sender that has reached the cap: no
    candidate is passed over for any other reason. *)
Theorem short_sample_is_capped (emails : list email) (target_count max_per_sender : nat)
    (global_sender_counts : gmap pystr nat) (g : rng) :
  (length (sample_with_global_sender_cap emails target_count max_per_sender
             global_sender_counts g).1.1 < target_count)%nat →
  Forall (λ e,
    e ∈ (sample_with_global_sender_cap emails target_count max_per_sender
           global_sender_counts g).1.1
    ∨ (max_per_sender
       ≤ (sample_with_global_sender_cap emails target_count max_per_sender
            global_sender_counts g).1.2 !!! extract_sender e)%nat) emails.
Proof.
  open_sample.
  pose proof (shuffle_perm randbelow emails g) as Hperm.
  destruct (shuffle randbelow emails g) as [shuffled g']. simpl in Hperm.
  pose proof (accept_loop_short shuffled target_count max_per_sender []
                global_sender_counts) as Hshort.
  destruct (accept_loop shuffled target_count max_per_sender [] global_sender_counts)
    as [selected counts']. simpl in *.
  intros Hlt. apply Forall_forall. intros e He.
  apply (Hshort Hlt). by rewrite Hperm.
Qed.

Lemma bucket_count_app (b : pystr) (l k : list email) :
  bucket_count b (l ++ k) = (bucket_count b l + bucket_count b k)%nat.
Proof. open_bucket_count. by rewrite filter_app, length_app. Qed.

Lemma bucket_count_all (b : pystr) (l : list email) :
  (∀ e, e ∈ l → get_message_bucket e = b) → bucket_count b l = length l.
Proof.
  intros Hl. open_bucket_count. induction l as [|e l IH]; [done|].
  rewrite filter_cons, decide_True by (apply Hl; by left).
  simpl. rewrite IH; [done|]. intros e' He'. apply Hl. by right.
Qed.

Lemma bucket_count_none (b : pystr) (l : list email) :
  (∀ e, e ∈ l → get_message_bucket e ≠ b) → bucket_count b l = 0%nat.
Proof.
  intros Hl. open_bucket_count. induction l as [|e l IH]; [done|].
  rewrite filter_cons, decide_False by (apply Hl; by left).
  apply IH. intros e' He'. apply Hl. by right.
Qed.

(** The bucket passes, bucket by bucket: a bucket gets at most its target,
    and what it lacks is part of the shortfall. *)
Lemma bucket_loop_buckets (emails : list email) (targets : list (pystr * nat))
    (sel : list email) (sf : nat) (c : gmap pystr nat) (g : rng) :
  NoDup targets.*1 →
  ∃ added,
    (bucket_loop emails targets sel sf c g).1.1.1 = sel ++ added
    ∧ (sf ≤ (bucket_loop emails targets sel sf c g).1.1.2)%nat
    ∧ (∀ e, e ∈ added → get_message_bucket e ∈ targets.*1)
    ∧ ∀ b t, (b, t) ∈ targets →
        (bucket_count b added ≤ t)%nat
        ∧ (sf + (t - bucket_count b added)
           ≤ (bucket_loop emails targets sel sf c g).1.1.2)%nat.
Proof.
  revert sel sf c g.
  induction targets as [|[bucket target] rest IH]; intros sel sf c g Hkeys.
  { exists []. simpl. rewrite app_nil_r. split_and!; [done|done| |].
    - intros e He. by apply elem_of_nil in He.
    - intros b t Hin. by apply elem_of_nil in Hin. }
  rewrite fmap_cons in Hkeys. simpl in Hkeys.
  apply NoDup_cons in Hkeys as [Hfresh Hkeys].
  open_bucket_loop.
  pose proof (sample_spec U randbelow (filter (λ e, get_message_bucket e = bucket) emails)
                target MAX_PER_SENDER c g) as (Hlen & Hsub & _).
  destruct (sample_with_global_sender_cap _ target MAX_PER_SENDER c g)
    as [[sampled c'] g']. cbn [fst snd] in Hlen, Hsub.
  destruct (IH (sel ++ sampled) (sf + (target - length sampled))%nat c' g' Hkeys)
    as (added & Hsel & Hsf & Hin & Hbuckets).
  assert (∀ e, e ∈ sampled → get_message_bucket e = bucket) as Hsampled.
  { intros e He. apply (elem_of_submseteq _ _ _ He) in Hsub.
    by apply list_elem_of_filter in Hsub as [? _]. }
  exists (sampled ++ added). split_and!.
  - by rewrite Hsel, <- app_assoc.
  - lia.
  - intros e [He|He]%elem_of_app; rewrite fmap_cons; simpl.
    + rewrite (Hsampled e He). by left.
    + right. by apply Hin.
  - intros b t [Heq|Hin']%elem_of_cons.
    + injection Heq as -> ->.
      rewrite bucket_count_app, (bucket_count_all bucket sampled Hsampled).
      rewrite (bucket_count_none bucket added); [lia|].
      intros e He Hb. apply Hfresh. rewrite <- Hb. by apply Hin.
    + destruct (Hbuckets b t Hin') as [Hle Hshort].
      rewrite bucket_count_app, (bucket_count_none b sampled); [simpl; lia|].
      intros e He Hb. apply Hfresh. rewrite <- (Hsampled e He), Hb.
      apply list_elem_of_fmap. by exists (b, t).
Qed.

(** X5. Stratification: with distinct bucket names in the target table, a
    bucket other than 1-msg never holds more selected records than its
    target (the backfill only adds 1-msg records), no bucket does after
    the bucket passes alone, and when the passes leave no shortfall every
    bucket holds exactly its target. *)
Theorem buckets_respect_targets (emails : list email) (targets : list (pystr * nat))
    (c : gmap pystr nat) (total_target : nat) (g : rng) (b : pystr) (t : nat) :
  NoDup targets.*1 →
  (b, t) ∈ targets →
  (bucket_count b (bucket_loop emails targets [] O c g).1.1.1 ≤ t)%nat
  ∧ (b ≠ py "1-msg" →
     (bucket_count b (select_emails_with_global_cap emails targets c total_target g).1.1
      ≤ t)%nat)
  ∧ ((bucket_loop emails targets [] O c g).1.1.2 = 0%nat →
     bucket_count b (select_emails_with_global_cap emails targets c total_target g).1.1
     = t).
Proof.
  intros Hkeys Hin.
  destruct (bucket_loop_buckets emails targets [] O c g Hkeys)
    as (added & Hsel & _ & _ & Hbuckets).
  destruct (Hbuckets b t Hin) as [Hle Hshort].
  destruct (select_spec U randbelow emails targets c total_target g)
    as (additional & Hres & Hlen & Hsub & _).
  rewrite Hres, Hsel. simpl. rewrite !bucket_count_app.
  split_and!; [done| |].
  - intros Hb. rewrite (bucket_count_none b additional); [lia|].
    intros e He Hbe. apply (elem_of_submseteq _ _ _ He) in Hsub.
    apply (remaining_1msg_spec U) in Hsub as (_ & H1 & _).
    apply Hb. rewrite <- Hbe. exact H1.
  - intros Hzero. rewrite Hzero in Hlen, Hshort.
    destruct additional; [|simpl in Hlen; lia].
    rewrite (bucket_count_none b []); [lia|]. intros e He. by apply elem_of_nil in He.
Qed.

(** A sampling call that comes back short left out only capped senders. *)
Lemma sample_short (emails : list email) (t m : nat) (c0 : gmap pystr nat) (g : rng) :
  (length (sample_with_global_sender_cap emails t m c0 g).1.1 < t)%nat →
  ∀ e, e ∈ emails →
       e ∈ (sample_with_global_sender_cap emails t m c0 g).1.1
       ∨ (m ≤ (sample_with_global_sender_cap emails t m c0 g).1.2 !!! extract_sender e)%nat.
Proof.
  open_sample.
  pose proof (shuffle_perm randbelow emails g) as Hperm.
  destruct (shuffle randbelow emails g) as [shuffled g']. simpl in Hperm.
  pose proof (accept_loop_short shuffled t m [] c0) as Hshort.
  destruct (accept_loop shuffled t m [] c0) as [selected counts']. simpl in *.
  intros Hlt e He. apply (Hshort Hlt). by rewrite Hperm.
Qed.

(** A sampling call whose cap cannot bind returns all it is asked for. *)
Lemma sample_fills (emails : list email) (t m : nat) (c0 : gmap pystr nat) (g : rng) :
  (∀ s, (c0 !!! s + sender_count s emails ≤ m)%nat) →
  length (sample_with_global_sender_cap emails t m c0 g).1.1
  = (t `min` length emails)%nat.
Proof.
  intros Hslack. open_sample.
  pose proof (shuffle_perm randbelow emails g) as Hperm.
  destruct (shuffle randbelow emails g) as [shuffled g']. simpl in Hperm.
  pose proof (accept_loop_fills shuffled t m [] c0) as Hfill.
  destruct (accept_loop shuffled t m [] c0) as [selected counts']. simpl in *.
  rewrite Hfill, Hperm; [done| |lia].
  intros s. rewrite (sender_count_perm s shuffled emails Hperm). apply Hslack.
Qed.

(** C7. Backfill: when the bucket passes leave a positive shortfall, the
    selection is the passes' records followed by additional records, at
    most [shortfall] of them, each a 1-msg email of the pool whose id no
    pass selected, none taken more often than the pool holds it, and each
    counted against its sender like any other.  The backfill does draw:
    as long as it stays below the shortfall, every 1-msg email of the pool
    with an unselected id is among the additional records unless its
    sender has reached the cap; and when the cap cannot bind it adds
    exactly [shortfall] records, or all such emails when there are fewer.
    A backfill that stays short makes the selection smaller than the sum
    of the targets, and the function returns all the same. *)
Theorem backfill_from_1msg (emails : list email) (targets : list (pystr * nat))
    (c : gmap pystr nat) (total_target : nat) (g : rng) :
  let passes := bucket_loop emails targets [] O c g in
  let eligible :=
    filter (λ e, get_message_bucket e = py "1-msg"
                 ∧ thread_id e ∉ thread_id <$> passes.1.1.1) emails in
  (0 < passes.1.1.2)%nat →
  ∃ additional c' g',
    select_emails_with_global_cap emails targets c total_target g
    = (passes.1.1.1 ++ additional, c', g')
    ∧ (∀ e, e ∈ additional →
            e ∈ emails ∧ get_message_bucket e = py "1-msg"
            ∧ thread_id e ∉ thread_id <$> passes.1.1.1)
    ∧ additional ⊆+ eligible
    ∧ (length additional ≤ passes.1.1.2)%nat
    ∧ (∀ s, c' !!! s = (passes.1.2 !!! s + sender_count s additional)%nat)
    ∧ (∀ s, (passes.1.2 !!! s ≤ MAX_PER_SENDER)%nat → (c' !!! s ≤ MAX_PER_SENDER)%nat)
    ∧ ((length additional < passes.1.1.2)%nat →
       ∀ e, e ∈ eligible →
            e ∈ additional ∨ (MAX_PER_SENDER ≤ c' !!! extract_sender e)%nat)
    ∧ ((∀ s, (passes.1.2 !!! s + sender_count s eligible ≤ MAX_PER_SENDER)%nat) →
       length additional = (passes.1.1.2 `min` length eligible)%nat)
    ∧ ((length additional < passes.1.1.2)%nat →
       (length (passes.1.1.1 ++ additional) < sum_targets targets)%nat).
Proof.
  intros passes eligible Hshort.
  destruct (bucket_loop_spec U randbelow emails targets [] O c g)
    as (added & Hsel & Hsf & _).
  open_select. fold passes in Hsel, Hsf |- *.
  change eligible with (remaining_1msg emails passes.1.1.1).
  destruct passes as [[[selected shortfall] c1] g1]. cbn [fst snd] in *.
  rewrite bool_decide_eq_true_2 by done.
  pose proof (sample_spec U randbelow (remaining_1msg emails selected) shortfall
                MAX_PER_SENDER c1 g1) as (Hlen & Hsub & Hcnt & Hmax).
  pose proof (sample_short (remaining_1msg emails selected) shortfall MAX_PER_SENDER
                c1 g1) as Hprogress.
  pose proof (sample_fills (remaining_1msg emails selected) shortfall MAX_PER_SENDER
                c1 g1) as Hfills.
  destruct (sample_with_global_sender_cap _ shortfall MAX_PER_SENDER c1 g1)
    as [[additional c2] g2]. cbn [fst snd] in *.
  exists additional, c2, g2. split_and!; [done| |done|done|done|done|done|done|].
  - intros e He. apply (elem_of_submseteq _ _ _ He) in Hsub.
    by apply (remaining_1msg_spec U) in Hsub.
  - intros Hlt. simpl in Hsel. subst selected. rewrite length_app. lia.
Qed.

End SamplerMore.

(** ** The filters, the merger's output and the cleaning loop *)

Ltac open_is_ignored := unfold is_ignored.
Ltac open_filter_pool := unfold filter_pool.
Ltac open_main_with_filters := unfold main_with_filters.
Ltac open_load_ignore_list := unfold load_ignore_list.
Ltac open_get_year := unfold get_year.

Section ScriptFacts.
Context (U : unicode_db) (uni_todecimal : N → option N).
Context {rng : Type} (seed : Z → rng) (randbelow : rng → nat → nat * rng).

Local Abbreviation is_ignored := (is_ignored U).
Local Abbreviation get_year := (get_year uni_todecimal).
Local Abbreviation load_ignore_list := (load_ignore_list U).
Local Abbreviation filter_pool := (filter_pool U uni_todecimal).
Local Abbreviation main_with_filters := (main_with_filters U uni_todecimal seed randbelow).
Local Abbreviation main := (main U seed randbelow).

Lemma main_categories (g0 : rng) (pool : list email) (e : email) :
  e ∈ main g0 pool →
  e ∈ pool ∧ (personal_or_work e = py "work" ∨ personal_or_work e = py "personal").
Proof.
  rewrite (main_eq U seed randbelow). cbv zeta.
  intros [He|He]%elem_of_app; apply (select_subset U randbelow) in He;
    apply list_elem_of_filter in He as [Hc Hp]; split; auto.
Qed.

Lemma main_length (g0 : rng) (pool : list email) : (length (main g0 pool) ≤ 350)%nat.
Proof.
  rewrite (main_eq U seed randbelow). cbv zeta. rewrite length_app.
  pose proof (select_length U randbelow
                (filter (λ e, personal_or_work e = py "work") pool)
                WORK_TARGETS ∅ 200 (seed 42)) as Hw.
  set (first := select_emails_with_global_cap U randbelow _ WORK_TARGETS ∅ 200 (seed 42))
    in *.
  pose proof (select_length U randbelow
                (filter (λ e, personal_or_work e = py "personal") pool)
                PERSONAL_TARGETS first.1.2 150 first.2) as Hp.
  change (sum_targets WORK_TARGETS) with 200%nat in Hw.
  change (sum_targets PERSONAL_TARGETS) with 150%nat in Hp.
  lia.
Qed.

(** X6. Every record that [main] selects comes from the loaded records, is
    not hit by the ignore list, has year 2025, has at most [MAX_CHARS]
    characters of content and is a work or a personal record (records of
    any other category are never selected); and at most 350 records are
    selected. *)
Theorem selected_pass_all_filters (g0 : rng) (emails : list email)
    (ignore_list : ignore_json) :
  Forall (λ e,
    e ∈ emails
    ∧ is_ignored e (load_ignore_list ignore_list).1.1 (load_ignore_list ignore_list).1.2
        (load_ignore_list ignore_list).2 = false
    ∧ get_year e = Some 2025%Z
    ∧ (N.of_nat (length (full_content e)) ≤ MAX_CHARS)%N
    ∧ (personal_or_work e = py "work" ∨ personal_or_work e = py "personal"))
    (main_with_filters g0 emails ignore_list)
  ∧ (length (main_with_filters g0 emails ignore_list) ≤ 350)%nat.
Proof.
  open_main_with_filters.
  destruct (load_ignore_list ignore_list) as [[senders domains] patterns]. cbn [fst snd].
  split; [|apply main_length].
  apply Forall_forall. intros e He.
  apply main_categories in He as [He Hcat].
  revert He. open_filter_pool. cbv zeta.
  rewrite !list_elem_of_filter. tauto.
Qed.

Lemma existsb_elem {A} (f : A → bool) (l : list A) (x : A) :
  x ∈ l → f x = true → existsb f l = true.
Proof.
  intros Hx Hf. induction l as [|y l IH]; [by apply elem_of_nil in Hx|].
  simpl. apply elem_of_cons in Hx as [->|Hx]; [by rewrite Hf|].
  rewrite IH by done. apply orb_true_r.
Qed.

Lemma existsb_elem_inv {A} (f : A → bool) (l : list A) :
  existsb f l = true → ∃ x, x ∈ l ∧ f x = true.
Proof.
  induction l as [|y l IH]; [done|]. simpl.
  intros [Hy|Hl]%orb_prop.
  - exists y. split; [by left|done].
  - destruct (IH Hl) as (x & Hx & Hf). exists x. split; [by right|done].
Qed.

Lemma contains_empty (text : pystr) : contains [] text = true.
Proof. by destruct text. Qed.

Lemma lower_empty : lower U [] = [].
Proof. reflexivity. Qed.

(** X7. An empty string among the entries of any of the three ignore lists
    makes every record ignored: the empty string is a substring of every
    field. *)
Theorem empty_ignore_entry_ignores_all (ignore_list : ignore_json) (e : email) :
  [] ∈ default [] (json_ignored_senders ignore_list)
  ∨ [] ∈ default [] (json_ignored_domains ignore_list)
  ∨ [] ∈ default [] (json_ignored_subject_patterns ignore_list) →
  is_ignored e (load_ignore_list ignore_list).1.1 (load_ignore_list ignore_list).1.2
    (load_ignore_list ignore_list).2 = true.
Proof.
  intros Hempty. open_load_ignore_list. cbn [fst snd]. open_is_ignored. cbv zeta.
  destruct Hempty as [H|[H|H]].
  - rewrite (existsb_elem _ _ []); [done| |by rewrite contains_empty].
    apply elem_of_elements, elem_of_list_to_set, list_elem_of_fmap.
    exists []. by rewrite lower_empty.
  - rewrite (existsb_elem _ (elements (list_to_set (lower U <$> default [] (json_ignored_domains ignore_list)))) []);
      [by rewrite orb_true_r| |by rewrite contains_empty].
    apply elem_of_elements, elem_of_list_to_set, list_elem_of_fmap.
    exists []. by rewrite lower_empty.
  - rewrite (existsb_elem _ (lower U <$> default [] (json_ignored_subject_patterns ignore_list)) []);
      [by rewrite orb_true_r| |by rewrite contains_empty].
    apply list_elem_of_fmap. exists []. by rewrite lower_empty.
Qed.

(** X8. Growing the ignore lists never lets a record back in: a record that
    is ignored stays ignored under any larger lists. *)
Theorem ignore_lists_monotone (e : email) (senders senders' domains domains' : gset pystr)
    (patterns patterns' : list pystr) :
  senders ⊆ senders' → domains ⊆ domains' → patterns ⊆ patterns' →
  is_ignored e senders domains patterns = true →
  is_ignored e senders' domains' patterns' = true.
Proof.
  intros Hs Hd Hp. open_is_ignored. cbv zeta.
  intros [[H|H]%orb_prop|H]%orb_prop;
    apply existsb_elem_inv in H as (x & Hx & Hf).
  - rewrite (existsb_elem _ (elements senders') x); [done| |done].
    apply elem_of_elements, Hs. by apply elem_of_elements.
  - rewrite (existsb_elem _ (elements domains') x); [by rewrite orb_true_r| |done].
    apply elem_of_elements, Hd. by apply elem_of_elements.
  - rewrite (existsb_elem _ patterns' x); [by rewrite orb_true_r| |done].
    by apply Hp.
Qed.

Lemma digit_below_127 (d : N) : ascii_isdigit d = true → (d <? 127) = true.
Proof.
  intros H. pose proof (ascii_digit_cases d H) as Hc.
  destruct_or! Hc; subst d; reflexivity.
Qed.

Lemma digit_not_c_space (d : N) : ascii_isdigit d = true → c_isspace d = false.
Proof.
  intros H. pose proof (ascii_digit_cases d H) as Hc.
  destruct_or! Hc; subst d; reflexivity.
Qed.

Lemma digit_not_underscore (d : N) : ascii_isdigit d = true → (d =? 95) = false.
Proof.
  intros H. pose proof (ascii_digit_cases d H) as Hc.
  destruct_or! Hc; subst d; reflexivity.
Qed.

(** X9. Year of a record: a 'time' field that starts with four ASCII
    digits has the number they spell as its year, whatever follows them (so
    a field that starts with 2025 passes the year filter); an empty 'time'
    field has no year. *)
Theorem get_year_of_timestamp (e : email) (a b c d : N) (rest : pystr) :
  time e = a :: b :: c :: d :: rest →
  ascii_isdigit a = true → ascii_isdigit b = true →
  ascii_isdigit c = true → ascii_isdigit d = true →
  get_year e
  = Some (1000 * Z.of_N (a - 48) + 100 * Z.of_N (b - 48) + 10 * Z.of_N (c - 48)
          + Z.of_N (d - 48))%Z
  ∧ (∀ e', time e' = [] → get_year e' = None)
  ∧ (∀ e' rest', time e' = py "2025" ++ rest' → get_year e' = Some 2025%Z).
Proof.
  intros Ht Ha Hb Hc Hd. split_and!.
  - open_get_year. rewrite Ht. cbn [is_empty negb].
    change (take 4 (a :: b :: c :: d :: rest)) with [a; b; c; d].
    unfold py_int. cbn [int_transform].
    rewrite !digit_below_127 by done. cbn [skip_spaces].
    rewrite (digit_not_c_space a) by done.
    pose proof (ascii_digit_cases a Ha) as Hcases.
    destruct_or! Hcases; subst a; cbn [int_digits ascii_isdigit];
      rewrite ?Hb, ?Hc, ?Hd; cbn [int_digits mbind option_bind skip_spaces];
      rewrite ?Hb, ?Hc, ?Hd; cbn; f_equal; lia.
  - intros e' Ht'. open_get_year. by rewrite Ht'.
  - intros e' rest' Ht'. open_get_year. by rewrite Ht'.
Qed.

(** *** The merger's output *)

Lemma insert_by_key_perm (x : merged) (l : list merged) : insert_by_key x l ≡ₚ x :: l.
Proof.
  induction l as [|y l IH]; simpl; [done|].
  destruct (sort_key x <=? sort_key y)%Z; [done|].
  rewrite IH. apply Permutation_swap.
Qed.

Lemma sort_by_key_perm (l : list merged) : sort_by_key l ≡ₚ l.
Proof.
  induction l as [|x l IH]; simpl; [done|]. by rewrite insert_by_key_perm, IH.
Qed.

Lemma insert_by_key_sorted (x : merged) (l : list merged) :
  StronglySorted (λ a b, (out_num_memories b ≤ out_num_memories a)%Z) l →
  StronglySorted (λ a b, (out_num_memories b ≤ out_num_memories a)%Z) (insert_by_key x l).
Proof.
  induction l as [|y l IH]; simpl; intros Hl.
  { by repeat constructor. }
  apply StronglySorted_inv in Hl as [Hl Hy].
  destruct (Z.leb_spec (sort_key x) (sort_key y)) as [Hle|Hgt]; unfold sort_key in *.
  - constructor; [by constructor|].
    constructor; [lia|]. eapply Forall_impl; [exact Hy|]. simpl. intros z Hz. lia.
  - constructor; [by apply IH|].
    rewrite insert_by_key_perm. constructor; [lia|done].
Qed.

Lemma sort_by_key_sorted (l : list merged) :
  StronglySorted (λ a b, (out_num_memories b ≤ out_num_memories a)%Z) (sort_by_key l).
Proof.
  induction l as [|x l IH]; simpl; [constructor|]. by apply insert_by_key_sorted.
Qed.

Lemma insert_by_key_stable (k : Z) (x : merged) (l : list merged) :
  filter (λ e, out_num_memories e = k) (insert_by_key x l)
  = filter (λ e, out_num_memories e = k) (x :: l).
Proof.
  induction l as [|y l IH]; simpl; [done|].
  destruct (Z.leb_spec (sort_key x) (sort_key y)) as [Hle|Hgt]; [done|].
  unfold sort_key in Hgt.
  rewrite (filter_cons _ y), IH, !filter_cons.
  destruct (decide (out_num_memories y = k)), (decide (out_num_memories x = k)); try done.
  lia.
Qed.

Lemma sort_by_key_stable (k : Z) (l : list merged) :
  filter (λ e, out_num_memories e = k) (sort_by_key l)
  = filter (λ e, out_num_memories e = k) l.
Proof.
  induction l as [|x l IH]; simpl; [done|].
  by rewrite insert_by_key_stable, !filter_cons, IH.
Qed.

(** The loop returns the records of its rows, one for one. *)
Lemma merge_returns (json_loads : pystr → json_shape) (content_map : gmap pystr cell)
    (rows : list meta_row) (emails : list merged) :
  merge json_loads content_map rows = Returns emails →
  Forall2 (λ row e, merge_row json_loads content_map row = Returns e) rows emails.
Proof.
  revert emails. induction rows as [|row rows IH]; intros emails; cbn [merge].
  { intros [= <-]. constructor. }
  destruct (merge_row json_loads content_map row) as [r|] eqn:Hrow; [|done].
  destruct (merge json_loads content_map rows) as [rs|]; [|done].
  intros [= <-]. constructor; [done|by apply IH].
Qed.

(** X10. What [prepare_data.py] writes: exactly one record per metadata
    row, whether or not the row has content; ordered by [num_memories],
    largest first; records with the same [num_memories] in the order of
    their rows; the [matched] counter is the number of records with a
    non-empty body. *)
Theorem emails_json_order (json_loads : pystr → json_shape)
    (content_map : gmap pystr cell) (rows : list meta_row) (out : list merged) :
  emails_json json_loads content_map rows = Returns out →
  out_thread_id <$> out ≡ₚ row_thread_id <$> rows
  ∧ length out = length rows
  ∧ StronglySorted (λ a b, (out_num_memories b ≤ out_num_memories a)%Z) out
  ∧ (∀ k, Forall2 (λ row e, merge_row json_loads content_map row = Returns e)
            (filter (λ row, row_num_memories row = NumFinite k) rows)
            (filter (λ e, out_num_memories e = k) out))
  ∧ length (filter (λ e, out_full_content e ≠ CText []) out) = matched content_map rows.
Proof.
  unfold emails_json.
  destruct (merge json_loads content_map rows) as [emails|] eqn:Hmerge; [|done].
  intros [= <-]. apply merge_returns in Hmerge. split_and!.
  - rewrite sort_by_key_perm. clear -Hmerge.
    induction Hmerge as [|row e rows emails Hrow _ IH]; [done|].
    destruct (merge_row_returns _ _ _ _ Hrow) as (Hid & _).
    by rewrite !fmap_cons, Hid, IH.
  - rewrite sort_by_key_perm. symmetry. by eapply Forall2_length.
  - apply sort_by_key_sorted.
  - intros k. rewrite sort_by_key_stable. clear -Hmerge.
    induction Hmerge as [|row e rows emails Hrow _ IH]; [constructor|].
    destruct (merge_row_returns _ _ _ _ Hrow) as (_ & Hnum & _).
    rewrite !filter_cons.
    destruct (decide (out_num_memories e = k)) as [Hk|Hk].
    + rewrite decide_True by (by rewrite Hnum, Hk). by constructor.
    + rewrite decide_False; [done|]. rewrite Hnum. by intros [= ?].
  - rewrite sort_by_key_perm. unfold matched. clear -Hmerge.
    induction Hmerge as [|row e rows emails Hrow _ IH]; [done|].
    destruct (merge_row_returns _ _ _ _ Hrow) as (_ & _ & Hfull & Hiff & _).
    rewrite !filter_cons, <- Hfull.
    destruct (decide (out_full_content e ≠ CText [])) as [H1|H1];
      destruct (decide (truthy (out_full_content e) = true)) as [H2|H2];
      simpl; rewrite ?IH; try done.
    + destruct H2. by apply Hiff.
    + destruct H1. by apply Hiff.
Qed.

(** *** Parsed header fields *)

Lemma lstrip_head (s : pystr) (c : N) (t : pystr) :
  lstrip s = c :: t → isspace c = false.
Proof.
  induction s as [|a s IH]; simpl; [done|].
  destruct (isspace a) eqn:Ha; [done|]. intros [= <- _]. done.
Qed.

Lemma lstrip_suffix (s : pystr) : ∃ pre, s = pre ++ lstrip s.
Proof.
  induction s as [|a s [pre IH]]; simpl; [by exists []|].
  destruct (isspace a); [|by exists []].
  exists (a :: pre). simpl. by rewrite <- IH.
Qed.

Lemma strip_no_outer_space (s : pystr) : no_outer_space (strip s) = true.
Proof.
  unfold strip, rstrip, no_outer_space. rewrite rev_involutive.
  destruct (lstrip_suffix (rev (lstrip s))) as [pre Hpre].
  remember (lstrip (rev (lstrip s))) as b eqn:Hb.
  apply andb_true_intro. split.
  - destruct (rev b) as [|z r] eqn:Hr; [done|].
    apply (f_equal (@rev N)) in Hpre.
    rewrite rev_involutive, rev_app_distr, Hr in Hpre. simpl in Hpre.
    by rewrite (lstrip_head _ _ _ Hpre).
  - destruct b as [|c t]; [done|]. symmetry in Hb.
    by rewrite (lstrip_head _ _ _ Hb).
Qed.

Lemma first_value_no_outer_space (prefix : pystr) (lines : list pystr) :
  no_outer_space (first_value prefix lines) = true.
Proof.
  unfold first_value. destruct (find _ lines); [|done].
  apply strip_no_outer_space.
Qed.

(** X11. The 'from', 'to', 'subject' and 'time' of a merged record never
    start or end with white space. *)
Theorem parsed_fields_are_stripped (json_loads : pystr → json_shape)
    (content_map : gmap pystr cell) (row : meta_row) (rec : merged) :
  merge_row json_loads content_map row = Returns rec →
  no_outer_space (out_from rec) = true
  ∧ no_outer_space (out_to rec) = true
  ∧ no_outer_space (out_subject rec) = true
  ∧ no_outer_space (out_time rec) = true.
Proof.
  intros Hrec.
  destruct (merge_row_returns _ _ _ _ Hrec)
    as (_ & _ & _ & _ & text & _ & -> & -> & -> & ->).
  destruct (parse_headers_fields text) as (-> & -> & -> & ->).
  split_and!; apply first_value_no_outer_space.
Qed.

(** *** Lines *)

Lemma split_on_no_sep (sep : N) (l : pystr) : sep ∉ l → split_on sep l = [l].
Proof.
  induction l as [|c l IH]; [done|]. intros Hnot. simpl.
  destruct (N.eqb_spec c sep) as [->|Hc]; [destruct Hnot; by left|].
  rewrite IH; [done|]. intros Hin. apply Hnot. by right.
Qed.

Lemma split_on_app_sep (sep : N) (l t : pystr) :
  sep ∉ l → split_on sep (l ++ sep :: t) = l :: split_on sep t.
Proof.
  induction l as [|c l IH]; intros Hnot; simpl.
  { by rewrite N.eqb_refl. }
  destruct (N.eqb_spec c sep) as [->|Hc]; [destruct Hnot; by left|].
  rewrite IH; [done|]. intros Hin. apply Hnot. by right.
Qed.

(** [sep.join(lines).split(sep) == lines] for lines without [sep] *)
Lemma split_on_join (sep : N) (lines : list pystr) :
  lines ≠ [] → Forall (λ l, sep ∉ l) lines →
  split_on sep (join [sep] lines) = lines.
Proof.
  induction lines as [|l lines IH]; [done|]. intros _ Hall.
  apply Forall_cons in Hall as [Hl Hall].
  destruct lines as [|l2 lines]; [by apply split_on_no_sep|].
  change (join [sep] (l :: l2 :: lines)) with (l ++ sep :: join [sep] (l2 :: lines)).
  rewrite split_on_app_sep by done. by rewrite IH.
Qed.

Lemma split_on_join_app (sep : N) (lines : list pystr) (tail : pystr) :
  lines ≠ [] → Forall (λ l, sep ∉ l) lines →
  split_on sep (join [sep] lines ++ sep :: tail) = lines ++ split_on sep tail.
Proof.
  induction lines as [|l lines IH]; [done|]. intros _ Hall.
  apply Forall_cons in Hall as [Hl Hall].
  destruct lines as [|l2 lines]; [by apply split_on_app_sep|].
  change (join [sep] (l :: l2 :: lines)) with (l ++ sep :: join [sep] (l2 :: lines)).
  replace ((l ++ sep :: join [sep] (l2 :: lines)) ++ sep :: tail)
    with (l ++ sep :: (join [sep] (l2 :: lines) ++ sep :: tail))
    by (by rewrite <- app_assoc).
  rewrite split_on_app_sep by done. by rewrite IH.
Qed.

Lemma split_on_lines (sep : N) (text : pystr) : Forall (λ l, sep ∉ l) (split_on sep text).
Proof.
  induction text as [|c t IH]; simpl.
  { constructor; [|constructor]. apply not_elem_of_nil. }
  destruct (N.eqb_spec c sep) as [->|Hc].
  - constructor; [apply not_elem_of_nil|done].
  - pose proof (split_on_nonempty sep t) as Hne.
    destruct (split_on sep t) as [|l ls]; [done|].
    apply Forall_cons in IH as [Hl Hls]. constructor; [|done].
    intros [?|?]%elem_of_cons; done.
Qed.

(** X12. The merger reads headers from the first 20 lines only: whatever
    follows the 20th line, header lines included, has no effect on the
    parsed fields. *)
Theorem headers_after_line_20_are_ignored (first : list pystr) (tail : pystr) :
  length first = 20%nat →
  Forall (λ l, 10 ∉ l) first →
  parse_headers (join (py "\n") first ++ py "\n" ++ tail)
  = parse_headers (join (py "\n") first).
Proof.
  intros Hlen Hall. unfold parse_headers.
  change (py "\n") with [10]. simpl app at 1.
  assert (first ≠ []) as Hne by (by destruct first).
  change ([10] ++ tail) with (10 :: tail).
  rewrite split_on_join_app, split_on_join by done.
  rewrite <- Hlen at 1. rewrite take_app_length.
  by rewrite <- Hlen, firstn_all.
Qed.

(** *** Quoted replies *)

Lemma quoted_lines_spec (lines : list pystr) (in_deep_quote : bool) :
  Forall (λ l, l ∈ lines ∨ l = py "[Previous messages truncated]")
    (quoted_lines lines in_deep_quote)
  ∧ forallb (λ line, bool_decide (quote_depth line ≤ 1)%nat)
      (quoted_lines lines in_deep_quote) = true
  ∧ (length (quoted_lines lines in_deep_quote) ≤ length lines)%nat
  ∧ filter (λ line, (quote_depth line ≤ 1)%nat) lines
      `sublist_of` quoted_lines lines in_deep_quote.
Proof.
  revert in_deep_quote. induction lines as [|line lines IH]; intros b.
  { simpl. split_and!; [constructor|done|done|done]. }
  simpl. rewrite filter_cons.
  case_bool_decide as Hd.
  - destruct (IH false) as (Hin & Hsh & Hlen & Hsub).
    rewrite decide_True by done. split_and!.
    + constructor; [left; by left|].
      eapply Forall_impl; [exact Hin|]. intros l [?|?]; [left; by right|by right].
    + simpl. by rewrite bool_decide_eq_true_2, Hsh.
    + simpl. lia.
    + by apply sublist_skip.
  - rewrite decide_False by done. destruct b; simpl.
    + destruct (IH true) as (Hin & Hsh & Hlen & Hsub). split_and!; [|done|lia|done].
      eapply Forall_impl; [exact Hin|]. intros l [?|?]; [left; by right|by right].
    + destruct (IH true) as (Hin & Hsh & Hlen & Hsub). split_and!.
      * constructor; [by right|].
        eapply Forall_impl; [exact Hin|]. intros l [?|?]; [left; by right|by right].
      * by rewrite Hsh.
      * lia.
      * by apply sublist_cons.
Qed.

Lemma quoted_lines_no_newline (lines : list pystr) (in_deep_quote : bool) :
  Forall (λ l, 10 ∉ l) lines → Forall (λ l, 10 ∉ l) (quoted_lines lines in_deep_quote).
Proof.
  intros Hall. destruct (quoted_lines_spec lines in_deep_quote) as (Hin & _).
  eapply Forall_impl; [exact Hin|]. intros l [Hl| ->].
  - by apply (proj1 (Forall_forall _ _) Hall).
  - compute_done.
Qed.

Lemma quoted_lines_nonempty (lines : list pystr) :
  lines ≠ [] → quoted_lines lines false ≠ [].
Proof. destruct lines as [|l ls]; [done|]. intros _. simpl. by case_bool_decide. Qed.

(** The lines of the result are what the line loop produced. *)
Lemma simplify_quoted_replies_lines (text : pystr) :
  split_on 10 (simplify_quoted_replies text) = quoted_lines (split_on 10 text) false.
Proof.
  unfold simplify_quoted_replies. change (py "\n") with [10].
  apply split_on_join.
  - apply quoted_lines_nonempty, split_on_nonempty.
  - apply quoted_lines_no_newline, split_on_lines.
Qed.

(** X13. After [simplify_quoted_replies] no line is quoted two levels deep
    or more, and applying it again changes nothing. *)
Theorem simplify_quoted_replies_idempotent (text : pystr) :
  no_deep_quote (simplify_quoted_replies text) = true
  ∧ simplify_quoted_replies (simplify_quoted_replies text) = simplify_quoted_replies text.
Proof.
  assert (no_deep_quote (simplify_quoted_replies text) = true) as Hshallow.
  { unfold no_deep_quote. rewrite simplify_quoted_replies_lines.
    apply quoted_lines_spec. }
  split; [done|]. by apply simplify_quoted_replies_inert.
Qed.

(** X14. [simplify_quoted_replies] never drops or reorders a line that is
    quoted at most one level deep, never adds a line other than the
    truncation marker, and never returns more lines than it was given. *)
Theorem simplify_quoted_replies_keeps_shallow_lines (text : pystr) :
  filter (λ line, (quote_depth line ≤ 1)%nat) (split_on 10 text)
    `sublist_of` split_on 10 (simplify_quoted_replies text)
  ∧ Forall (λ l, l ∈ split_on 10 text ∨ l = py "[Previous messages truncated]")
      (split_on 10 (simplify_quoted_replies text))
  ∧ (length (split_on 10 (simplify_quoted_replies text)) ≤ length (split_on 10 text))%nat.
Proof.
  rewrite simplify_quoted_replies_lines.
  destruct (quoted_lines_spec (split_on 10 text) false) as (Hin & _ & Hlen & Hsub).
  done.
Qed.

(** *** The cleaning loop *)

(** X15. Cleaning the selected records succeeds for every list of records;
    it returns as many records, in the same order, each with the cleaned
    text of its body and every other field as it was, so thread ids,
    categories and sender keys are unchanged. *)
Theorem clean_all_preserves_records (emails : list email) :
  ∃ cleaned,
    clean_all U emails = Some cleaned
    ∧ Forall2 (λ e e', clean_email_content U (full_content e) = Some (full_content e')
                       ∧ e' = set_full_content e (full_content e')) emails cleaned
    ∧ thread_id <$> cleaned = thread_id <$> emails
    ∧ personal_or_work <$> cleaned = personal_or_work <$> emails
    ∧ extract_sender U <$> cleaned = extract_sender U <$> emails.
Proof.
  assert (∃ cleaned,
            Forall2 (λ e e', clean_email_content U (full_content e) = Some (full_content e')
                             ∧ e' = set_full_content e (full_content e')) emails cleaned)
    as [cleaned Hall].
  { induction emails as [|e emails [cleaned IH]]; [exists []; constructor|].
    destruct (clean_email_content_total U (full_content e)) as [c Hclean].
    exists (set_full_content e c :: cleaned).
    constructor; [split; [exact Hclean|reflexivity]|exact IH]. }
  exists cleaned. split_and!; [|exact Hall|..].
  - unfold clean_all. apply mapM_Some_2.
    eapply Forall2_impl; [exact Hall|]. cbv beta. intros e e' [Hclean Heq].
    rewrite Hclean. cbn [mbind option_bind]. by rewrite <- Heq.
  - induction Hall as [|e e' l k [_ ->] _ IH]; [done|]. by rewrite !fmap_cons, IH.
  - induction Hall as [|e e' l k [_ ->] _ IH]; [done|]. by rewrite !fmap_cons, IH.
  - induction Hall as [|e e' l k [_ ->] _ IH]; [done|]. by rewrite !fmap_cons, IH.
Qed.

End ScriptFacts.

(** ** The two patterns of the sampler *)

Section RegexFacts.
Context (U : unicode_db).

Lemma rmatch_rep_set (fl : flags) (greedy : bool) (lo : nat) (hi : option nat)
    (neg : bool) (items : list citem) (st : mstate) (k : mstate → option mstate) :
  rmatch U fl (RRep greedy lo hi (RSet neg items)) st k
  = set_must greedy (λ c, xorb neg (existsb (in_item U c) items)) k lo hi lo st.
Proof. reflexivity. Qed.

Lemma consumes_refl (st : mstate) : consumes st [] st.
Proof. split; [done|simpl; lia]. Qed.

Lemma consumes_advance (st st' : mstate) (c : N) (t consumed : pystr) :
  ms_rest st = c :: t → consumes (advance st c t) consumed st' →
  consumes st (c :: consumed) st'.
Proof.
  intros Hrest [H1 H2]. split; simpl in *; [by rewrite Hrest, H1|lia].
Qed.

Lemma eat_some (st : mstate) (ok : N → bool) (k : mstate → option mstate)
    (res : mstate) :
  eat st ok k = Some res →
  ∃ c t, ms_rest st = c :: t ∧ ok c = true ∧ k (advance st c t) = Some res.
Proof.
  unfold eat. destruct (ms_rest st) as [|c t]; [done|].
  destruct (ok c) eqn:Hok; [|done]. intros H. by exists c, t.
Qed.

Lemma set_more_sound (greedy : bool) (ok : N → bool) (k : mstate → option mstate)
    (fuel : nat) (budget : option nat) (st res : mstate) :
  set_more greedy ok k fuel budget st = Some res →
  ∃ consumed st', consumes st consumed st' ∧ Forall (λ c, ok c = true) consumed
                  ∧ k st' = Some res.
Proof.
  revert budget st. induction fuel as [|fuel IH]; intros budget st; cbn [set_more].
  { intros H. exists [], st. split_and!; [apply consumes_refl|done|done]. }
  fold (set_more greedy ok k).
  assert (∀ again,
    (again = Some res → ∃ consumed st', consumes st consumed st'
        ∧ Forall (λ c, ok c = true) consumed ∧ k st' = Some res) →
    (if greedy then orelse again (k st) else orelse (k st) again) = Some res →
    ∃ consumed st', consumes st consumed st'
        ∧ Forall (λ c, ok c = true) consumed ∧ k st' = Some res) as Hcase.
  { intros again Hagain H.
    assert (again = Some res ∨ k st = Some res) as [Ha|Hk].
    { destruct greedy, again, (k st); simpl in H; auto. }
    - by apply Hagain.
    - exists [], st. split_and!; [apply consumes_refl|done|done]. }
  apply Hcase. intros Hagain.
  assert (eat st ok (λ st', if bool_decide (ms_pos st' = ms_pos st) then None
                            else set_more greedy ok k fuel (pred <$> budget) st')
          = Some res) as Heat.
  { destruct budget as [[|b]|]; done. }
  apply eat_some in Heat as (c & t & Hrest & Hok & Hk).
  case_bool_decide; [done|].
  apply IH in Hk as (consumed & st' & Hcons & Hall & Hk).
  exists (c :: consumed), st'. split_and!; [by eapply consumes_advance|by constructor|done].
Qed.

Lemma set_must_sound (greedy : bool) (ok : N → bool) (k : mstate → option mstate)
    (lo : nat) (hi : option nat) (n : nat) (st res : mstate) :
  set_must greedy ok k lo hi n st = Some res →
  ∃ consumed st', consumes st consumed st' ∧ Forall (λ c, ok c = true) consumed
                  ∧ (n ≤ length consumed)%nat ∧ k st' = Some res.
Proof.
  revert st. induction n as [|n IH]; intros st; cbn [set_must].
  - intros (consumed & st' & ? & ? & ?)%set_more_sound.
    exists consumed, st'. split_and!; [done|done|lia|done].
  - fold (set_must greedy ok k lo hi).
    intros (c & t & Hrest & Hok & Hk)%eat_some.
    apply IH in Hk as (consumed & st' & Hcons & Hall & Hlen & Hk).
    exists (c :: consumed), st'.
    split_and!; [by eapply consumes_advance|by constructor|simpl; lia|done].
Qed.

(** When the continuation accepts every state, a greedy or lazy
    repetition succeeds as soon as its mandatory iterations do. *)
Lemma set_more_total (greedy : bool) (ok : N → bool) (k : mstate → option mstate)
    (fuel : nat) (budget : option nat) (st : mstate) :
  (∀ st', is_Some (k st')) → is_Some (set_more greedy ok k fuel budget st).
Proof.
  intros Hk. destruct fuel as [|fuel]; cbn [set_more]; [apply Hk|].
  destruct (Hk st) as [r Hr]. rewrite Hr.
  destruct greedy; [|done].
  match goal with |- is_Some (orelse ?a _) => destruct a end; done.
Qed.


Lemma lit_eat_some (fl : flags) (p : N) (st res : mstate) (k : mstate → option mstate) :
  IGNORECASE fl = false →
  eat st (lit_matches U fl p) k = Some res →
  ∃ t, ms_rest st = p :: t ∧ k (advance st p t) = Some res.
Proof.
  intros Hfl (c & t & Hrest & Hok & Hk)%eat_some.
  unfold lit_matches in Hok. rewrite Hfl in Hok. apply N.eqb_eq in Hok as ->.
  by exists t.
Qed.

Lemma is_message_line_inv (line : pystr) :
  is_message_line U line = true →
  ∃ d rest, line = py "Message " ++ d :: rest ∧ isdigit U d = true.
Proof.
  unfold is_message_line. change (py "Message ") with [77; 101; 115; 115; 97; 103; 101; 32].
  intros [Hs Hd]%andb_prop. revert Hs Hd.
  do 8 (destruct line as [|? line]; [done|];
        cbn [startswith]; intros [->%N.eqb_eq Hs]%andb_prop; revert Hs).
  intros _. cbn [drop]. destruct line as [|d rest]; [done|]. intros Hd.
  by exists d, rest.
Qed.

Lemma is_message_line_intro (d : N) (rest : pystr) :
  isdigit U d = true → is_message_line U (py "Message " ++ d :: rest) = true.
Proof. intros Hd. unfold is_message_line. vm_compute py. cbn. exact Hd. Qed.

(** What a match of [^Message \d+] at a position says about the text
    there. *)
Lemma match_here_message_sound (must_advance : bool) (prev : option N) (rest : pystr)
    (pos : nat) (m : mobj) :
  match_here U re_M message_re must_advance prev rest pos = Some m →
  bol prev = true
  ∧ ∃ digits rest', rest = py "Message " ++ digits ++ rest'
                    ∧ digits ≠ [] ∧ Forall (λ c, isdigit U c = true) digits
                    ∧ m_end m = (pos + 8 + length digits)%nat.
Proof.
  unfold match_here.
  set (k := λ st', if must_advance && bool_decide (ms_pos st' = pos) then None
                   else Some st').
  set (st := {| ms_prev := prev; ms_rest := rest; ms_pos := pos; ms_caps := [] |}).
  destruct (rmatch U re_M message_re st k) as [res|] eqn:Hr; [|done].
  intros [= <-]. cbn [m_end].
  unfold message_re in Hr.
  remember (RRep true 1 None (RSet false [IClass CDigit])) as dre eqn:Hdre.
  cbn [rmatch] in Hr.
  assert (at_bol re_M st = bol prev) as Hbol by (by destruct prev).
  rewrite Hbol in Hr. destruct (bol prev); [|done]. split; [done|].
  do 8 (apply lit_eat_some in Hr as (? & ? & Hr); [|done]).
  subst dre. rewrite rmatch_rep_set in Hr.
  apply set_must_sound in Hr as (digits & st' & [Hc1 Hc2] & Hall & Hlen & Hk).
  cbn [ms_rest advance st] in *. simplify_eq.
  exists digits, (ms_rest st'). split_and!.
  - done.
  - intros ->. simpl in Hlen. lia.
  - eapply Forall_impl; [exact Hall|]. intros c Hc. cbn in Hc.
    by rewrite orb_false_r in Hc.
  - unfold k in Hk. destruct (must_advance && _); [done|]. injection Hk as <-.
    rewrite Hc2. cbn [ms_pos advance st]. lia.
Qed.

Lemma match_here_message_complete (prev : option N) (line : pystr) (pos : nat) :
  bol prev = true → is_message_line U line = true →
  is_Some (match_here U re_M message_re false prev line pos).
Proof.
  intros Hbol (d & rest & -> & Hd)%is_message_line_inv.
  change (py "Message ") with [77; 101; 115; 115; 97; 103; 101; 32]. cbn [app].
  unfold match_here.
  set (st := {| ms_prev := prev; ms_pos := pos; ms_caps := [] |}).
  assert (at_bol re_M st = bol prev) as Hat by (by destruct prev).
  unfold message_re.
  remember (RRep true 1 None (RSet false [IClass CDigit])) as dre eqn:Hdre.
  cbn [rmatch]. rewrite Hat, Hbol.
  cbn [eat ms_rest st advance lit_matches IGNORECASE re_M N.eqb Pos.eqb].
  subst dre. rewrite rmatch_rep_set.
  cbn [set_must eat ms_rest advance existsb in_item in_class xorb].
  rewrite Hd. cbn [orb].
  match goal with
  | |- is_Some (match ?x with _ => _ end) =>
      assert (is_Some x) as [r ->]; [|done]
  end.
  apply set_more_total. intros st'. done.
Qed.


Lemma isdigit_not_newline (c : N) : isdigit U c = true → c ≠ 10.
Proof. by intros H ->. Qed.

Lemma scan_message_count (rest : pystr) (prev : option N) (pos skip : nat) :
  Forall (λ c, c ≠ 10) (take skip rest) →
  length (scan U re_M message_re prev rest pos skip)
  = count_from U (match skip with O => bol prev | S _ => false end) rest.
Proof.
  revert prev pos skip. induction rest as [|c t IH]; intros prev pos skip Hskip.
  - destruct skip as [|n]; [|done]. cbn [scan count_from].
    destruct (match_here U re_M message_re false prev [] pos) as [m|] eqn:Hm.
    + apply match_here_message_sound in Hm as (_ & digits & rest' & Hrest & _).
      by vm_compute py in Hrest.
    + by rewrite andb_false_r.
  - destruct skip as [|n].
    + cbn [scan count_from].
      destruct (match_here U re_M message_re false prev (c :: t) pos) as [m|] eqn:Hm.
      * apply match_here_message_sound in Hm as (Hbol & digits & rest' & Hrest & Hne & Hall & Hend).
        rewrite Hbol, Hrest.
        destruct digits as [|d ds]; [done|]. apply Forall_cons in Hall as [Hd Hds].
        cbn [app]. rewrite (is_message_line_intro d (ds ++ rest') Hd). cbn [andb].
        change (py "Message ") with [77; 101; 115; 115; 97; 103; 101; 32] in Hrest.
        cbn [app] in Hrest. injection Hrest as -> ->.
        rewrite bool_decide_eq_false_2 by lia. cbn [length].
        rewrite IH.
        { replace (m_end m - pos - 1)%nat with (S (7 + length ds)) by (simpl in Hend; lia).
          done. }
        replace (m_end m - pos - 1)%nat with (8 + length ds)%nat by (simpl in Hend; lia).
        change (101 :: 115 :: 115 :: 97 :: 103 :: 101 :: 32 :: d :: (ds ++ rest'))
          with ([101; 115; 115; 97; 103; 101; 32; d] ++ (ds ++ rest')).
        rewrite take_app_add' by done. rewrite take_app_length.
        apply Forall_app. split.
        -- repeat (constructor; [first [done|by apply isdigit_not_newline]|]). constructor.
        -- eapply Forall_impl; [exact Hds|]. apply isdigit_not_newline.
      * rewrite IH by (by rewrite take_0).
        destruct (bol prev) eqn:Hbol; [|done].
        destruct (is_message_line U (c :: t)) eqn:Hline; [|done].
        destruct (match_here_message_complete prev (c :: t) pos Hbol Hline) as [m' Hm'].
        congruence.
    + cbn [scan count_from]. rewrite firstn_cons in Hskip.
      apply Forall_cons in Hskip as [Hc Hskip]. rewrite IH by done.
      apply N.eqb_neq in Hc. rewrite Hc. cbn [andb bol]. rewrite Hc.
      by destruct n.
Qed.

Lemma split_on_first_line (text : pystr) :
  ∃ l ls, split_on 10 text = l :: ls ∧ (10 ∉ l)
          ∧ (text = l ∨ ∃ rest, text = l ++ 10 :: rest).
Proof.
  induction text as [|c t (l & ls & Hsplit & Hl & Ht)]; cbn [split_on].
  - exists [], []. split_and!; [done|apply not_elem_of_nil|by left].
  - destruct (N.eqb_spec c 10) as [->|Hc].
    + exists [], (split_on 10 t). split_and!; [done|apply not_elem_of_nil|].
      right. by exists t.
    + rewrite Hsplit. exists (c :: l), ls. split_and!; [done| |].
      * intros [?|?]%elem_of_cons; done.
      * destruct Ht as [->|[rest ->]]; [by left|right; by exists rest].
Qed.

Lemma is_message_line_first_line (l rest : pystr) :
  10 ∉ l → is_message_line U (l ++ 10 :: rest) = is_message_line U l.
Proof.
  intros Hl. destruct (is_message_line U l) eqn:Hline.
  - apply is_message_line_inv in Hline as (d & r & -> & Hd).
    rewrite <- app_assoc. cbn [app]. by apply is_message_line_intro.
  - destruct (is_message_line U (l ++ 10 :: rest)) eqn:Hfull; [|done].
    apply is_message_line_inv in Hfull as (d & r & Heq & Hd).
    change (py "Message ") with [77; 101; 115; 115; 97; 103; 101; 32] in Heq.
    cbn [app] in Heq.
    do 8 (destruct l as [|? l]; [by injection Heq|];
          injection Heq as -> Heq;
          apply not_elem_of_cons in Hl as [_ Hl]).
    destruct l as [|d' l].
    { injection Heq as <- _. by apply isdigit_not_newline in Hd. }
    injection Heq as -> _.
    pose proof (is_message_line_intro d l Hd) as Hintro.
    change (py "Message ") with [77; 101; 115; 115; 97; 103; 101; 32] in Hintro.
    cbn [app] in Hintro. congruence.
Qed.

Lemma count_from_lines (b : bool) (text : pystr) :
  count_from U b text
  = ((if b && is_message_line U text then 1 else 0)
     + length (filter (λ l, is_message_line U l = true) (tail (split_on 10 text))))%nat.
Proof.
  revert b. induction text as [|c t IH]; intros b; cbn [count_from]; [done|].
  f_equal. rewrite IH. cbn [split_on].
  destruct (split_on_first_line t) as (l & ls & Hsplit & Hl & Ht).
  rewrite Hsplit.
  destruct (N.eqb_spec c 10) as [->|Hc]; cbn [tail andb]; [|done].
  rewrite filter_cons.
  assert (is_message_line U t = is_message_line U l) as ->.
  { destruct Ht as [->|[rest ->]]; [done|]. by apply is_message_line_first_line. }
  destruct (is_message_line U l); [by rewrite decide_True|by rewrite decide_False].
Qed.

(** X16. The message counter counts lines: the number of matches of
    [^Message \d+] in the content is the number of its lines (split at the
    newline character) that begin with [Message ], a single blank included,
    followed by a decimal digit. *)
Theorem count_messages_counts_header_lines (e : email) :
  count_messages U e
  = length (filter (λ l, is_message_line U l = true) (split_on 10 (full_content e))).
Proof.
  unfold count_messages, finditer.
  rewrite scan_message_count by (by rewrite take_0).
  rewrite count_from_lines. cbn [bol andb].
  destruct (split_on_first_line (full_content e)) as (l & ls & Hsplit & Hl & Ht).
  rewrite Hsplit. cbn [tail]. rewrite filter_cons.
  assert (is_message_line U (full_content e) = is_message_line U l) as ->.
  { destruct Ht as [->|[rest ->]]; [done|]. by apply is_message_line_first_line. }
  destruct (is_message_line U l); [by rewrite decide_True|by rewrite decide_False].
Qed.


(** The first match of a scan is a match at some position of the text. *)
Lemma scan_head (fl : flags) (r : regex) (rest : pystr) (prev : option N) (pos : nat)
    (m : mobj) :
  head (scan U fl r prev rest pos O) = Some m →
  ∃ pre suf prev', rest = pre ++ suf
                   ∧ match_here U fl r false prev' suf (pos + length pre) = Some m.
Proof.
  revert prev pos. induction rest as [|c t IH]; intros prev pos; cbn [scan].
  - destruct (match_here U fl r false prev [] pos) as [m0|] eqn:Hm; [|done].
    intros Hhead. exists [], [], prev. split; [done|].
    rewrite Nat.add_0_r, Hm. by case_bool_decide.
  - destruct (match_here U fl r false prev (c :: t) pos) as [m0|] eqn:Hm.
    + intros Hhead. exists [], (c :: t), prev. split; [done|].
      rewrite Nat.add_0_r, Hm. by case_bool_decide.
    + intros (pre & suf & prev' & -> & Hm')%IH.
      exists (c :: pre), suf, prev'. split; [done|].
      rewrite <- Hm'. f_equal. simpl. lia.
Qed.

Lemma sender_char_not_at (c : N) : sender_char U c = true → c ≠ 64.
Proof. by intros H ->. Qed.

(** What a match of [[\w\.-]+@[\w\.-]+] at a position says about the
    text there. *)
Lemma match_here_sender_sound (must_advance : bool) (prev : option N) (rest : pystr)
    (pos : nat) (m : mobj) :
  match_here U no_flags sender_re must_advance prev rest pos = Some m →
  ∃ l r rest', rest = l ++ 64 :: r ++ rest' ∧ l ≠ [] ∧ r ≠ []
               ∧ Forall (λ c, sender_char U c = true) l
               ∧ Forall (λ c, sender_char U c = true) r
               ∧ m_start m = pos
               ∧ m_end m = (pos + length (l ++ 64%N :: r))%nat.
Proof.
  unfold match_here.
  set (k := λ st', if must_advance && bool_decide (ms_pos st' = pos) then None
                   else Some st').
  set (st := {| ms_prev := prev; ms_rest := rest; ms_pos := pos; ms_caps := [] |}).
  destruct (rmatch U no_flags sender_re st k) as [res|] eqn:Hr; [|done].
  intros [= <-]. cbn [m_start m_end].
  unfold sender_re in Hr.
  remember (RRep true 1 None (RSet false [IClass CWord; IChar 46; IChar 45])) as rep
    eqn:Hrep.
  cbn [rmatch] in Hr. subst rep. rewrite rmatch_rep_set in Hr.
  apply set_must_sound in Hr as (l & st1 & [Hl1 Hl2] & Hlok & Hllen & Hr).
  apply lit_eat_some in Hr as (t & Ht & Hr); [|done].
  rewrite rmatch_rep_set in Hr.
  apply set_must_sound in Hr as (r & st2 & [Hr1 Hr2] & Hrok & Hrlen & Hk).
  assert (∀ c, xorb false (existsb (in_item U c) [IClass CWord; IChar 46; IChar 45]) = true
               → sender_char U c = true) as Hok.
  { intros c. unfold sender_char. cbn. by rewrite orb_false_r, orb_assoc. }
  cbn [ms_rest ms_pos advance st] in *.
  exists l, r, (ms_rest st2). split_and!.
  - by rewrite Hl1, Ht, Hr1.
  - intros ->. simpl in Hllen. lia.
  - intros ->. simpl in Hrlen. lia.
  - eapply Forall_impl; [exact Hlok|exact Hok].
  - eapply Forall_impl; [exact Hrok|exact Hok].
  - done.
  - unfold k in Hk. destruct (must_advance && _); [done|]. injection Hk as <-.
    rewrite Hr2, Hl2, length_app. simpl. lia.
Qed.

(** The first address-shaped token of a text. *)
Lemma search_sender_sound (text : pystr) (m : mobj) :
  search U no_flags sender_re text = Some m →
  ∃ pre l r post, text = pre ++ (l ++ 64 :: r) ++ post
                  ∧ slice text (m_start m) (m_end m) = l ++ 64 :: r
                  ∧ l ≠ [] ∧ r ≠ []
                  ∧ Forall (λ c, sender_char U c = true) (l ++ r).
Proof.
  unfold search, finditer.
  intros (pre & suf & prev' & -> & Hm)%scan_head.
  apply match_here_sender_sound in Hm as (l & r & post & -> & Hl & Hr & Hlok & Hrok & Hs & He).
  exists pre, l, r, post. split_and!; [|  |done|done|by apply Forall_app].
  - by rewrite <- !app_assoc.
  - unfold slice. rewrite Hs, He. simpl (0 + _)%nat.
    rewrite drop_app_length.
    replace (length pre + length (l ++ 64%N :: r) - length pre)%nat
      with (length (l ++ 64 :: r)) by lia.
    replace (l ++ 64 :: r ++ post) with ((l ++ 64 :: r) ++ post)
      by (by rewrite <- app_assoc).
    by rewrite take_app_length.
Qed.

(** X17. Shape of a sender key.  It is never empty.  A lower-cased 'from'
    field without an at sign never gives an address: the key is then
    'unknown' for the empty field and its first 50 characters otherwise.
    When an address-shaped token is found, the key is a piece of the
    lower-cased field and holds exactly one at sign, with at least one
    character on each side of it, all of them word characters, dots or
    hyphens. *)
Theorem sender_key_shape (e : email) :
  extract_sender U e ≠ []
  ∧ (64 ∉ lower U (from e) →
     extract_sender U e
     = if is_empty (lower U (from e)) then py "unknown" else take 50 (lower U (from e)))
  ∧ (is_Some (search U no_flags sender_re (lower U (from e))) →
     ∃ pre l r post,
       lower U (from e) = pre ++ extract_sender U e ++ post
       ∧ extract_sender U e = l ++ 64 :: r
       ∧ l ≠ [] ∧ r ≠ [] ∧ (64 ∉ l) ∧ (64 ∉ r)
       ∧ Forall (λ c, sender_char U c = true) (l ++ r)).
Proof.
  unfold extract_sender. cbv zeta.
  destruct (search U no_flags sender_re (lower U (from e))) as [m|] eqn:Hm.
  - apply search_sender_sound in Hm as (pre & l & r & post & Htext & Hslice & Hl & Hr & Hok).
    rewrite Hslice. split_and!.
    + by destruct l.
    + intros Hat. exfalso. apply Hat. rewrite Htext.
      apply elem_of_app. right. apply elem_of_app. left.
      apply elem_of_app. right. by left.
    + intros _. exists pre, l, r, post. apply Forall_app in Hok as [Hlok Hrok].
      split_and!; [done|done|done|done| | |by apply Forall_app].
      * intros Hin. by apply (Forall_forall _ l) with (x := 64) in Hlok.
      * intros Hin. by apply (Forall_forall _ r) with (x := 64) in Hrok.
  - split_and!.
    + destruct (lower U (from e)) as [|c t]; [by vm_compute|done].
    + done.
    + by intros [? ?].
Qed.

End RegexFacts.

(** ** The year of a record *)

Section YearFacts.
Context (uni_todecimal : N → option N).

Lemma digit_value_bound (c : N) : ascii_isdigit c = true → (0 ≤ Z.of_N (c - 48) ≤ 9)%Z.
Proof.
  intros H. pose proof (ascii_digit_cases c H) as Hc.
  destruct_or! Hc; subst c; simpl; lia.
Qed.

Lemma int_digits_bound (s : pystr) (prev : bool) (acc v : Z) (rest : pystr) :
  int_digits s prev acc = Some (v, rest) → (0 ≤ acc)%Z →
  (acc ≤ v)%Z ∧ (v < (acc + 1) * 10 ^ Z.of_nat (digit_count s))%Z.
Proof.
  revert prev acc. induction s as [|c t IH]; intros prev acc; cbn [int_digits].
  { destruct prev; [done|]. intros [= <- <-] Hacc. unfold digit_count. simpl. lia. }
  unfold digit_count. rewrite filter_cons. fold (digit_count t).
  assert (0 < 10 ^ Z.of_nat (digit_count t))%Z as Hpow by (apply Z.pow_pos_nonneg; lia).
  destruct (ascii_isdigit c) eqn:Hd.
  - rewrite decide_True by done. intros Hv Hacc.
    pose proof (digit_value_bound c Hd) as Hb.
    apply IH in Hv as [H1 H2]; [|lia].
    cbn [length]. fold (digit_count t). rewrite Nat2Z.inj_succ, Z.pow_succ_r by lia.
    split; [lia|].
    assert ((acc * 10 + Z.of_N (c - 48) + 1) * 10 ^ Z.of_nat (digit_count t)
            ≤ (acc + 1) * 10 * 10 ^ Z.of_nat (digit_count t))%Z
      by (apply Z.mul_le_mono_nonneg_r; lia).
    lia.
  - rewrite decide_False by done.
    destruct (c =? 95).
    + destruct prev; [done|]. intros Hv Hacc. by apply (IH _ _ Hv).
    + destruct prev; [done|]. intros [= <- <-] Hacc. split; [lia|nia].
Qed.

Lemma digit_count_full (s : pystr) :
  digit_count s = length s → Forall (λ c, ascii_isdigit c = true) s.
Proof.
  unfold digit_count. induction s as [|c t IH]; [done|].
  rewrite filter_cons. pose proof (length_filter (λ c, ascii_isdigit c = true) t) as Hle.
  destruct (decide (ascii_isdigit c = true)); simpl; intros Hlen.
  - constructor; [done|]. apply IH. lia.
  - lia.
Qed.

Lemma skip_spaces_length (s : pystr) : (length (skip_spaces s) ≤ length s)%nat.
Proof.
  induction s as [|c t IH]; [done|]. cbn [skip_spaces].
  destruct (c_isspace c); simpl; lia.
Qed.

Lemma skip_spaces_full (s : pystr) : length (skip_spaces s) = length s → skip_spaces s = s.
Proof.
  destruct s as [|c t]; [done|]. cbn [skip_spaces].
  destruct (c_isspace c); [|done].
  pose proof (skip_spaces_length t). simpl. lia.
Qed.

Lemma int_transform_length (s : pystr) :
  (length (int_transform uni_todecimal s) ≤ length s)%nat.
Proof.
  induction s as [|c t IH]; [done|]. cbn [int_transform].
  destruct (c <? 127); [simpl; lia|].
  destruct (isspace c); [simpl; lia|].
  destruct (if is_ascii c then None else uni_todecimal c); simpl; lia.
Qed.

Lemma int_transform_ascii_digits (s : pystr) :
  forallb is_ascii s = true →
  Forall (λ c, ascii_isdigit c = true) (int_transform uni_todecimal s) →
  int_transform uni_todecimal s = s.
Proof.
  induction s as [|c t IH]; [done|]. cbn [forallb int_transform].
  intros [Hc Ht]%andb_prop.
  destruct (c <? 127) eqn:Hlt.
  - intros [_ Hall]%Forall_cons. by rewrite IH.
  - unfold is_ascii in Hc. apply N.ltb_lt in Hc. apply N.ltb_ge in Hlt.
    assert (c = 127) as -> by lia. cbn.
    intros [Hq _]%Forall_cons. done.
Qed.

(** The sign that [int] reads off the front of a number. *)
Lemma sign_cases (s : pystr) :
  let r := match s with
           | 45 :: t => (true, t)
           | 43 :: t => (false, t)
           | _ => (false, s)
           end in
  r = (false, s) ∨ ∃ neg t, r = (neg, t) ∧ (length t < length s)%nat.
Proof.
  destruct s as [|h t]; [by left|].
  destruct (decide (h = 45)) as [->|H45].
  { right. exists true, t. split; [done|simpl; lia]. }
  destruct (decide (h = 43)) as [->|H43].
  { right. exists false, t. split; [done|simpl; lia]. }
  left. destruct h as [|p]; [done|].
  do 6 (try (destruct p as [p|p|]; try done)).
Qed.

Lemma py_int_positive (s : pystr) (v : Z) :
  py_int uni_todecimal s = Some v → (0 < v)%Z →
  ∃ s2 rest, int_digits s2 false 0 = Some (v, rest)
             ∧ (s2 = skip_spaces (int_transform uni_todecimal s)
                ∨ (length s2 < length (skip_spaces (int_transform uni_todecimal s)))%nat).
Proof.
  unfold py_int. cbv zeta.
  set (s1 := skip_spaces (int_transform uni_todecimal s)).
  destruct (sign_cases s1) as [Hr|(neg & t & Hr & Hlen)]; cbv zeta in Hr; rewrite Hr.
  - destruct s1 as [|c s1']; [done|]. destruct (ascii_isdigit c); [|done].
    destruct (int_digits (c :: s1') false 0) as [[w rest]|] eqn:Hd; [|done].
    cbn [mbind option_bind]. destruct (skip_spaces rest); [|done].
    intros [= <-] Hpos. exists (c :: s1'), rest. split; [done|by left].
  - destruct t as [|c t']; [done|]. destruct (ascii_isdigit c); [|done].
    destruct (int_digits (c :: t') false 0) as [[w rest]|] eqn:Hd; [|done].
    cbn [mbind option_bind]. destruct (skip_spaces rest); [|done].
    pose proof (int_digits_bound _ _ _ _ _ Hd ltac:(done)) as [Hw _].
    destruct neg; intros [= <-] Hpos; [lia|].
    exists (c :: t'), rest. split; [done|by right].
Qed.

(** X18. The year filter on ASCII timestamps: when the first four
    characters of the 'time' field are ASCII, the record has year 2025
    exactly when they are the text 2025; no sign, blank, underscore or
    shorter number gets through. *)
Theorem year_2025_needs_2025_prefix (e : email) :
  forallb is_ascii (take 4 (time e)) = true →
  (get_year uni_todecimal e = Some 2025%Z ↔ take 4 (time e) = py "2025").
Proof.
  intros Hascii. unfold get_year. cbv zeta. split.
  - destruct (time e) as [|t0 ts] eqn:Htime; [done|]. cbn [is_empty negb].
    rewrite <- Htime in *. clear Htime t0 ts.
    set (s := take 4 (time e)) in *.
    assert (length s ≤ 4)%nat as Hlen by (unfold s; rewrite length_take; lia).
    intros Hint.
    apply py_int_positive in Hint as (s2 & rest & Hd & Hs2); [|lia].
    pose proof (int_digits_bound _ _ _ _ _ Hd ltac:(done)) as [_ Hv].
    pose proof (length_filter (λ c, ascii_isdigit c = true) s2) as Hdc.
    fold (digit_count s2) in Hdc.
    pose proof (skip_spaces_length (int_transform uni_todecimal s)) as Hsk.
    pose proof (int_transform_length s) as Hit.
    assert (4 ≤ digit_count s2)%nat as Hfour.
    { destruct (digit_count s2) as [|[|[|[|n]]]]; simpl in Hv; lia. }
    destruct Hs2 as [->|Hlt]; [|lia].
    assert (skip_spaces (int_transform uni_todecimal s) = int_transform uni_todecimal s)
      as Hskip by (apply skip_spaces_full; lia).
    rewrite Hskip in *.
    assert (Forall (λ c, ascii_isdigit c = true) (int_transform uni_todecimal s)) as Hall
      by (apply digit_count_full; lia).
    pose proof (int_transform_ascii_digits s Hascii Hall) as Hsame.
    rewrite Hsame in Hall, Hd, Hdc, Hfour.
    destruct s as [|a [|b [|c [|d [|x s]]]]]; simpl in Hfour, Hdc, Hlen; try lia.
    apply Forall_cons in Hall as [Ha Hall]. apply Forall_cons in Hall as [Hb Hall].
    apply Forall_cons in Hall as [Hc Hall]. apply Forall_cons in Hall as [Hdd _].
    clear Hv Hfour Hdc Hskip Hsame Hit Hsk.
    pose proof (digit_value_bound a Ha). pose proof (digit_value_bound b Hb).
    pose proof (digit_value_bound c Hc). pose proof (digit_value_bound d Hdd).
    cbn [int_digits] in Hd. rewrite Ha, Hb, Hc, Hdd in Hd. cbn [int_digits] in Hd.
    injection Hd as Hval _.
    assert (Z.of_N (a - 48) = 2 ∧ Z.of_N (b - 48) = 0 ∧ Z.of_N (c - 48) = 2
            ∧ Z.of_N (d - 48) = 5)%Z as (Ea & Eb & Ec & Ed) by lia.
    unfold ascii_isdigit in Ha, Hb, Hc, Hdd.
    apply andb_prop in Ha as [Ha1 _]. apply andb_prop in Hb as [Hb1 _].
    apply andb_prop in Hc as [Hc1 _]. apply andb_prop in Hdd as [Hd1 _].
    apply N.leb_le in Ha1, Hb1, Hc1, Hd1.
    assert (a = 50 ∧ b = 48 ∧ c = 50 ∧ d = 53) as (-> & -> & -> & ->) by lia.
    reflexivity.
  - intros Hs. destruct (time e) as [|t0 ts]; [done|]. cbn [is_empty negb].
    rewrite Hs. reflexivity.
Qed.

End YearFacts.

(** ** Plain texts are fixed points of the cleaner *)

Section PlainTexts.
Context (U : unicode_db).











(** *** A pattern that no suffix of the text lets match finds nothing *)



(** *** Dead by the alphabet *)




(** *** Dead for want of a phrase *)







(** *** Dead for want of white space next to a line break *)







(** *** Plain texts *)






(** *** The four shapes *)










(** *** Every rule of the cleaner leaves a plain text alone *)











End PlainTexts.

(** ** Evaluations on concrete inputs *)

Example attachment_block_scenario :
  clean_email_content plain_db
    (py "Content-Type: text/plain\nContent-Disposition: attachment\nfoo")
  = Some (py "[Attachment]\nfoo").
Proof. vm_compute. reflexivity. Qed.

Example sub_empty_matches :
  re_sub plain_db "x*" no_flags (py "-") (py "abxd") = Some (py "-a-b--d-").
Proof. vm_compute. reflexivity. Qed.

Example sub_group_backtracking :
  re_sub plain_db "(a|ab)(c|bcd)" no_flags (raw "<\2\1>") (py "abcd") = Some (py "<bcda>").
Proof. vm_compute. reflexivity. Qed.

Example extract_sender_examples :
  extract_sender plain_db <$> sample_pool
  = [py "alice@x.org"; py "unknown"; py "bob"; py "alice@x.org"; py "unknown"].
Proof. vm_compute. reflexivity. Qed.

Example main_on_sample_pool :
  thread_id <$> main plain_db lcg_seed lcg_randbelow O sample_pool
  = [py "t4"; py "t1"; py "t2"; py "t3"; py "t5"].
Proof. vm_compute. reflexivity. Qed.

(** The input of the C1 counterexample behaves the same under every
    Unicode database: it is pure ASCII. *)
Lemma clean_brackets_any_db (U : unicode_db) :
  clean_email_content U (py "a []") = Some (py "a ")
  ∧ clean_email_content U (py "a ") = Some (py "a").
Proof. split; vm_compute; reflexivity. Qed.



(** C3, witness. *)
Lemma segmentation_witness :
  re_split plain_db "\n---\n" thread_text = Some thread_parts
  ∧ remove_duplicate_content plain_db thread_text
    = Some (py "Message 1\nfoo\n\nMessage 2\nbar").
Proof.
  assert (re_split plain_db "\n---\n" thread_text = Some thread_parts) as Hsplit
    by (vm_compute; reflexivity).
  split; [exact Hsplit|].
  destruct (segmentation plain_db thread_text thread_parts Hsplit) as (_ & Hjoin & _).
  rewrite Hjoin; [vm_compute; reflexivity|].
  exists (py "Message 1\nfoo"). split; [|vm_compute; reflexivity].
  apply list_elem_of_further, list_elem_of_here.
Defined.

(** C6, witness. *)
Lemma no_duplicate_thread_ids_witness :
  NoDup (thread_id <$> sample_pool)
  ∧ NoDup (thread_id <$> main plain_db lcg_seed lcg_randbelow O sample_pool).
Proof.
  assert (NoDup (thread_id <$> sample_pool)) as Hids by compute_done.
  split; [exact Hids|].
  exact (proj1 (no_duplicate_thread_ids plain_db lcg_seed lcg_randbelow O sample_pool Hids)).
Defined.

(** C7, witness: the work records of the sample pool under
    [backfill_targets]; the 2-msg pass is one record short and the backfill
    adds the 1-msg record that the 1-msg pass left. *)
Lemma backfill_from_1msg_witness :
  let emails := filter (λ e, personal_or_work e = py "work") sample_pool in
  let passes :=
    bucket_loop plain_db lcg_randbelow emails backfill_targets [] O ∅ (lcg_seed 42) in
  (0 < passes.1.1.2)%nat
  ∧ ∃ additional c' g',
      select_emails_with_global_cap plain_db lcg_randbelow emails backfill_targets ∅ 3
        (lcg_seed 42) = (passes.1.1.1 ++ additional, c', g')
      ∧ length additional = 1%nat
      ∧ ∀ e, e ∈ additional →
             get_message_bucket plain_db e = py "1-msg"
             ∧ thread_id e ∉ thread_id <$> passes.1.1.1.
Proof.
  intros emails passes.
  assert (0 < passes.1.1.2)%nat as Hshort by (vm_compute; lia).
  split; [exact Hshort|].
  destruct (backfill_from_1msg plain_db lcg_randbelow emails backfill_targets ∅ 3
              (lcg_seed 42) Hshort) as (additional & c' & g' & Hsel & Hin & _).
  exists additional, c', g'. split; [exact Hsel|]. split.
  - assert (length (select_emails_with_global_cap plain_db lcg_randbelow emails
                      backfill_targets ∅ 3 (lcg_seed 42)).1.1 = 3%nat) as Hall
      by (vm_compute; reflexivity).
    assert (length passes.1.1.1 = 2%nat) as Hpasses by (vm_compute; reflexivity).
    rewrite Hsel in Hall. cbn [fst] in Hall. fold passes in Hall.
    rewrite length_app, Hpasses in Hall.
    injection Hall as Hall. exact Hall.
  - intros e He. destruct (Hin e He) as (_ & Hb & Hid). by split.
Defined.

(** C8, counterexample: the preview's first 'From:' line has an empty
    value, and the record's 'from' comes from the second one. *)
Lemma first_header_line_not_always_wins :
  out_from <$> returned (merge_row (λ _, JsonError) ∅ two_from_row)
  = Some (py "bob@example.org")
  ∧ first_matching_line_value (py "From:") (scanned_lines (py "From:\nFrom: bob@example.org"))
    = []
  ∧ out_from <$> returned (merge_row (λ _, JsonError) ∅ two_from_row)
    ≠ Some (first_matching_line_value (py "From:")
              (scanned_lines (py "From:\nFrom: bob@example.org"))).
Proof.
  split_and!; [vm_compute; reflexivity..|].
  vm_compute. intros H. discriminate H.
Qed.

(** The same row with nothing in its preview cell raises. *)
Example merge_row_no_preview :
  merge_row (λ _, JsonError) ∅ no_preview_row = Raises AttributeError.
Proof. reflexivity. Qed.

(** X10, witness. *)
Lemma emails_json_order_witness :
  let out := default [] (returned (emails_json (λ _, JsonSized O) three_rows_content
                                     three_rows)) in
  emails_json (λ _, JsonSized O) three_rows_content three_rows = Returns out
  ∧ out_thread_id <$> out = [py "b"; py "a"; py "c"]
  ∧ length (filter (λ e, out_full_content e ≠ CText []) out)
    = matched three_rows_content three_rows.
Proof.
  intros out.
  assert (emails_json (λ _, JsonSized O) three_rows_content three_rows = Returns out)
    as Hout by (vm_compute; reflexivity).
  split; [exact Hout|]. split; [vm_compute; reflexivity|].
  exact (proj2 (proj2 (proj2 (proj2
           (emails_json_order (λ _, JsonSized O) three_rows_content three_rows out
              Hout))))).
Defined.

(** X11, witness. *)
Lemma parsed_fields_are_stripped_witness :
  let rec := default (Build_merged [] 0 O CNaN CNaN CNaN CNaN CNaN CNaN CNaN [] [] [] [])
               (returned (merge_row (λ _, JsonError) ∅ two_from_row)) in
  merge_row (λ _, JsonError) ∅ two_from_row = Returns rec
  ∧ out_from rec = py "bob@example.org"
  ∧ no_outer_space (out_from rec) = true.
Proof.
  intros rec.
  assert (merge_row (λ _, JsonError) ∅ two_from_row = Returns rec) as Hrec
    by (vm_compute; reflexivity).
  split; [exact Hrec|]. split; [vm_compute; reflexivity|].
  exact (proj1 (parsed_fields_are_stripped (λ _, JsonError) ∅ two_from_row rec Hrec)).
Defined.

(** X3, witness: with a cap of 5 no sender of the sample pool can reach
    it. *)
Lemma sample_fills_when_cap_is_slack_witness :
  (∀ s, ((∅ : gmap pystr nat) !!! s + sender_count plain_db s sample_pool ≤ 5)%nat)
  ∧ length (sample_with_global_sender_cap plain_db lcg_randbelow sample_pool 3 5 ∅
              (lcg_seed 42)).1.1 = 3%nat.
Proof.
  assert (∀ s, ((∅ : gmap pystr nat) !!! s + sender_count plain_db s sample_pool ≤ 5)%nat)
    as Hslack.
  { intros s. rewrite counts_empty.
    apply (sender_count_le_length plain_db s sample_pool). }
  split; [exact Hslack|].
  exact (sample_fills_when_cap_is_slack plain_db lcg_randbelow sample_pool 3 5 ∅
           (lcg_seed 42) Hslack).
Defined.

(** X4, witness: with a cap of 1 the sample pool gives three records. *)
Lemma short_sample_is_capped_witness :
  let call := sample_with_global_sender_cap plain_db lcg_randbelow sample_pool 5 1 ∅
                (lcg_seed 42) in
  (length call.1.1 < 5)%nat
  ∧ Forall (λ e, e ∈ call.1.1 ∨ (1 ≤ call.1.2 !!! extract_sender plain_db e)%nat)
      sample_pool.
Proof.
  intros call.
  assert (length call.1.1 < 5)%nat as Hshort by (vm_compute; lia).
  split; [exact Hshort|].
  exact (short_sample_is_capped plain_db lcg_randbelow sample_pool 5 1 ∅ (lcg_seed 42)
           Hshort).
Defined.

(** X5, witness. *)
Lemma buckets_respect_targets_witness :
  NoDup WORK_TARGETS.*1
  ∧ (py "2-msg", 60%nat) ∈ WORK_TARGETS
  ∧ (bucket_count plain_db (py "2-msg")
       (select_emails_with_global_cap plain_db lcg_randbelow sample_pool WORK_TARGETS ∅
          200 (lcg_seed 42)).1.1 ≤ 60)%nat.
Proof.
  assert (NoDup WORK_TARGETS.*1) as Hkeys by compute_done.
  assert ((py "2-msg", 60%nat) ∈ WORK_TARGETS) as Hin
    by apply list_elem_of_further, list_elem_of_here.
  split; [exact Hkeys|]. split; [exact Hin|].
  destruct (buckets_respect_targets plain_db lcg_randbelow sample_pool WORK_TARGETS ∅ 200
              (lcg_seed 42) (py "2-msg") 60 Hkeys Hin) as (_ & Hle & _).
  apply Hle. vm_compute. intros H. discriminate H.
Defined.

(** X7, witness. *)
Lemma empty_ignore_entry_ignores_all_witness :
  [] ∈ default [] (json_ignored_subject_patterns sample_ignore_json)
  ∧ is_ignored plain_db (mk_email "t1" "Alice" "hello" "work")
      (load_ignore_list plain_db sample_ignore_json).1.1
      (load_ignore_list plain_db sample_ignore_json).1.2
      (load_ignore_list plain_db sample_ignore_json).2 = true.
Proof.
  assert ([] ∈ default [] (json_ignored_subject_patterns sample_ignore_json)) as Hin
    by apply list_elem_of_further, list_elem_of_here.
  split; [exact Hin|].
  apply (empty_ignore_entry_ignores_all plain_db sample_ignore_json). right. right. exact Hin.
Defined.

(** X8, witness. *)
Lemma ignore_lists_monotone_witness :
  let e := mk_email "t3" "Bob <bob@x.org>" "hello" "personal" in
  is_ignored plain_db e {[py "bob@x.org"]} ∅ [] = true
  ∧ is_ignored plain_db e {[py "bob@x.org"; py "carol@x.org"]} {[py "y.org"]} [py "sale"]
    = true.
Proof.
  intros e.
  assert (is_ignored plain_db e {[py "bob@x.org"]} ∅ [] = true) as Hign
    by (vm_compute; reflexivity).
  split; [exact Hign|].
  exact (ignore_lists_monotone plain_db e {[py "bob@x.org"]}
           {[py "bob@x.org"; py "carol@x.org"]} ∅ {[py "y.org"]} [] [py "sale"]
           (union_subseteq_l _ _) (empty_subseteq _) (list_subseteq_nil _) Hign).
Defined.

(** X9, witness. *)
Lemma get_year_of_timestamp_witness :
  time (mk_email "t1" "Alice" "hello" "work") = py "2025-01-01"
  ∧ get_year (λ _, None) (mk_email "t1" "Alice" "hello" "work") = Some 2025%Z.
Proof.
  split; [reflexivity|].
  exact (proj1 (get_year_of_timestamp (λ _, None) (mk_email "t1" "Alice" "hello" "work")
                  50 48 50 53 (py "-01-01") eq_refl eq_refl eq_refl eq_refl eq_refl)).
Defined.

(** X12, witness. *)
Lemma headers_after_line_20_are_ignored_witness :
  length header_lines_20 = 20%nat
  ∧ Forall (λ l, 10 ∉ l) header_lines_20
  ∧ parse_headers (join (py "\n") header_lines_20 ++ py "\nFrom: b@y.org\nTo: c@z.org")
    = parse_headers (join (py "\n") header_lines_20).
Proof.
  assert (Forall (λ l, 10 ∉ l) header_lines_20) as Hall by compute_done.
  split; [reflexivity|]. split; [exact Hall|].
  exact (headers_after_line_20_are_ignored header_lines_20 (py "From: b@y.org\nTo: c@z.org")
           eq_refl Hall).
Defined.

(** X18, witness. *)
Lemma year_2025_needs_2025_prefix_witness :
  forallb is_ascii (take 4 (time (mk_email "t1" "Alice" "hello" "work"))) = true
  ∧ get_year (λ _, None) (mk_email "t1" "Alice" "hello" "work") = Some 2025%Z.
Proof.
  split; [reflexivity|].
  apply (year_2025_needs_2025_prefix (λ _, None) (mk_email "t1" "Alice" "hello" "work")
           eq_refl).
  reflexivity.
Defined.

(** C4, witness: a generator and one that also counts its draws. *)
Lemma selection_reproducible_witness :
  let R := λ (g1 : nat) (g2 : nat * nat), g1 = g2.1 in
  (∀ g1 g2 n, R g1 g2 →
     (lcg_randbelow g1 n).1 = (lcg_counting_randbelow g2 n).1
     ∧ R (lcg_randbelow g1 n).2 (lcg_counting_randbelow g2 n).2)
  ∧ R (lcg_seed 7) (lcg_counting_seed 7)
  ∧ (select_emails_with_global_cap plain_db lcg_randbelow sample_pool WORK_TARGETS ∅ 200
       (lcg_seed 7)).1
    = (select_emails_with_global_cap plain_db lcg_counting_randbelow sample_pool
         WORK_TARGETS ∅ 200 (lcg_counting_seed 7)).1.
Proof.
  intros R.
  assert (∀ g1 g2 n, R g1 g2 →
            (lcg_randbelow g1 n).1 = (lcg_counting_randbelow g2 n).1
            ∧ R (lcg_randbelow g1 n).2 (lcg_counting_randbelow g2 n).2) as Hdraws.
  { intros g1 g2 n HR. unfold R in *. subst g1. split; reflexivity. }
  assert (R (lcg_seed 7) (lcg_counting_seed 7)) as Hseed by reflexivity.
  split; [exact Hdraws|]. split; [exact Hseed|].
  exact (proj1 (selection_reproducible plain_db lcg_seed lcg_counting_seed lcg_randbelow
                  lcg_counting_randbelow R Hdraws sample_pool WORK_TARGETS 10 5 200 200 ∅
                  (lcg_seed 7) (lcg_counting_seed 7) Hseed)).
Defined.
